(** * UndoTransaction (ASE, src/undo_transaction.cpp): a shallow embedding

    The sprite, its layer tree, the stock of images and the undo history
    are modelled as plain values; every operation of [UndoTransaction] is a
    computation in a small state-and-failure monad.  A failed [ASSERT] (a
    precondition violation, fatal in the source) is a failure of the
    monad.  Besides the sprite and the undo history the state carries a
    trace of events: one entry per journal record and one per primitive
    mutation of the document, in the order the source performs them. *)

From Stdlib Require Import ZArith List Bool Lia.
From Stdlib Require Import String Permutation Sorted.
Import ListNotations.
Open Scope Z_scope.
Open Scope list_scope.
Set Warnings "-register-all".

(** ** Document model *)

Record image := mkImage {
  img_type : Z;
  img_w : Z;
  img_h : Z;
  img_px : list Z
}.

(** [Cel]: frame, position, opacity and the index of its image in the stock. *)
Record cel := mkCel {
  cel_frame : Z;
  cel_x : Z;
  cel_y : Z;
  cel_opacity : Z;
  cel_image : Z
}.

(** [LayerImage] (with its background flag and its cels, in list order)
    and [LayerFolder] (with its children, bottom first).  [lid] is the
    identity of the C++ object. *)
Inductive layer :=
| LayerImage (lid : nat) (background : bool) (cels : list cel)
| LayerFolder (lid : nat) (layers : list layer).

(** The C++ type name, for signatures whose argument is named [layer]. *)
Abbreviation Layer := layer (only parsing).

(** The same for [image]. *)
Abbreviation Image := image (only parsing).

Definition layer_id (l : layer) : nat :=
  match l with LayerImage id _ _ => id | LayerFolder id _ => id end.

Record mask := mkMask {
  mask_name : String.string;
  mask_x : Z;
  mask_y : Z;
  mask_w : Z;
  mask_h : Z;
  mask_bitmap : option (list (list bool))
}.

(** [mask_is_empty]: a mask without bitmap. *)
Definition mask_is_empty (m : mask) : bool :=
  match mask_bitmap m with None => true | Some _ => false end.

Record palette := mkPalette {
  pal_frame : Z;
  pal_colors : list Z
}.

Record sprite := mkSprite {
  spr_imgtype : Z;
  spr_width : Z;
  spr_height : Z;
  spr_folder : layer;                 (** the root folder *)
  spr_stock : list (option image);    (** stock slots; [None] is a freed slot *)
  spr_stock_imgtype : Z;
  spr_frames : Z;                     (** totalFrames *)
  spr_frlens : list Z;                (** per-frame durations *)
  spr_frame : Z;                      (** current frame *)
  spr_layer : option nat;             (** current layer *)
  spr_mask : mask;
  spr_masks : list mask;              (** the named mask repository *)
  spr_palettes : list palette
}.

Definition IMAGE_RGB : Z := 0.
Definition IMAGE_GRAYSCALE : Z := 1.
Definition IMAGE_INDEXED : Z := 2.

(** Field updates of [sprite]. *)
Definition set_imgtype (t : Z) (s : sprite) : sprite :=
  mkSprite t (spr_width s) (spr_height s) (spr_folder s) (spr_stock s)
    (spr_stock_imgtype s) (spr_frames s) (spr_frlens s) (spr_frame s)
    (spr_layer s) (spr_mask s) (spr_masks s) (spr_palettes s).
Definition set_size (w h : Z) (s : sprite) : sprite :=
  mkSprite (spr_imgtype s) w h (spr_folder s) (spr_stock s)
    (spr_stock_imgtype s) (spr_frames s) (spr_frlens s) (spr_frame s)
    (spr_layer s) (spr_mask s) (spr_masks s) (spr_palettes s).
Definition set_folder (f : layer) (s : sprite) : sprite :=
  mkSprite (spr_imgtype s) (spr_width s) (spr_height s) f (spr_stock s)
    (spr_stock_imgtype s) (spr_frames s) (spr_frlens s) (spr_frame s)
    (spr_layer s) (spr_mask s) (spr_masks s) (spr_palettes s).
Definition set_stock (k : list (option image)) (s : sprite) : sprite :=
  mkSprite (spr_imgtype s) (spr_width s) (spr_height s) (spr_folder s) k
    (spr_stock_imgtype s) (spr_frames s) (spr_frlens s) (spr_frame s)
    (spr_layer s) (spr_mask s) (spr_masks s) (spr_palettes s).
Definition set_stock_imgtype (t : Z) (s : sprite) : sprite :=
  mkSprite (spr_imgtype s) (spr_width s) (spr_height s) (spr_folder s)
    (spr_stock s) t (spr_frames s) (spr_frlens s) (spr_frame s)
    (spr_layer s) (spr_mask s) (spr_masks s) (spr_palettes s).
(** Modelled from the spec: [Sprite::setTotalFrames(n)] keeps the array
    of durations at [n] entries (the spec's invariant), keeping the
    durations of the frames that stay.  The spec does not give the
    duration of a new frame; here it is the duration of the last old
    frame (100 when there is none). *)
Definition resize_frlens (n : Z) (d : list Z) : list Z :=
  firstn (Z.to_nat n) d ++ repeat (last d 100) (Z.to_nat n - List.length d).

(** Modelled from the spec: [Sprite::setTotalFrames(n)], the frame count
    and the array of durations, of the same length. *)
Definition set_frames (n : Z) (s : sprite) : sprite :=
  mkSprite (spr_imgtype s) (spr_width s) (spr_height s) (spr_folder s)
    (spr_stock s) (spr_stock_imgtype s) n (resize_frlens n (spr_frlens s)) (spr_frame s)
    (spr_layer s) (spr_mask s) (spr_masks s) (spr_palettes s).
Definition set_frlens (d : list Z) (s : sprite) : sprite :=
  mkSprite (spr_imgtype s) (spr_width s) (spr_height s) (spr_folder s)
    (spr_stock s) (spr_stock_imgtype s) (spr_frames s) d (spr_frame s)
    (spr_layer s) (spr_mask s) (spr_masks s) (spr_palettes s).
Definition set_frame (f : Z) (s : sprite) : sprite :=
  mkSprite (spr_imgtype s) (spr_width s) (spr_height s) (spr_folder s)
    (spr_stock s) (spr_stock_imgtype s) (spr_frames s) (spr_frlens s) f
    (spr_layer s) (spr_mask s) (spr_masks s) (spr_palettes s).
Definition set_layer (l : option nat) (s : sprite) : sprite :=
  mkSprite (spr_imgtype s) (spr_width s) (spr_height s) (spr_folder s)
    (spr_stock s) (spr_stock_imgtype s) (spr_frames s) (spr_frlens s)
    (spr_frame s) l (spr_mask s) (spr_masks s) (spr_palettes s).
Definition set_mask (m : mask) (s : sprite) : sprite :=
  mkSprite (spr_imgtype s) (spr_width s) (spr_height s) (spr_folder s)
    (spr_stock s) (spr_stock_imgtype s) (spr_frames s) (spr_frlens s)
    (spr_frame s) (spr_layer s) m (spr_masks s) (spr_palettes s).
Definition set_masks (ms : list mask) (s : sprite) : sprite :=
  mkSprite (spr_imgtype s) (spr_width s) (spr_height s) (spr_folder s)
    (spr_stock s) (spr_stock_imgtype s) (spr_frames s) (spr_frlens s)
    (spr_frame s) (spr_layer s) (spr_mask s) ms (spr_palettes s).
Definition set_palettes (ps : list palette) (s : sprite) : sprite :=
  mkSprite (spr_imgtype s) (spr_width s) (spr_height s) (spr_folder s)
    (spr_stock s) (spr_stock_imgtype s) (spr_frames s) (spr_frlens s)
    (spr_frame s) (spr_layer s) (spr_mask s) (spr_masks s) ps.

(** ** Lists indexed like C++ vectors *)

Fixpoint upd_nth {A} (n : nat) (x : A) (l : list A) : list A :=
  match l, n with
  | [], _ => []
  | _ :: t, O => x :: t
  | h :: t, S n' => h :: upd_nth n' x t
  end.

Fixpoint remove_nth {A} (n : nat) (l : list A) : list A :=
  match l, n with
  | [], _ => []
  | _ :: t, O => t
  | h :: t, S n' => h :: remove_nth n' t
  end.

Fixpoint insert_nth {A} (n : nat) (x : A) (l : list A) : list A :=
  match l, n with
  | _, O => x :: l
  | [], S _ => [x]
  | h :: t, S n' => h :: insert_nth n' x t
  end.

(** [0, n) as a list of ints. *)
Definition zseq (from : Z) (n : Z) : list Z :=
  map (fun k => from + Z.of_nat k) (seq 0 (Z.to_nat n)).

(** ** The undo history (raster/undo_history.cpp, not in this source tree)

    Modelled from the spec: UndoHistory, the journal (section 4.1).  A
    record captures exactly what is needed to reverse one primitive
    mutation; records of the open group are kept in forward order and
    replayed backwards by [doUndo].  Pixel snapshots ([undo_image],
    [undo_dirty]) keep the whole previous image of the stock slot. *)
Inductive undo_rec :=
| UndoSetFrames (old : Z)
| UndoSetFrame (old : Z)
| UndoSetLayer (old : option nat)
| UndoSetSize (w h : Z)
| UndoSetImgType (old : Z)
| UndoStockImgType (old : Z)
| UndoAddImage (idx : Z)
| UndoRemoveImage (idx : Z) (img : image)
| UndoReplaceImage (idx : Z) (img : image)
| UndoImage (idx : Z) (img : image)
| UndoAddLayer (folder lid : nat)
| UndoRemoveLayer (folder : nat) (pos : nat) (l : layer)
| UndoMoveLayer (folder lid : nat) (pos : nat)
| UndoLayerFlags (lid : nat) (old : bool)
| UndoAddCel (lid : nat) (pos : nat)
| UndoRemoveCel (lid : nat) (pos : nat) (c : cel)
| UndoCelFrame (lid : nat) (pos : nat) (old : Z)
| UndoCelX (lid : nat) (pos : nat) (old : Z)
| UndoCelY (lid : nat) (pos : nat) (old : Z)
| UndoFrlen (frame old : Z)
| UndoSetMask (old : mask)
| UndoMaskX (old : Z)
| UndoMaskY (old : Z)
| UndoRemovePalette (p : palette).

Record history := mkHistory {
  h_enabled : bool;
  h_open : option (list undo_rec);      (** the open group, if any *)
  h_undo : list (list undo_rec);        (** committed groups, latest first *)
  h_redo : list (list undo_rec)         (** undone groups, latest first *)
}.

(** Kinds of primitive mutation of the document. *)
Inductive mut_kind :=
| MutFrames | MutFrame | MutLayer | MutSize | MutImgType | MutStockImgType
| MutStockAdd | MutStockRemove | MutStockReplace | MutPixels
| MutLayerAdd | MutLayerRemove | MutLayerMove | MutLayerFlags
| MutCelAdd | MutCelRemove | MutCelFrame | MutCelPos
| MutFrlen | MutMask | MutMaskRepo | MutPalettes.

Inductive event :=
| EvLog (r : undo_rec)
| EvMut (k : mut_kind).

Record st := mkSt {
  s_spr : sprite;
  s_hist : history;
  s_trace : list event
}.

(** ** The state-and-failure monad *)

Definition M (A : Type) : Type := st -> option (A * st).

Definition ret {A} (a : A) : M A := fun s => Some (a, s).

Definition bind {A B} (m : M A) (k : A -> M B) : M B :=
  fun s => match m s with
           | Some (a, s') => k a s'
           | None => None
           end.

Declare Scope undo_scope.
Delimit Scope undo_scope with undo.
Notation "x <- m ;; k" := (bind m (fun x => k))
  (at level 61, m at next level, right associativity) : undo_scope.
Notation "m ;; k" := (bind m (fun _ => k))
  (at level 61, right associativity) : undo_scope.
Open Scope undo_scope.

Definition fail {A} : M A := fun _ => None.

(** [ASSERT(b)] *)
Definition assert (b : bool) : M unit := if b then ret tt else fail.

(** A pointer that must not be NULL. *)
Definition some {A} (o : option A) : M A :=
  match o with Some a => ret a | None => fail end.

Definition gets {A} (f : sprite -> A) : M A := fun s => Some (f (s_spr s), s).

Definition when (b : bool) (m : M unit) : M unit := if b then m else ret tt.

(** A primitive mutation of the sprite. *)
Definition mutate (k : mut_kind) (f : sprite -> sprite) : M unit :=
  fun s => Some (tt, mkSt (f (s_spr s)) (s_hist s) (s_trace s ++ [EvMut k])).

(** A primitive mutation of an object held by the caller (a cel list of
    a layer the caller is rebuilding): only the event is traced. *)
Definition touch (k : mut_kind) : M unit :=
  fun s => Some (tt, mkSt (s_spr s) (s_hist s) (s_trace s ++ [EvMut k])).

(** [m_undoHistory->undo_xxx(...)]: append a record to the open group;
    recording with no open group is a fatal misuse. *)
Definition record (r : undo_rec) : M unit :=
  fun s => match h_open (s_hist s) with
           | Some g =>
               let h := s_hist s in
               Some (tt, mkSt (s_spr s)
                              (mkHistory (h_enabled h) (Some (g ++ [r]))
                                         (h_undo h) (h_redo h))
                              (s_trace s ++ [EvLog r]))
           | None => None
           end.

(** [for (c = from; c < from + n; ++c) body(c)] *)
Fixpoint for_up (n : nat) (from : Z) (body : Z -> M unit) : M unit :=
  match n with
  | O => ret tt
  | S n' => body from ;; for_up n' (from + 1) body
  end.

(** The same loop threading a value the body rebuilds. *)
Fixpoint fold_up {A} (n : nat) (from : Z) (body : Z -> A -> M A) (a : A) : M A :=
  match n with
  | O => ret a
  | S n' => a' <- body from a ;; fold_up n' (from + 1) body a'
  end.

(** [for (c = from; c > from - n; --c) body(c)] *)
Fixpoint for_down (n : nat) (from : Z) (body : Z -> M unit) : M unit :=
  match n with
  | O => ret tt
  | S n' => body from ;; for_down n' (from - 1) body
  end.

(** The same loop threading a value the body rebuilds. *)
Fixpoint fold_down {A} (n : nat) (from : Z) (body : Z -> A -> M A) (a : A) : M A :=
  match n with
  | O => ret a
  | S n' => a' <- body from a ;; fold_down n' (from - 1) body a'
  end.

(** [for (x : xs) body(x)] over a list, threading a value. *)
Fixpoint fold_list {A B} (xs : list B) (body : B -> A -> M A) (a : A) : M A :=
  match xs with
  | [] => ret a
  | x :: xs' => a' <- body x a ;; fold_list xs' body a'
  end.

(** ** The layer tree

    A layer is reached from the root folder by a path of child
    positions; the path plays the part of the C++ [Layer*]. *)

Fixpoint layer_at (p : list nat) (l : layer) : option layer :=
  match p with
  | [] => Some l
  | i :: p' =>
      match l with
      | LayerFolder _ ch =>
          match nth_error ch i with Some c => layer_at p' c | None => None end
      | LayerImage _ _ _ => None
      end
  end.

Fixpoint update_at (p : list nat) (f : layer -> layer) (l : layer) : layer :=
  match p with
  | [] => f l
  | i :: p' =>
      match l with
      | LayerFolder id ch =>
          match nth_error ch i with
          | Some c => LayerFolder id (upd_nth i (update_at p' f c) ch)
          | None => l
          end
      | LayerImage _ _ _ => l
      end
  end.

(** Search among the children [ch] (the first at position [i]). *)
Fixpoint find_child (f : layer -> option (list nat)) (i : nat) (ch : list layer)
  : option (list nat) :=
  match ch with
  | [] => None
  | c :: cs =>
      match f c with
      | Some p => Some (i :: p)
      | None => find_child f (S i) cs
      end
  end.

(** Depth-first search of the layer with identity [id]. *)
Fixpoint find_path (id : nat) (l : layer) : option (list nat) :=
  if Nat.eqb (layer_id l) id then Some [] else
  match l with
  | LayerImage _ _ _ => None
  | LayerFolder _ ch => find_child (find_path id) O ch
  end.

Fixpoint split_last (p : list nat) : option (list nat * nat) :=
  match p with
  | [] => None
  | [i] => Some ([], i)
  | i :: p' =>
      match split_last p' with
      | Some (q, j) => Some (i :: q, j)
      | None => None
      end
  end.

Fixpoint index_of (id : nat) (ch : list layer) : option nat :=
  match ch with
  | [] => None
  | c :: cs =>
      if Nat.eqb (layer_id c) id then Some O
      else match index_of id cs with Some n => Some (S n) | None => None end
  end.

Definition children (l : layer) : list layer :=
  match l with LayerFolder _ ch => ch | LayerImage _ _ _ => [] end.

Definition with_children (f : list layer -> list layer) (l : layer) : layer :=
  match l with LayerFolder id ch => LayerFolder id (f ch) | LayerImage _ _ _ => l end.

(** [LayerFolder::add_layer]: the new layer goes on top (end of the list). *)
Definition folder_add_layer (x : layer) : layer -> layer :=
  with_children (fun ch => ch ++ [x]).

(** [LayerFolder::remove_layer] *)
Definition folder_remove_layer (id : nat) : layer -> layer :=
  with_children (fun ch => match index_of id ch with
                           | Some i => remove_nth i ch
                           | None => ch
                           end).

(** Move child [id] of a folder to position [pos]. *)
Definition folder_move_layer (id : nat) (pos : nat) : layer -> layer :=
  with_children (fun ch => match index_of id ch with
                           | Some i =>
                               match nth_error ch i with
                               | Some x => insert_nth pos x (remove_nth i ch)
                               | None => ch
                               end
                           | None => ch
                           end).

Definition layer_cels (l : layer) : list cel :=
  match l with LayerImage _ _ cs => cs | LayerFolder _ _ => [] end.

Definition with_cels (cs : list cel) (l : layer) : layer :=
  match l with LayerImage id bg _ => LayerImage id bg cs | LayerFolder _ _ => l end.

Fixpoint layer_ids (l : layer) : list nat :=
  match l with
  | LayerImage id _ _ => [id]
  | LayerFolder id ch => id :: flat_map layer_ids ch
  end.

(** Identity of a [new LayerImage]: an object not yet in the tree. *)
Definition fresh_id (s : sprite) : nat := S (list_max (layer_ids (spr_folder s))).

(** [LayerImage::getCel(frame)]: the first cel of the layer at [frame]. *)
Fixpoint getCel (cels : list cel) (frame : Z) : option nat :=
  match cels with
  | [] => None
  | c :: cs =>
      if cel_frame c =? frame then Some O
      else match getCel cs frame with Some n => Some (S n) | None => None end
  end.

Definition set_cel_frame (f : Z) (c : cel) : cel :=
  mkCel f (cel_x c) (cel_y c) (cel_opacity c) (cel_image c).
Definition set_cel_x (x : Z) (c : cel) : cel :=
  mkCel (cel_frame c) x (cel_y c) (cel_opacity c) (cel_image c).
Definition set_cel_y (y : Z) (c : cel) : cel :=
  mkCel (cel_frame c) (cel_x c) y (cel_opacity c) (cel_image c).
Definition set_cel_opacity (o : Z) (c : cel) : cel :=
  mkCel (cel_frame c) (cel_x c) (cel_y c) o (cel_image c).

(** ** The stock (raster/stock.cpp, not in this source tree)

    Modelled from the spec: Stock, an indexed pool of images.  [addImage]
    appends a slot and returns its index; removing an image frees its slot
    without renumbering the others. *)
Definition stock_get (k : list (option image)) (i : Z) : option image :=
  if i <? 0 then None
  else match nth_error k (Z.to_nat i) with Some o => o | None => None end.

Definition stock_set (i : Z) (o : option image) (k : list (option image))
  : list (option image) := upd_nth (Z.to_nat i) o k.

(** The cels of every image layer of a tree. *)
Fixpoint all_cels (l : layer) : list cel :=
  match l with
  | LayerImage _ _ cs => cs
  | LayerFolder _ ch => flat_map all_cels ch
  end.

(** The tree with the cel list of every image layer rewritten by [g]. *)
Fixpoint map_image_cels (g : list cel -> list cel) (l : layer) : layer :=
  match l with
  | LayerImage id bg cs => LayerImage id bg (g cs)
  | LayerFolder id ch => LayerFolder id (map (map_image_cels g) ch)
  end.

(** Stock referential integrity: every cel of the tree indexes a live
    stock slot. *)
Definition stock_refs_live (s : sprite) : bool :=
  forallb (fun c => match stock_get (spr_stock s) (cel_image c) with
                    | Some _ => true
                    | None => false
                    end) (all_cels (spr_folder s)).

(** ** The pixel-surface and rendering collaborators

    Consumed at their interface only (spec, section 6). *)
Class PixelSurface := {
  image_new : Z -> Z -> Z -> image;
  image_clear : image -> Z -> image;
  image_crop : image -> Z -> Z -> Z -> Z -> Z -> image;
  (** [image_copy(dst, src, x, y)] *)
  image_copy : image -> image -> Z -> Z -> image;
  image_getpixel : image -> Z -> Z -> Z;
  image_shrink_rect : image -> Z -> option (Z * Z * Z * Z);
  convert_imgtype : image -> Z -> Z -> list palette -> Z -> bool -> image;
  (** [Sprite::render]: the current frame of the sprite over an image *)
  sprite_render : sprite -> image -> image;
  (** [layer_render(layer, image, 0, 0, frame)] *)
  layer_render : sprite -> layer -> Z -> image -> image;
  (** [Palette::createGrayscale()] *)
  palette_grayscale : palette
}.

(** The operations of the pixel surface used by the masked clear and the
    paste (spec, section 6), at their interface only. *)
Class PixelEdit := {
  (** [image_putpixel(image, x, y, color)] *)
  image_putpixel : image -> Z -> Z -> Z -> image;
  (** [image_merge(dst, src, x, y, opacity, blend_mode)] *)
  image_merge : image -> image -> Z -> Z -> Z -> Z -> image
}.

Definition BLEND_MODE_NORMAL : Z := 0.

(** ** Sprite queries and updates (raster/sprite.cpp, not in this source tree)

    Modelled from the spec: Sprite (section 3). *)

(** [Sprite::getBackgroundLayer]: the image layer of the root folder
    marked background, with its position. *)
Definition getBackgroundLayer (s : sprite) : option (nat * nat) :=
  (fix go (i : nat) (ch : list layer) : option (nat * nat) :=
     match ch with
     | [] => None
     | LayerImage id true _ :: _ => Some (i, id)
     | _ :: cs => go (S i) cs
     end) O (children (spr_folder s)).

(** [Sprite::getFrameDuration] *)
Definition getFrameDuration (s : sprite) (frame : Z) : Z :=
  if (0 <=? frame) && (frame <? spr_frames s)
  then nth (Z.to_nat frame) (spr_frlens s) 0 else 0.

(** [Sprite::setFrameDuration] *)
Definition setFrameDuration_spr (frame msecs : Z) (s : sprite) : sprite :=
  if (0 <=? frame) && (frame <? spr_frames s)
  then set_frlens (upd_nth (Z.to_nat frame) msecs (spr_frlens s)) s else s.

(** Modelled from the spec: [Sprite::setDurationForAllFrames], every
    frame gets [msecs]. *)
Definition setDurationForAllFrames (msecs : Z) (s : sprite) : sprite :=
  set_frlens (map (fun _ => msecs) (spr_frlens s)) s.

(** [Sprite::setPalette(pal)]: replaces the palette of the same frame,
    or inserts it in frame order. *)
Fixpoint put_palette (p : palette) (ps : list palette) : list palette :=
  match ps with
  | [] => [p]
  | q :: qs =>
      if pal_frame q =? pal_frame p then p :: qs
      else if pal_frame p <? pal_frame q then p :: ps
      else q :: put_palette p qs
  end.

(** [LayerImage::configureAsBackground]: background flag set, layer moved
    to the bottom of its folder. *)
Definition configure_as_background (id : nat) (folder : layer) : layer :=
  folder_move_layer id 0
    (with_children (map (fun c => match c with
                                  | LayerImage i _ cs =>
                                      if Nat.eqb i id then LayerImage i true cs else c
                                  | LayerFolder _ _ => c
                                  end)) folder).

(** [mask_none] *)
Definition mask_none (m : mask) : mask := mkMask (mask_name m) 0 0 0 0 None.

(** Modelled from the spec: [mask_copy(dst, src)], the bounds and the bitmap of [src]; [dst]
    keeps its name. *)
Definition mask_copy (dst src : mask) : mask :=
  mkMask (mask_name dst) (mask_x src) (mask_y src) (mask_w src) (mask_h src) (mask_bitmap src).

(** Modelled from the spec: [LayerFolder::move_layer(layer, after)],
    a position change within the same parent.  The layer leaves its place
    among the children and goes right after [after], or at the bottom
    (front of the list) when [after] is NULL; a layer that is not a child
    is a fatal misuse. *)
Definition move_layer (id : nat) (after : option nat) (ch : list layer) : option (list layer) :=
  match index_of id ch with
  | None => None
  | Some i =>
      match nth_error ch i with
      | None => None
      | Some x =>
          let ch := remove_nth i ch in
          match after with
          | None => Some (x :: ch)
          | Some a => match index_of a ch with
                      | Some j => Some (insert_nth (S j) x ch)
                      | None => None
                      end
          end
      end
  end.

(** [Sprite::requestMask(name)]: position of the first mask so named. *)
Fixpoint find_mask (name : String.string) (ms : list mask) : option nat :=
  match ms with
  | [] => None
  | m :: ms' =>
      if String.eqb (mask_name m) name then Some O
      else match find_mask name ms' with Some n => Some (S n) | None => None end
  end.

(** [LayerImage::addCel]: cels are kept ordered by frame. *)
Fixpoint cel_insert_pos (cels : list cel) (frame : Z) : nat :=
  match cels with
  | [] => O
  | c :: cs => if frame <? cel_frame c then O else S (cel_insert_pos cs frame)
  end.

(** [cel_new(frame, image)] *)
Definition cel_new (frame image_index : Z) : cel := mkCel frame 0 0 255 image_index.

(** [layer == m_sprite->getCurrentLayer()] *)
Definition is_layer (cur : option nat) (layer : nat) : bool :=
  match cur with Some l => Nat.eqb l layer | None => false end.

Definition get_sprite : M sprite := gets (fun s => s).

(** A change of the sprite whose primitive mutations were already traced
    one by one (a layer tree rebuilt by a traversal). *)
Definition put_sprite (f : sprite -> sprite) : M unit :=
  fun s => Some (tt, mkSt (f (s_spr s)) (s_hist s) (s_trace s)).

(** Recursion over the layer tree ([switch (layer->getType())]): an image
    layer runs [step] on its cels, a folder recurses into its children in
    order. *)
Fixpoint mapM_layers (t : layer -> M layer) (ch : list layer) : M (list layer) :=
  match ch with
  | [] => ret []
  | c :: cs => c' <- t c ;; cs' <- mapM_layers t cs ;; ret (c' :: cs')
  end.

Fixpoint traverse (step : nat -> list cel -> M (list cel)) (l : layer) : M layer :=
  match l with
  | LayerImage id bg cs => cs' <- step id cs ;; ret (LayerImage id bg cs')
  | LayerFolder id ch => ch' <- mapM_layers (traverse step) ch ;; ret (LayerFolder id ch')
  end.

(** ** UndoTransaction *)

Section Transaction.
Context `{PixelSurface}.

(** [m_enabledFlag], read once by the constructor. *)
Variable en : bool.

Definition isEnabled : bool := en.

Definition setNumberOfFrames (frames : Z) : M unit :=
  assert (1 <=? frames) ;;
  s <- get_sprite ;;
  when isEnabled (record (UndoSetFrames (spr_frames s))) ;;
  mutate MutFrames (set_frames frames).

Definition setCurrentFrame (frame : Z) : M unit :=
  assert (0 <=? frame) ;;
  s <- get_sprite ;;
  when isEnabled (record (UndoSetFrame (spr_frame s))) ;;
  mutate MutFrame (set_frame frame).

Definition setCurrentLayer (layer : option nat) : M unit :=
  s <- get_sprite ;;
  when isEnabled (record (UndoSetLayer (spr_layer s))) ;;
  mutate MutLayer (set_layer layer).

Definition setSpriteSize (w h : Z) : M unit :=
  assert (0 <? w) ;;
  assert (0 <? h) ;;
  s <- get_sprite ;;
  when isEnabled (record (UndoSetSize (spr_width s) (spr_height s))) ;;
  mutate MutSize (set_size w h).

Definition addImageInStock (image : image) : M Z :=
  s <- get_sprite ;;
  (* add the image in the stock *)
  let image_index := Z.of_nat (List.length (spr_stock s)) in
  mutate MutStockAdd (fun s => set_stock (app (spr_stock s) [Some image]) s) ;;
  when isEnabled (record (UndoAddImage image_index)) ;;
  ret image_index.

Definition removeImageFromStock (image_index : Z) : M unit :=
  assert (0 <=? image_index) ;;
  s <- get_sprite ;;
  image <- some (stock_get (spr_stock s) image_index) ;;
  when isEnabled (record (UndoRemoveImage image_index image)) ;;
  (* Stock::removeImage(image); image_free(image) *)
  mutate MutStockRemove (fun s => set_stock (stock_set image_index None (spr_stock s)) s).

Definition replaceStockImage (image_index : Z) (new_image : image) : M unit :=
  s <- get_sprite ;;
  old_image <- some (stock_get (spr_stock s) image_index) ;;
  when isEnabled (record (UndoReplaceImage image_index old_image)) ;;
  mutate MutStockReplace
    (fun s => set_stock (stock_set image_index (Some new_image) (spr_stock s)) s).

(** Returns the identity of the new layer. *)
Definition newLayer : M nat :=
  s <- get_sprite ;;
  let layer := LayerImage (fresh_id s) false [] in
  when isEnabled (record (UndoAddLayer (layer_id (spr_folder s)) (layer_id layer))) ;;
  mutate MutLayerAdd (fun s => set_folder (folder_add_layer layer (spr_folder s)) s) ;;
  setCurrentLayer (Some (layer_id layer)) ;;
  ret (layer_id layer).

(** [layer] is the identity of the layer to remove; its parent folder is
    reached by the path of the layer without its last step, and its
    siblings [get_prev]/[get_next] are the neighbours in the parent. *)
Definition removeLayer (layer : nat) : M unit :=
  s <- get_sprite ;;
  path <- some (find_path layer (spr_folder s)) ;;
  pp <- some (split_last path) ;;
  let (parent_path, pos) := pp in
  parent <- some (layer_at parent_path (spr_folder s)) ;;
  l <- some (layer_at path (spr_folder s)) ;;
  let ch := children parent in
  let prev := match pos with O => None | S p => nth_error ch p end in
  let next := nth_error ch (S pos) in
  (if is_layer (spr_layer s) layer then
     let layer_select :=
       match prev with
       | Some x => Some (layer_id x)
       | None =>
           match next with
           | Some x => Some (layer_id x)
           | None => match parent_path with
                     | [] => None
                     | _ => Some (layer_id parent)
                     end
           end
       end in
     setCurrentLayer layer_select
   else ret tt) ;;
  when isEnabled (record (UndoRemoveLayer (layer_id parent) pos l)) ;;
  (* parent->remove_layer(layer); delete layer *)
  mutate MutLayerRemove
    (fun s => set_folder (update_at parent_path (with_children (remove_nth pos))
                                    (spr_folder s)) s).

(** *** Cels of an image layer

    These take the identity [lid] of the layer and its cel list, and
    return the updated list; a cel is designated by its position. *)

Definition setCelFramePosition (lid : nat) (cels : list cel) (pos : nat) (frame : Z)
  : M (list cel) :=
  c <- some (nth_error cels pos) ;;
  assert (0 <=? frame) ;;
  when isEnabled (record (UndoCelFrame lid pos (cel_frame c))) ;;
  touch MutCelFrame ;;
  ret (upd_nth pos (set_cel_frame frame c) cels).

Definition setCelPosition (lid : nat) (cels : list cel) (pos : nat) (x y : Z)
  : M (list cel) :=
  c <- some (nth_error cels pos) ;;
  when isEnabled (record (UndoCelX lid pos (cel_x c)) ;;
                  record (UndoCelY lid pos (cel_y c))) ;;
  touch MutCelPos ;;
  ret (upd_nth pos (set_cel_y y (set_cel_x x c)) cels).

Definition addCel (lid : nat) (cels : list cel) (c : cel) : M (list cel) :=
  let pos := cel_insert_pos cels (cel_frame c) in
  when isEnabled (record (UndoAddCel lid pos)) ;;
  touch MutCelAdd ;;
  ret (insert_nth pos c cels).

(** [getCel] returning the position of the cel and the cel. *)
Definition getCelAt (cels : list cel) (frame : Z) : option (nat * cel) :=
  match getCel cels frame with
  | Some p => match nth_error cels p with Some c => Some (p, c) | None => None end
  | None => None
  end.

Definition removeCel (lid : nat) (cels : list cel) (pos : nat) : M (list cel) :=
  c <- some (nth_error cels pos) ;;
  total <- gets spr_frames ;;
  (* find if the image that use the cel to remove, is used by another cels *)
  let used := existsb (fun frame => match getCelAt cels frame with
                                    | Some (p, it) => negb (Nat.eqb p pos)
                                                      && (cel_image it =? cel_image c)
                                    | None => false
                                    end) (zseq 0 total) in
  (if used then ret tt else removeImageFromStock (cel_image c)) ;;
  when isEnabled (record (UndoRemoveCel lid pos c)) ;;
  touch MutCelRemove ;;
  ret (remove_nth pos cels).

(** *** Frames *)

(** The image-layer case of [removeFrameOfLayer]; [m_sprite->getTotalFrames()]
    does not change during the loop. *)
Definition removeFrameOfImage (frame : Z) (lid : nat) (cels : list cel) : M (list cel) :=
  cels <- match getCelAt cels frame with
          | Some (p, _) => removeCel lid cels p
          | None => ret cels
          end ;;
  total <- gets spr_frames ;;
  fold_up (Z.to_nat (total - (frame + 1))) (frame + 1)
    (fun fr cels => match getCelAt cels fr with
                    | Some (p, c) => setCelFramePosition lid cels p (cel_frame c - 1)
                    | None => ret cels
                    end) cels.

Definition removeFrameOfLayer (layer : layer) (frame : Z) : M Layer :=
  traverse (removeFrameOfImage frame) layer.

Definition removeFrame (frame : Z) : M unit :=
  assert (0 <=? frame) ;;
  root <- gets spr_folder ;;
  root <- removeFrameOfLayer root frame ;;
  put_sprite (set_folder root) ;;
  s <- get_sprite ;;
  let newTotalFrames := spr_frames s - 1 in
  (if newTotalFrames <=? spr_frame s
   then setCurrentFrame (newTotalFrames - 1) else ret tt) ;;
  setNumberOfFrames newTotalFrames.

Definition setFrameDuration (frame msecs : Z) : M unit :=
  s <- get_sprite ;;
  when isEnabled (record (UndoFrlen frame (getFrameDuration s frame))) ;;
  mutate MutFrlen (setFrameDuration_spr frame msecs).

(** The image-layer case of [moveFrameBeforeLayer]: every cel, in list
    order, gets its new frame. *)
Definition moveFrameBeforeImage (frame before_frame : Z) (lid : nat) (cels : list cel)
  : M (list cel) :=
  fold_list (seq 0 (List.length cels))
    (fun pos cels =>
       c <- some (nth_error cels pos) ;;
       let new_frame :=
         if frame <? before_frame then
           (* moving the frame to the future *)
           if cel_frame c =? frame then before_frame - 1
           else if (frame <? cel_frame c) && (cel_frame c <? before_frame)
                then cel_frame c - 1 else cel_frame c
         else if before_frame <? frame then
           (* moving the frame to the past *)
           if cel_frame c =? frame then before_frame
           else if (before_frame <=? cel_frame c) && (cel_frame c <? frame)
                then cel_frame c + 1 else cel_frame c
         else cel_frame c in
       if negb (cel_frame c =? new_frame)
       then setCelFramePosition lid cels pos new_frame
       else ret cels) cels.

Definition moveFrameBeforeLayer (layer : layer) (frame before_frame : Z) : M Layer :=
  traverse (moveFrameBeforeImage frame before_frame) layer.

Definition moveFrameBefore (frame before_frame : Z) : M unit :=
  s <- get_sprite ;;
  if negb (frame =? before_frame) && (0 <=? frame) && (frame <? spr_frames s)
     && (0 <=? before_frame) && (before_frame <? spr_frames s) then
    (* change the frame-lengths... *)
    let frlen_aux := getFrameDuration s frame in
    (if frame <? before_frame then
       (* moving the frame to the future *)
       for_up (Z.to_nat (before_frame - 1 - frame)) frame
         (fun c => s <- get_sprite ;; setFrameDuration c (getFrameDuration s (c + 1))) ;;
       setFrameDuration (before_frame - 1) frlen_aux
     else if before_frame <? frame then
       (* moving the frame to the past *)
       for_down (Z.to_nat (frame - before_frame)) frame
         (fun c => s <- get_sprite ;; setFrameDuration c (getFrameDuration s (c - 1))) ;;
       setFrameDuration before_frame frlen_aux
     else ret tt) ;;
    (* change the cels of position... *)
    root <- gets spr_folder ;;
    root <- moveFrameBeforeLayer root frame before_frame ;;
    put_sprite (set_folder root)
  else ret tt.

(** *** Mask *)

Definition setMaskPosition (x y : Z) : M unit :=
  s <- get_sprite ;;
  when isEnabled (record (UndoMaskX (mask_x (spr_mask s))) ;;
                  record (UndoMaskY (mask_y (spr_mask s)))) ;;
  mutate MutMask (fun s => let m := spr_mask s in
                           set_mask (mkMask (mask_name m) x y (mask_w m) (mask_h m)
                                            (mask_bitmap m)) s).

Definition deselected : String.string := "*deselected*"%string.

Definition deselectMask : M unit :=
  (* Destroy the *deselected* mask *)
  s <- get_sprite ;;
  (match find_mask deselected (spr_masks s) with
   | Some i => mutate MutMaskRepo (fun s => set_masks (remove_nth i (spr_masks s)) s)
   | None => ret tt
   end) ;;
  (* Save the selection in the repository *)
  s <- get_sprite ;;
  let m := spr_mask s in
  let copy := mkMask deselected (mask_x m) (mask_y m) (mask_w m) (mask_h m) (mask_bitmap m) in
  mutate MutMaskRepo (fun s => set_masks (app (spr_masks s) [copy]) s) ;;
  s <- get_sprite ;;
  when isEnabled (record (UndoSetMask (spr_mask s))) ;;
  (* Deselect the mask *)
  mutate MutMask (fun s => set_mask (mask_none (spr_mask s)) s).

(** *** Crop *)

(** The image-layer case of [displaceLayers]. *)
Definition displaceImage (dx dy : Z) (lid : nat) (cels : list cel) : M (list cel) :=
  fold_list (seq 0 (List.length cels))
    (fun pos cels =>
       c <- some (nth_error cels pos) ;;
       setCelPosition lid cels pos (cel_x c + dx) (cel_y c + dy)) cels.

Definition displaceLayers (layer : layer) (dx dy : Z) : M Layer :=
  traverse (displaceImage dx dy) layer.

Definition cropCel (lid : nat) (cels : list cel) (pos : nat) (x y w h bgcolor : Z)
  : M (list cel) :=
  c <- some (nth_error cels pos) ;;
  s <- get_sprite ;;
  cel_img <- some (stock_get (spr_stock s) (cel_image c)) ;;
  (* create the new image through a crop *)
  let new_image := image_crop cel_img (x - cel_x c) (y - cel_y c) w h bgcolor in
  (* replace the image in the stock that is pointed by the cel *)
  replaceStockImage (cel_image c) new_image ;;
  (* update the cel's position *)
  setCelPosition lid cels pos x y.

Definition cropLayer (layer : layer) (x y w h bgcolor : Z) : M Layer :=
  match layer with
  | LayerFolder _ _ => ret layer
  | LayerImage lid bg cels =>
      let bgcolor := if bg then bgcolor else 0 in
      cels <- fold_list (seq 0 (List.length cels))
                (fun pos cels => cropCel lid cels pos x y w h bgcolor) cels ;;
      ret (LayerImage lid bg cels)
  end.

Definition cropSprite (x y w h bgcolor : Z) : M unit :=
  setSpriteSize w h ;;
  root <- gets spr_folder ;;
  root <- displaceLayers root (-x) (-y) ;;
  put_sprite (set_folder root) ;;
  s <- get_sprite ;;
  (match getBackgroundLayer s with
   | Some (pos, _) =>
       background_layer <- some (nth_error (children (spr_folder s)) pos) ;;
       l <- cropLayer background_layer 0 0 (spr_width s) (spr_height s) bgcolor ;;
       put_sprite (fun s => set_folder (update_at [pos] (fun _ => l) (spr_folder s)) s)
   | None => ret tt
   end) ;;
  s <- get_sprite ;;
  if negb (mask_is_empty (spr_mask s))
  then setMaskPosition (mask_x (spr_mask s) - x) (mask_y (spr_mask s) - y)
  else ret tt.

Definition INT_MAX : Z := 2147483647.
Definition INT_MIN : Z := -2147483648.

(** The per-frame scan of [autocropSprite]: the union of the bounding
    boxes (x1, y1, x2, y2) of the rendered frames. *)
Definition autocrop_scan (image : image) : M (Z * Z * Z * Z) :=
  total <- gets spr_frames ;;
  fold_up (Z.to_nat total) 0
    (fun frame box =>
       let '(x1, y1, x2, y2) := box in
       (* m_sprite->setCurrentFrame(frame), outside the journal *)
       mutate MutFrame (set_frame frame) ;;
       s <- get_sprite ;;
       let image := sprite_render s (image_clear image 0) in
       match image_shrink_rect image (image_getpixel image 0 0) with
       | Some (u1, v1, u2, v2) =>
           ret (Z.min x1 u1, Z.min y1 v1, Z.max x2 u2, Z.max y2 v2)
       | None => ret box
       end) (INT_MAX, INT_MAX, INT_MIN, INT_MIN).

Definition autocropSprite (bgcolor : Z) : M unit :=
  s <- get_sprite ;;
  let old_frame := spr_frame s in
  let image := image_new (spr_imgtype s) (spr_width s) (spr_height s) in
  box <- autocrop_scan image ;;
  let '(x1, y1, x2, y2) := box in
  mutate MutFrame (set_frame old_frame) ;;
  (* do nothing *)
  if (x2 <? x1) || (y2 <? y1) then ret tt
  else cropSprite x1 y1 (x2 - x1 + 1) (y2 - y1 + 1) bgcolor.

(** *** Image type *)

Definition setImgType (new_imgtype dithering_method : Z) : M unit :=
  s <- get_sprite ;;
  if spr_imgtype s =? new_imgtype then ret tt else
  (* change imgtype of the stock of images *)
  when isEnabled (record (UndoStockImgType (spr_stock_imgtype s))) ;;
  mutate MutStockImgType (set_stock_imgtype new_imgtype) ;;
  n <- gets (fun s => List.length (spr_stock s)) ;;
  for_up n 0
    (fun c =>
       s <- get_sprite ;;
       match stock_get (spr_stock s) c with
       | None => ret tt
       | Some old_image =>
           let new_image :=
             convert_imgtype old_image new_imgtype dithering_method
               (spr_palettes s) (spr_frame s)
               (match getBackgroundLayer s with Some _ => true | None => false end) in
           replaceStockImage c new_image
       end) ;;
  (* Change sprite's "imgtype" field. *)
  s <- get_sprite ;;
  when isEnabled (record (UndoSetImgType (spr_imgtype s))) ;;
  mutate MutImgType (set_imgtype new_imgtype) ;;
  (* m_document->destroyExtraCel(): the extra cel is not part of the sprite *)
  if new_imgtype =? IMAGE_GRAYSCALE then
    s <- get_sprite ;;
    when isEnabled
      (fold_list (spr_palettes s)
         (fun palette _ => record (UndoRemovePalette palette)) tt) ;;
    mutate MutPalettes (set_palettes []) ;;
    mutate MutPalettes (fun s => set_palettes (put_palette palette_grayscale (spr_palettes s)) s)
  else ret tt.

(** *** Flatten *)

Definition flattenLayers (bgcolor : Z) : M unit :=
  s <- get_sprite ;;
  (* create a temporary image *)
  let image := image_new (spr_imgtype s) (spr_width s) (spr_height s) in
  let root := layer_id (spr_folder s) in
  (* get the background layer from the sprite *)
  background <-
    match getBackgroundLayer s with
    | Some (_, id) => ret id
    | None =>
        (* if there aren't a background layer we must to create the background *)
        let background := fresh_id s in
        when isEnabled (record (UndoAddLayer root background)) ;;
        mutate MutLayerAdd (fun s => set_folder (folder_add_layer
                                       (LayerImage background false []) (spr_folder s)) s) ;;
        s <- get_sprite ;;
        when isEnabled
          (record (UndoMoveLayer root background
                     (match index_of background (children (spr_folder s)) with
                      | Some i => i | None => O end))) ;;
        mutate MutLayerFlags
          (fun s => set_folder (configure_as_background background (spr_folder s)) s) ;;
        ret background
    end ;;
  (* copy all frames to the background *)
  total <- gets spr_frames ;;
  for_up (Z.to_nat total) 0
    (fun frame =>
       s <- get_sprite ;;
       (* clear the image and render this frame *)
       let image := layer_render s (spr_folder s) frame (image_clear image bgcolor) in
       path <- some (find_path background (spr_folder s)) ;;
       bl <- some (layer_at path (spr_folder s)) ;;
       match getCelAt (layer_cels bl) frame with
       | Some (_, cel) =>
           cel_img <- some (stock_get (spr_stock s) (cel_image cel)) ;;
           (* we have to save the current state of `cel_image' in the undo *)
           when isEnabled (record (UndoImage (cel_image cel) cel_img)) ;;
           mutate MutPixels
             (fun s => set_stock (stock_set (cel_image cel)
                                    (Some (image_copy cel_img image 0 0)) (spr_stock s)) s)
       | None =>
           (* a copy of the image for the new cel, added to the stock *)
           let index := Z.of_nat (List.length (spr_stock s)) in
           mutate MutStockAdd (fun s => set_stock (app (spr_stock s) [Some image]) s) ;;
           (* and finally we add the cel in the background *)
           let cel := cel_new frame index in
           mutate MutCelAdd
             (fun s => set_folder
                         (update_at path
                            (fun l => with_cels (insert_nth (cel_insert_pos (layer_cels l) frame)
                                                            cel (layer_cels l)) l)
                            (spr_folder s)) s) ;;
           mutate MutPixels
             (fun s => set_stock (stock_set index (Some (image_copy image image 0 0))
                                    (spr_stock s)) s)
       end) ;;
  (* select the background *)
  s <- get_sprite ;;
  (if negb (is_layer (spr_layer s) background) then
     when isEnabled (record (UndoSetLayer (spr_layer s))) ;;
     mutate MutLayer (set_layer (Some background))
   else ret tt) ;;
  (* remove old layers *)
  s <- get_sprite ;;
  fold_list (children (spr_folder s))
    (fun old_layer _ =>
       if negb (Nat.eqb (layer_id old_layer) background) then
         s <- get_sprite ;;
         let pos := match index_of (layer_id old_layer) (children (spr_folder s)) with
                    | Some i => i | None => O end in
         when isEnabled (record (UndoRemoveLayer root pos old_layer)) ;;
         mutate MutLayerRemove
           (fun s => set_folder (folder_remove_layer (layer_id old_layer) (spr_folder s)) s)
       else ret tt) tt.

(** *** New frames *)

(** [copyPreviousFrame(layer, frame)] on the cels of an image layer. *)
Definition copyPreviousFrame (lid : nat) (cels : list cel) (frame : Z) : M (list cel) :=
  assert (0 <? frame) ;;
  (* create a copy of the previous cel *)
  s <- get_sprite ;;
  match getCelAt cels (frame - 1) with
  | None => ret cels
  | Some (_, src_cel) =>
      match stock_get (spr_stock s) (cel_image src_cel) with
      | None =>
          (* nothing to copy, it will be a transparent cel *)
          ret cels
      | Some src_image =>
          (* copy the image *)
          image_index <- addImageInStock src_image ;;
          (* create the new cel, with the data of the previous cel *)
          let dst_cel := set_cel_opacity (cel_opacity src_cel)
                           (set_cel_y (cel_y src_cel)
                              (set_cel_x (cel_x src_cel) (cel_new frame image_index))) in
          (* add the cel in the layer *)
          addCel lid cels dst_cel
      end
  end.

(** The image-layer case of [newFrameForLayer]; [m_sprite->getTotalFrames()]
    does not change during the loop. *)
Definition newFrameOfImage (frame : Z) (lid : nat) (cels : list cel) : M (list cel) :=
  total <- gets spr_frames ;;
  (* displace all cels in '>=frame' to the next frame *)
  cels <- fold_down (Z.to_nat (total - frame)) (total - 1)
            (fun c cels => match getCelAt cels c with
                           | Some (p, cel) => setCelFramePosition lid cels p (cel_frame cel + 1)
                           | None => ret cels
                           end) cels ;;
  copyPreviousFrame lid cels frame.

Definition newFrameForLayer (layer : layer) (frame : Z) : M Layer :=
  assert (0 <=? frame) ;;
  traverse (newFrameOfImage frame) layer.

Definition newFrame : M unit :=
  (* add a new cel to every layer *)
  s <- get_sprite ;;
  root <- newFrameForLayer (spr_folder s) (spr_frame s + 1) ;;
  put_sprite (set_folder root) ;;
  (* increment frames counter in the sprite *)
  total <- gets spr_frames ;;
  setNumberOfFrames (total + 1) ;;
  (* go to next frame (the new one) *)
  cur <- gets spr_frame ;;
  setCurrentFrame (cur + 1).

Definition setConstantFrameRate (msecs : Z) : M unit :=
  s <- get_sprite ;;
  when isEnabled
    (for_up (Z.to_nat (spr_frames s)) 0
       (fun fr => s <- get_sprite ;; record (UndoFrlen fr (getFrameDuration s fr)))) ;;
  mutate MutFrlen (setDurationForAllFrames msecs).

(** *** Layers *)

(** [moveLayerAfter(layer, after_this)]: [layer] and [after_this] are
    identities of layers; the parent is reached as in [removeLayer]. *)
Definition moveLayerAfter (layer : nat) (after_this : option nat) : M unit :=
  s <- get_sprite ;;
  path <- some (find_path layer (spr_folder s)) ;;
  pp <- some (split_last path) ;;
  let (parent_path, pos) := pp in
  parent <- some (layer_at parent_path (spr_folder s)) ;;
  when isEnabled (record (UndoMoveLayer (layer_id parent) layer pos)) ;;
  (* layer->get_parent()->move_layer(layer, after_this) *)
  ch <- some (move_layer layer after_this (children parent)) ;;
  mutate MutLayerMove
    (fun s => set_folder (update_at parent_path (with_children (fun _ => ch))
                                    (spr_folder s)) s).

(** *** Current cel, masked clear and paste *)

(** [m_sprite->getCurrentLayer()] when it is an image layer: its path,
    its identity, its background flag and its cels. *)
Definition current_image_layer (s : sprite) : option (list nat * nat * bool * list cel) :=
  match spr_layer s with
  | Some id =>
      match find_path id (spr_folder s) with
      | Some path =>
          match layer_at path (spr_folder s) with
          | Some (LayerImage lid bg cels) => Some (path, lid, bg, cels)
          | _ => None
          end
      | None => None
      end
  | None => None
  end.

(** [getCurrentCel]: the cel of the current image layer at the current
    frame, with its layer (path, identity, background flag, cels) and its
    position in the cels. *)
Definition getCurrentCel (s : sprite) : option (list nat * nat * bool * list cel * nat * cel) :=
  match current_image_layer s with
  | Some (path, lid, bg, cels) =>
      match getCelAt cels (spr_frame s) with
      | Some (pos, cel) => Some (path, lid, bg, cels, pos, cel)
      | None => None
      end
  | None => None
  end.

Definition getCelImage (s : sprite) (cel : cel) : option image :=
  if (0 <=? cel_image cel) && (cel_image cel <? Z.of_nat (List.length (spr_stock s)))
  then stock_get (spr_stock s) (cel_image cel)
  else None.

(** Bit [(u, v)] of a mask bitmap. *)
Definition mask_bit (bitmap : list (list bool)) (u v : Z) : bool :=
  nth (Z.to_nat u) (nth (Z.to_nat v) bitmap []) false.

Context `{PixelEdit}.

(** The loop of [clearMask] over the mask: each pixel whose bit is set is
    put, at its place in the cel image, to [bgcolor]. *)
Definition clear_masked_pixels (image : Image) (m : mask) (bitmap : list (list bool))
  (offset_x offset_y bgcolor : Z) : Image :=
  fold_left (fun image v =>
    fold_left (fun image u =>
      if mask_bit bitmap u v
      then image_putpixel image (u + offset_x) (v + offset_y) bgcolor
      else image) (zseq 0 (mask_w m)) image) (zseq 0 (mask_h m)) image.

Definition clearMask (bgcolor : Z) : M unit :=
  s <- get_sprite ;;
  match getCurrentCel s with
  | None => ret tt
  | Some (path, lid, bg, cels, pos, cel) =>
  match getCelImage s cel with
  | None => ret tt
  | Some image =>
  let m := spr_mask s in
  match mask_bitmap m with
  | None =>
      (* if the mask is empty then we have to clear the entire image in the cel *)
      if bg then
        (* if the layer is the background then we clear the image *)
        when isEnabled (record (UndoImage (cel_image cel) image)) ;;
        mutate MutPixels
          (fun s => set_stock (stock_set (cel_image cel) (Some (image_clear image bgcolor))
                                 (spr_stock s)) s)
      else
        (* if the layer is transparent we can remove the cel (and its associated image) *)
        cels <- removeCel lid cels pos ;;
        put_sprite (fun s => set_folder (update_at path (with_cels cels) (spr_folder s)) s)
  | Some bitmap =>
      let offset_x := mask_x m - cel_x cel in
      let offset_y := mask_y m - cel_y cel in
      let x1 := Z.max 0 offset_x in
      let y1 := Z.max 0 offset_y in
      let x2 := Z.min (img_w image - 1) (offset_x + mask_w m - 1) in
      let y2 := Z.min (img_h image - 1) (offset_y + mask_h m - 1) in
      (* do nothing *)
      if (x2 <? x1) || (y2 <? y1) then ret tt else
      when isEnabled (record (UndoImage (cel_image cel) image)) ;;
      (* clear the masked zones *)
      mutate MutPixels
        (fun s => set_stock (stock_set (cel_image cel)
                               (Some (clear_masked_pixels image m bitmap offset_x offset_y bgcolor))
                               (spr_stock s)) s)
  end
  end
  end.

(** The readable and writable flags of a layer are not part of the
    model: the source's [ASSERT(layer->is_readable())] and
    [ASSERT(layer->is_writable())] are not modelled, so this definition
    can succeed where the source stops on one of them; only its failures
    are read from it. *)
Definition pasteImage (src_image : image) (x y opacity : Z) : M unit :=
  s <- get_sprite ;;
  (* ASSERT(layer); ASSERT(layer->is_image()) *)
  match current_image_layer s with
  | None => fail
  | Some (_, _, _, cels) =>
      (* ASSERT(cel) *)
      match getCelAt cels (spr_frame s) with
      | None => fail
      | Some (_, cel) =>
          (* cel_image: the image of the cel in the stock *)
          img <- some (stock_get (spr_stock s) (cel_image cel)) ;;
          let cel_image2 := image_merge img src_image (x - cel_x cel) (y - cel_y cel)
                              opacity BLEND_MODE_NORMAL in
          replaceStockImage (cel_image cel) cel_image2
      end
  end.

Definition copyToCurrentMask (mask : mask) : M unit :=
  s <- get_sprite ;;
  when isEnabled (record (UndoSetMask (spr_mask s))) ;;
  mutate MutMask (fun s => set_mask (mask_copy (spr_mask s) mask) s).

End Transaction.

(** ** Replaying the journal

    Modelled from the spec: UndoHistory's [undoGroup] replays the inverse
    of every record of the latest group, latest first, with the journal
    disabled. *)

Definition with_layer (id : nat) (f : layer -> layer) (s : sprite) : option sprite :=
  match find_path id (spr_folder s) with
  | Some p => Some (set_folder (update_at p f (spr_folder s)) s)
  | None => None
  end.

Definition map_cels (f : list cel -> list cel) (l : layer) : layer :=
  with_cels (f (layer_cels l)) l.

Definition upd_cel (pos : nat) (f : cel -> cel) (cels : list cel) : list cel :=
  match nth_error cels pos with Some c => upd_nth pos (f c) cels | None => cels end.

Definition set_background (b : bool) (l : layer) : layer :=
  match l with LayerImage id _ cs => LayerImage id b cs | LayerFolder _ _ => l end.

Definition apply_inverse (r : undo_rec) (s : sprite) : option sprite :=
  match r with
  | UndoSetFrames old => Some (set_frames old s)
  | UndoSetFrame old => Some (set_frame old s)
  | UndoSetLayer old => Some (set_layer old s)
  | UndoSetSize w h => Some (set_size w h s)
  | UndoSetImgType old => Some (set_imgtype old s)
  | UndoStockImgType old => Some (set_stock_imgtype old s)
  | UndoAddImage idx => Some (set_stock (stock_set idx None (spr_stock s)) s)
  | UndoRemoveImage idx img
  | UndoReplaceImage idx img
  | UndoImage idx img => Some (set_stock (stock_set idx (Some img) (spr_stock s)) s)
  | UndoAddLayer folder lid => with_layer folder (folder_remove_layer lid) s
  | UndoRemoveLayer folder pos l => with_layer folder (with_children (insert_nth pos l)) s
  | UndoMoveLayer folder lid pos => with_layer folder (folder_move_layer lid pos) s
  | UndoLayerFlags lid old => with_layer lid (set_background old) s
  | UndoAddCel lid pos => with_layer lid (map_cels (remove_nth pos)) s
  | UndoRemoveCel lid pos c => with_layer lid (map_cels (insert_nth pos c)) s
  | UndoCelFrame lid pos old => with_layer lid (map_cels (upd_cel pos (set_cel_frame old))) s
  | UndoCelX lid pos old => with_layer lid (map_cels (upd_cel pos (set_cel_x old))) s
  | UndoCelY lid pos old => with_layer lid (map_cels (upd_cel pos (set_cel_y old))) s
  | UndoFrlen frame old => Some (setFrameDuration_spr frame old s)
  | UndoSetMask old => Some (set_mask old s)
  | UndoMaskX old => let m := spr_mask s in
                     Some (set_mask (mkMask (mask_name m) old (mask_y m) (mask_w m)
                                            (mask_h m) (mask_bitmap m)) s)
  | UndoMaskY old => let m := spr_mask s in
                     Some (set_mask (mkMask (mask_name m) (mask_x m) old (mask_w m)
                                            (mask_h m) (mask_bitmap m)) s)
  | UndoRemovePalette p => Some (set_palettes (put_palette p (spr_palettes s)) s)
  end.

Definition replay (g : list undo_rec) (s : sprite) : option sprite :=
  fold_left (fun acc r => match acc with Some s => apply_inverse r s | None => None end)
            (rev g) (Some s).

(** Modelled from the spec: the journal's group operations. *)

(** [undo_open] ([beginGroup]): fatal if a group is already open. *)
Definition undo_open : M unit :=
  fun s => let h := s_hist s in
           match h_open h with
           | Some _ => None
           | None => Some (tt, mkSt (s_spr s) (mkHistory (h_enabled h) (Some []) (h_undo h)
                                                        (h_redo h)) (s_trace s))
           end.

(** [undo_close] ([endGroup]): the open group becomes the latest
    committed group; a newly committed group discards the redo list. *)
Definition undo_close : M unit :=
  fun s => let h := s_hist s in
           match h_open h with
           | Some g => Some (tt, mkSt (s_spr s) (mkHistory (h_enabled h) None (g :: h_undo h) [])
                                      (s_trace s))
           | None => Some (tt, s)
           end.

(** [doUndo] ([undoGroup]) *)
Definition doUndo : M unit :=
  fun s => let h := s_hist s in
           match h_undo h with
           | g :: gs =>
               match replay g (s_spr s) with
               | Some spr => Some (tt, mkSt spr (mkHistory (h_enabled h) (h_open h) gs
                                                          (g :: h_redo h)) (s_trace s))
               | None => None
               end
           | [] => Some (tt, s)
           end.

(** [clearRedo] *)
Definition clearRedo : M unit :=
  fun s => let h := s_hist s in
           Some (tt, mkSt (s_spr s) (mkHistory (h_enabled h) (h_open h) (h_undo h) []) (s_trace s)).

(** ** The transaction object *)

Record transaction := mkTransaction {
  m_enabledFlag : bool;
  m_committed : bool
}.

(** [UndoTransaction::UndoTransaction] *)
Definition open_transaction : M transaction :=
  fun s => let en := h_enabled (s_hist s) in
           (when en undo_open ;; ret (mkTransaction en false)) s.

(** [UndoTransaction::commit] *)
Definition commit (t : transaction) : transaction := mkTransaction (m_enabledFlag t) true.

(** [UndoTransaction::~UndoTransaction] *)
Definition close_transaction (t : transaction) : M unit :=
  if m_enabledFlag t then
    (* Close the undo information. *)
    undo_close ;;
    (* If it isn't committed, we have to rollback all changes. *)
    if negb (m_committed t) then doUndo ;; clearRedo else ret tt
  else ret tt.

(** ** A concrete pixel surface, for evaluating the model on examples *)

Definition fill (n : Z) (c : Z) : list Z := repeat c (Z.to_nat n).

#[export] Instance toy_surface : PixelSurface := {
  image_new t w h := mkImage t w h (fill (w * h) 0);
  image_clear img c := mkImage (img_type img) (img_w img) (img_h img)
                               (fill (img_w img * img_h img) c);
  image_crop img x y w h bg := mkImage (img_type img) w h (fill (w * h) bg);
  image_copy dst src x y := src;
  image_getpixel img x y := nth (Z.to_nat (y * img_w img + x)) (img_px img) 0;
  image_shrink_rect img ref :=
    if forallb (Z.eqb ref) (img_px img) then None
    else Some (0, 0, img_w img - 1, img_h img - 1);
  convert_imgtype img t _ _ _ _ := mkImage t (img_w img) (img_h img) (img_px img);
  sprite_render s img := mkImage (img_type img) (img_w img) (img_h img)
                                 (fill (img_w img * img_h img) (spr_frame s));
  layer_render s l frame img := mkImage (img_type img) (img_w img) (img_h img)
                                        (fill (img_w img * img_h img) (frame + 7));
  palette_grayscale := mkPalette 0 [0; 128; 255]
}.

#[export] Instance toy_edit : PixelEdit := {
  image_putpixel img x y c :=
    if (0 <=? x) && (x <? img_w img) && (0 <=? y) && (y <? img_h img)
    then mkImage (img_type img) (img_w img) (img_h img)
                 (upd_nth (Z.to_nat (y * img_w img + x)) c (img_px img))
    else img;
  image_merge dst src x y opacity blend_mode := src
}.

(** ** Example documents *)

Definition no_mask : mask := mkMask ""%string 0 0 0 0 None.
Definition img_a : image := mkImage IMAGE_RGB 2 2 [1; 2; 3; 4].
Definition img_b : image := mkImage IMAGE_RGB 2 2 [5; 6; 7; 8].

(** A sprite of [frames] frames, 2x2, with the given root folder and stock. *)
Definition ex_sprite (root : layer) (stock : list (option image)) (frames : Z)
  (cur : option nat) : sprite :=
  mkSprite IMAGE_RGB 2 2 root stock IMAGE_RGB frames (fill frames 100) 0 cur
           no_mask [] [mkPalette 0 [0; 255]].

Definition ex_hist_open : history := mkHistory true (Some []) [] [].

(** An enabled journal with no group open. *)
Definition ex_hist_idle : history := mkHistory true None [] [].

(** A journal with a group open and an undone group waiting for redo. *)
Definition ex_hist_redo : history :=
  mkHistory true (Some [UndoSetFrame 0]) [] [[UndoSetFrame 1]].

(** One transparent layer with one cel; stock slot 0 is the empty slot. *)
Definition ex_one_layer : sprite :=
  ex_sprite (LayerFolder 0 [LayerImage 1 false [cel_new 0 1]]) [None; Some img_a] 1 (Some 1%nat).

(** A folder 1 holding the current layer 2. *)
Definition ex_nested : sprite :=
  ex_sprite (LayerFolder 0 [LayerFolder 1 [LayerImage 2 false [cel_new 0 1]]])
            [None; Some img_a] 1 (Some 2%nat).

(** A background layer with no cel, in a one-frame sprite. *)
Definition ex_bg_empty : sprite :=
  ex_sprite (LayerFolder 0 [LayerImage 1 true []]) [None] 1 (Some 1%nat).

(** Two layers whose cels at frame 0 share stock slot 1. *)
Definition ex_shared : sprite :=
  ex_sprite (LayerFolder 0 [LayerImage 1 false [cel_new 0 1; cel_new 1 2];
                            LayerImage 2 false [cel_new 0 1]])
            [None; Some img_a; Some img_b] 2 (Some 1%nat).

(** Three frames, one layer with a cel at each frame. *)
Definition ex_three : sprite :=
  ex_sprite (LayerFolder 0 [LayerImage 1 false [cel_new 0 1; cel_new 1 2; cel_new 2 3]])
            [None; Some img_a; Some img_b; Some img_a] 3 (Some 1%nat).

(** ** Helpers for the statements *)

Definition transaction_run (op : bool -> M unit) : M unit :=
  t <- open_transaction ;;
  op (m_enabledFlag t) ;;
  close_transaction t.

(** Induction over the layer tree, with a hypothesis for every child of
    a folder. *)
Section LayerInd.
Variable P : layer -> Prop.
Hypothesis HI : forall id bg cs, P (LayerImage id bg cs).
Hypothesis HF : forall id ch, Forall P ch -> P (LayerFolder id ch).

Fixpoint layer_ind_nested (l : layer) : P l :=
  match l with
  | LayerImage id bg cs => HI id bg cs
  | LayerFolder id ch =>
      HF id ch ((fix go (ch : list layer) : Forall P ch :=
                   match ch with
                   | [] => Forall_nil P
                   | c :: cs => Forall_cons c (layer_ind_nested c) (go cs)
                   end) ch)
  end.
End LayerInd.

(** ** Statements of the frame moves, as the documentation words them *)

(** [moveFrameBefore(frame, before_frame)] seen as a renumbering of the
    frames: moving to the future, [frame] goes to [before_frame - 1] and the
    frames strictly between them move one frame earlier; moving to the
    past, [frame] goes to [before_frame] and the frames from [before_frame]
    up to [frame] (excluded) move one frame later. *)
Definition frame_move_spec (frame before_frame x : Z) : Z :=
  if frame <? before_frame then
    if x =? frame then before_frame - 1
    else if (frame <? x) && (x <? before_frame) then x - 1 else x
  else
    if x =? frame then before_frame
    else if (before_frame <=? x) && (x <? frame) then x + 1 else x.

(** [removeFrame(frame)] on the cels of one image layer, as the
    documentation words it: the cel at [frame] is removed and every later
    cel moves one frame earlier. *)
Definition remove_frame_cels_spec (frame : Z) (cels : list cel) : list cel :=
  map (fun c => if frame <? cel_frame c then set_cel_frame (cel_frame c - 1) c else c)
      (filter (fun c => negb (cel_frame c =? frame)) cels).

(** The cel lists of the image layers of a tree, in traversal order. *)
Fixpoint image_cels (l : layer) : list (list cel) :=
  match l with
  | LayerImage _ _ cs => [cs]
  | LayerFolder _ ch => flat_map image_cels ch
  end.

(** The cel list of an image layer of a sprite with [total] frames holds at
    most one cel per frame, each at a frame of [0, total). *)
Definition cels_wf (total : Z) (cels : list cel) : Prop :=
  NoDup (map cel_frame cels) /\ Forall (fun c => 0 <= cel_frame c < total) cels.

(** The cels at [frame] of the image layers of a list of trees. *)
Definition frame_cels (frame : Z) (ls : list layer) : list cel :=
  flat_map (filter (fun c => cel_frame c =? frame)) (flat_map image_cels ls).

(** The cel list of [removeFrameOfLayer] while its loop has reached
    [fr]: the cels at frames between [frame] and [fr] (excluded) have
    moved one frame earlier. *)
Definition shift_below (frame fr : Z) (c : cel) : cel :=
  if (frame <? cel_frame c) && (cel_frame c <? fr) then set_cel_frame (cel_frame c - 1) c else c.

(** ** Statements of the further operations *)

(** A layer tree with its cels dropped: its shape, identities and
    background flags. *)
Definition layer_shape (l : layer) : layer := map_image_cels (fun _ => []) l.

(** [newFrameForLayer(layer, frame)] moves the cels at [frame] or later
    one frame later. *)
Definition newframe_shift (frame : Z) (c : cel) : cel :=
  if frame <=? cel_frame c then set_cel_frame (cel_frame c + 1) c else c.

(** The cels [cels] of an image layer before and [cels'] after a new
    frame at [frame], for the stock [k0] before and [k] after: the later
    cels move one frame later and, when the layer has a cel at [frame - 1],
    one cel is inserted at [frame], with the position and opacity of that
    cel and a new stock slot holding its image. *)
Definition new_frame_cels (k0 : list (option image)) (frame : Z) (k : list (option image))
  (cels cels' : list cel) : Prop :=
  match getCelAt cels (frame - 1) with
  | Some (_, src) =>
      exists pos d img,
        cels' = insert_nth pos d (map (newframe_shift frame) cels) /\
        cel_frame d = frame /\ cel_x d = cel_x src /\ cel_y d = cel_y src /\
        cel_opacity d = cel_opacity src /\
        Z.of_nat (List.length k0) <= cel_image d /\
        stock_get k0 (cel_image src) = Some img /\ stock_get k (cel_image d) = Some img
  | None => cels' = map (newframe_shift frame) cels
  end.

(** * Properties *)

(** ** Monad and list lemmas *)

Lemma bind_some {A B} (m : M A) (k : A -> M B) s a s' :
  m s = Some (a, s') -> bind m k s = k a s'.
Proof. unfold bind. intros ->. reflexivity. Qed.

Lemma bind_none {A B} (m : M A) (k : A -> M B) s :
  m s = None -> bind m k s = None.
Proof. unfold bind. intros ->. reflexivity. Qed.

(** The transaction's journal invariant: an enabled transaction has its
    group open. *)
Definition hist_ok (en : bool) (s : st) : Prop :=
  en = true -> h_open (s_hist s) <> None.

Lemma when_record en r s :
  hist_ok en s ->
  exists s', when en (record r) s = Some (tt, s') /\ s_spr s' = s_spr s /\ hist_ok en s'
             /\ s_trace s' = s_trace s ++ (if en then [EvLog r] else []).
Proof.
  intros Hok. destruct en; simpl.
  - unfold record. destruct (h_open (s_hist s)) as [g|] eqn:E.
    + eexists; repeat split; simpl; auto. intros _. discriminate.
    + exfalso. apply (Hok eq_refl E).
  - eexists; repeat split; auto. rewrite app_nil_r. reflexivity.
Qed.

Lemma nth_error_upd_nth_eq {A} (l : list A) (n : nat) x :
  (n < List.length l)%nat -> nth_error (upd_nth n x l) n = Some x.
Proof.
  revert n; induction l as [|h t IH]; intros [|n] Hn; simpl in *; try lia; auto.
  apply IH. lia.
Qed.

Lemma nth_error_upd_nth_neq {A} (l : list A) (n m : nat) x :
  n <> m -> nth_error (upd_nth n x l) m = nth_error l m.

Proof.
  revert n m; induction l as [|h t IH]; intros [|n] [|m] Hnm; simpl; auto; try lia.
Qed.

Lemma upd_nth_length {A} (l : list A) (n : nat) x : List.length (upd_nth n x l) = List.length l.
Proof. revert n; induction l; intros [|n]; simpl; auto. Qed.

Lemma layer_at_update_at p f l :
  layer_at p (update_at p f l) = option_map f (layer_at p l).
Proof.
  revert l; induction p as [|i p IH]; intros l; simpl; auto.
  destruct l as [id bg cs|id ch]; simpl; auto.
  destruct (nth_error ch i) as [c|] eqn:E; simpl; [|rewrite E; auto].
  rewrite nth_error_upd_nth_eq by (apply nth_error_Some; congruence). apply IH.
Qed.

Lemma get_sprite_bind {A} (k : sprite -> M A) s : bind get_sprite k s = k (s_spr s) s.
Proof. reflexivity. Qed.

Lemma gets_bind {A B} (f : sprite -> A) (k : A -> M B) s : bind (gets f) k s = k (f (s_spr s)) s.
Proof. reflexivity. Qed.

Lemma mutate_bind {A} k f (g : unit -> M A) s :
  bind (mutate k f) g s = g tt (mkSt (f (s_spr s)) (s_hist s) (s_trace s ++ [EvMut k])).
Proof. reflexivity. Qed.

Lemma when_fold_record en (mk : palette -> undo_rec) ps s :
  hist_ok en s ->
  exists s', when en (fold_list ps (fun p _ => record (mk p)) tt) s = Some (tt, s') /\
             s_spr s' = s_spr s /\ hist_ok en s'.
Proof.
  destruct en; [|intros Hok; exists s; auto].
  revert s; induction ps as [|p ps IH]; intros s Hok; simpl.
  - exists s. auto.
  - destruct (when_record true (mk p) s Hok) as [s1 [H1 [Hs1 [Hok1 _]]]].
    simpl in H1. rewrite (bind_some _ _ _ _ _ H1).
    destruct (IH s1 Hok1) as [s2 [H2 [Hs2 Hok2]]]. simpl in H2.
    exists s2. rewrite H2. split; [reflexivity|]. split; [congruence|exact Hok2].
Qed.

(** ** C4: destroying a committed transaction *)

(** C4 (counterexample): destroying a committed transaction closes its
    group, and closing a group discards the pending redo list. *)
Lemma C4_committed_close_clears_redo :
  exists s', close_transaction (commit (mkTransaction true false))
               (mkSt ex_one_layer ex_hist_redo []) = Some (tt, s')
             /\ h_redo ex_hist_redo <> [] /\ h_redo (s_hist s') = [].
Proof. eexists. split; [reflexivity|]. split; [discriminate|reflexivity]. Qed.

(** C4: destroying a transaction on which [commit] was called leaves the
    document as it is: no inverse is replayed and [clearRedo] is not
    called.  Its only effect is [undo_close], which pushes the open group
    on the undo stack and, like every newly committed group, discards
    the redo list. *)
Theorem C4_committed_close_keeps_document t s :
  m_committed t = true ->
  exists s', close_transaction t s = Some (tt, s') /\
    s_spr s' = s_spr s /\ s_trace s' = s_trace s /\
    h_undo (s_hist s') =
      (if m_enabledFlag t then
         match h_open (s_hist s) with
         | Some g => g :: h_undo (s_hist s)
         | None => h_undo (s_hist s)
         end
       else h_undo (s_hist s)) /\
    h_redo (s_hist s') =
      (if m_enabledFlag t then
         match h_open (s_hist s) with Some _ => [] | None => h_redo (s_hist s) end
       else h_redo (s_hist s)).
Proof.
  intros Hc. unfold close_transaction. rewrite Hc. simpl.
  destruct (m_enabledFlag t).
  - unfold bind, undo_close. destruct (h_open (s_hist s)); simpl;
      eexists; repeat split; reflexivity.
  - eexists; repeat split; reflexivity.
Qed.

Lemma C4_committed_close_keeps_document_witness :
  m_committed (commit (mkTransaction true false)) = true /\
  exists s', close_transaction (commit (mkTransaction true false))
               (mkSt ex_one_layer ex_hist_redo []) = Some (tt, s')
             /\ s_spr s' = ex_one_layer.
Proof.
  split; [reflexivity|].
  destruct (C4_committed_close_keeps_document (commit (mkTransaction true false))
              (mkSt ex_one_layer ex_hist_redo []) eq_refl) as [s' [H1 [H2 _]]].
  exists s'. split; assumption.
Defined.

(** ** C8: newLayer *)

Lemma fresh_id_not_in s : ~ In (fresh_id s) (layer_ids (spr_folder s)).
Proof.
  unfold fresh_id. intros Hin.
  assert (Hle : (list_max (layer_ids (spr_folder s)) <= list_max (layer_ids (spr_folder s)))%nat)
    by lia.
  apply list_max_le in Hle. rewrite Forall_forall in Hle.
  specialize (Hle _ Hin). lia.
Qed.

(** C8 (counterexample): with the current layer inside folder 1,
    [newLayer] puts the new layer in the root folder, not in folder 1. *)
Lemma C8_newLayer_goes_to_root :
  exists id s', newLayer true (mkSt ex_nested ex_hist_open []) = Some (id, s') /\
    spr_layer (s_spr s') = Some id /\
    find_path 2 (spr_folder ex_nested) = Some [0%nat; 0%nat] /\
    find_path id (spr_folder (s_spr s')) = Some [1%nat] /\
    layer_at [0%nat] (spr_folder (s_spr s')) = layer_at [0%nat] (spr_folder ex_nested).
Proof. do 2 eexists. split; [compute; reflexivity|]. repeat split; vm_compute; reflexivity. Qed.

(** C8: [newLayer] creates an empty image layer, a new object, appends it
    on top of the sprite's root folder whatever the current selection,
    makes it the current layer and returns it. *)
Theorem C8_newLayer_appends_to_root en s rid ch :
  hist_ok en s -> spr_folder (s_spr s) = LayerFolder rid ch ->
  exists s', newLayer en s = Some (fresh_id (s_spr s), s') /\
    spr_folder (s_spr s') = LayerFolder rid (ch ++ [LayerImage (fresh_id (s_spr s)) false []]) /\
    spr_layer (s_spr s') = Some (fresh_id (s_spr s)) /\
    ~ In (fresh_id (s_spr s)) (layer_ids (spr_folder (s_spr s))).
Proof.
  intros Hok Hroot.
  unfold newLayer, setCurrentLayer, isEnabled, get_sprite, gets, bind, mutate, when, ret.
  destruct en; simpl.
  - unfold record. destruct (h_open (s_hist s)) as [g|] eqn:E; [|exfalso; now apply (Hok eq_refl)].
    eexists. split; [reflexivity|]. simpl.
    split; [rewrite Hroot; reflexivity|]. split; [reflexivity|]. apply fresh_id_not_in.
  - eexists. split; [reflexivity|]. simpl.
    split; [rewrite Hroot; reflexivity|]. split; [reflexivity|]. apply fresh_id_not_in.
Qed.

Lemma C8_newLayer_appends_to_root_witness :
  hist_ok true (mkSt ex_nested ex_hist_open []) /\
  spr_folder ex_nested = LayerFolder 0 [LayerFolder 1 [LayerImage 2 false [cel_new 0 1]]] /\
  exists s', newLayer true (mkSt ex_nested ex_hist_open []) = Some (3%nat, s') /\
    spr_folder (s_spr s') = LayerFolder 0 [LayerFolder 1 [LayerImage 2 false [cel_new 0 1]];
                                           LayerImage 3 false []].
Proof.
  assert (Hok : hist_ok true (mkSt ex_nested ex_hist_open [])) by (intros _; discriminate).
  split; [exact Hok|]. split; [reflexivity|].
  destruct (C8_newLayer_appends_to_root true (mkSt ex_nested ex_hist_open []) 0
              [LayerFolder 1 [LayerImage 2 false [cel_new 0 1]]] Hok eq_refl)
    as [s' [H1 [H2 _]]].
  exists s'. split; assumption.
Defined.

(** ** Layer tree lemmas *)

Lemma find_child_spec f i ch p :
  find_child f i ch = Some p ->
  exists j c p', p = (i + j)%nat :: p' /\ nth_error ch j = Some c /\ f c = Some p'.
Proof.
  revert i; induction ch as [|c cs IH]; intros i H; simpl in H; [discriminate|].
  destruct (f c) as [p'|] eqn:E.
  - inversion H; subst. exists O, c, p'. rewrite Nat.add_0_r. auto.
  - destruct (IH _ H) as [j [c' [p'' [-> [Hn Hf]]]]].
    exists (S j), c', p''. rewrite Nat.add_succ_r. auto.
Qed.

Lemma find_path_spec id l p :
  find_path id l = Some p -> exists x, layer_at p l = Some x /\ layer_id x = id.
Proof.
  revert p. induction l as [i bg cs | i ch IHch] using layer_ind_nested; intros p H; simpl in H.
  - destruct (Nat.eqb i id) eqn:E; inversion H; subst.
    exists (LayerImage i bg cs). split; auto. apply Nat.eqb_eq; auto.
  - destruct (Nat.eqb i id) eqn:E.
    + inversion H; subst. exists (LayerFolder i ch). split; auto. apply Nat.eqb_eq; auto.
    + destruct (find_child_spec _ _ _ _ H) as [j [c [p' [-> [Hn Hf]]]]].
      rewrite Forall_forall in IHch.
      destruct (IHch c (nth_error_In _ _ Hn) p' Hf) as [x [Hx Hid]].
      exists x. simpl. rewrite Hn. auto.
Qed.

Lemma split_last_app p q i : split_last p = Some (q, i) -> p = q ++ [i].
Proof.
  revert q i; induction p as [|a p IH]; intros q i H; simpl in H; [discriminate|].
  destruct p as [|b p'].
  - inversion H; subst. reflexivity.
  - destruct (split_last (b :: p')) as [[q' j]|] eqn:E; [|discriminate].
    inversion H; subst. simpl. f_equal. apply IH. reflexivity.
Qed.

Lemma layer_at_snoc q i l :
  layer_at (q ++ [i]) l =
  match layer_at q l with
  | Some (LayerFolder _ ch) => nth_error ch i
  | _ => None
  end.
Proof.
  revert l; induction q as [|j q IH]; intros l; simpl.
  - destruct l; auto. destruct (nth_error layers i); auto.
  - destruct l as [id bg cs|id ch]; auto.
    destruct (nth_error ch j); auto.
Qed.

(** ** C5: removeLayer *)

(** C5: removing layer [lid], found at position [pos] of its parent
    folder: when it is the current layer, the selection moves to its
    previous sibling if any, else to its next sibling if any, else to its
    parent when the parent is not the root folder, else to nothing; other
    selections are kept.  In all cases the layer is detached from its
    parent (and gone with it). *)
Theorem C5_removeLayer_selection en s lid path parent_path pos parent :
  hist_ok en s ->
  find_path lid (spr_folder (s_spr s)) = Some path ->
  split_last path = Some (parent_path, pos) ->
  layer_at parent_path (spr_folder (s_spr s)) = Some parent ->
  exists s', removeLayer en lid s = Some (tt, s') /\
    (exists l, nth_error (children parent) pos = Some l /\ layer_id l = lid) /\
    (spr_layer (s_spr s) = Some lid ->
       ((pos > 0)%nat -> exists x, nth_error (children parent) (pred pos) = Some x /\
                                   spr_layer (s_spr s') = Some (layer_id x)) /\
       (pos = O -> forall x, nth_error (children parent) 1 = Some x ->
                             spr_layer (s_spr s') = Some (layer_id x)) /\
       (pos = O -> nth_error (children parent) 1 = None -> parent_path <> [] ->
                   spr_layer (s_spr s') = Some (layer_id parent)) /\
       (pos = O -> nth_error (children parent) 1 = None -> parent_path = [] ->
                   spr_layer (s_spr s') = None)) /\
    (spr_layer (s_spr s) <> Some lid -> spr_layer (s_spr s') = spr_layer (s_spr s)) /\
    layer_at parent_path (spr_folder (s_spr s')) = Some (with_children (remove_nth pos) parent).
Proof.
  intros Hok Hfind Hsplit Hpar.
  destruct (find_path_spec _ _ _ Hfind) as [l [Hl Hid]].
  pose proof (split_last_app _ _ _ Hsplit) as Hp. subst path.
  rewrite layer_at_snoc, Hpar in Hl.
  destruct parent as [pid pbg pcs | pid ch]; [discriminate|].
  cbn [children with_children layer_id] in Hl |- *.
  assert (Hsome : forall A (o : option A) a s0, o = Some a -> some o s0 = Some (a, s0))
    by (intros A o a s0 ->; reflexivity).
  unfold removeLayer.
  rewrite (bind_some _ _ s (s_spr s) s) by reflexivity.
  rewrite (bind_some _ _ s _ s) by (apply Hsome; exact Hfind).
  rewrite (bind_some _ _ s _ s) by (apply Hsome; exact Hsplit).
  cbv beta iota.
  rewrite (bind_some _ _ s _ s) by (apply Hsome; exact Hpar).
  rewrite (bind_some _ _ s l s)
    by (apply Hsome; rewrite layer_at_snoc, Hpar; exact Hl).
  cbv beta iota. cbn [children with_children layer_id].
  set (sel := match match pos with O => None | S p => nth_error ch p end with
              | Some x => Some (layer_id x)
              | None => match nth_error ch (S pos) with
                        | Some x => Some (layer_id x)
                        | None => match parent_path with [] => None | _ => Some pid end
                        end
              end).
  assert (Hcur : exists s1, (if is_layer (spr_layer (s_spr s)) lid
                             then setCurrentLayer en sel else ret tt) s = Some (tt, s1) /\
                 hist_ok en s1 /\ spr_folder (s_spr s1) = spr_folder (s_spr s) /\
                 spr_layer (s_spr s1) = (if is_layer (spr_layer (s_spr s)) lid
                                         then sel else spr_layer (s_spr s))).
  { destruct (is_layer (spr_layer (s_spr s)) lid).
    - unfold setCurrentLayer, get_sprite, gets, bind at 1. simpl.
      destruct (when_record en (UndoSetLayer (spr_layer (s_spr s))) s Hok)
        as [s0 [H0 [Hs0 [Hok0 _]]]].
      rewrite (bind_some _ _ _ _ _ H0). unfold mutate. simpl.
      eexists. split; [reflexivity|]. split; [exact Hok0|]. rewrite Hs0. auto.
    - eexists. split; [reflexivity|]. auto. }
  destruct Hcur as [s1 [H1 [Hok1 [Hf1 Hl1]]]].
  rewrite (bind_some _ _ _ _ _ H1).
  destruct (when_record en (UndoRemoveLayer pid pos l) s1 Hok1) as [s2 [H2 [Hs2 _]]].
  rewrite (bind_some _ _ _ _ _ H2). unfold mutate.
  eexists. split; [reflexivity|]. cbn [s_spr spr_layer spr_folder set_folder].
  split; [exists l; auto|].
  rewrite layer_at_update_at, Hs2, Hf1, Hpar. cbn [option_map with_children].
  assert (Hlid : forall c, spr_layer (s_spr s) = c -> is_layer c lid = true <-> c = Some lid).
  { intros c _. destruct c as [n|]; simpl; split; intros E; try discriminate.
    - apply Nat.eqb_eq in E. subst. reflexivity.
    - inversion E. apply Nat.eqb_refl. }
  rewrite Hl1.
  split; [|split; [|reflexivity]].
  - intros Hc. assert (Hb : is_layer (spr_layer (s_spr s)) lid = true)
      by (apply (Hlid _ eq_refl); exact Hc).
    rewrite Hb. unfold sel.
    repeat split.
    + intros Hpos. destruct pos as [|p]; [lia|]. simpl.
      destruct (nth_error ch p) as [x|] eqn:E.
      * exists x. auto.
      * exfalso. apply nth_error_None in E.
        assert (S p < List.length ch)%nat by (apply nth_error_Some; congruence). lia.
    + intros -> x Hx. rewrite Hx. reflexivity.
    + intros -> Hn Hpp. rewrite Hn. destruct parent_path; [contradiction|reflexivity].
    + intros -> Hn ->. rewrite Hn. reflexivity.
  - intros Hc. destruct (is_layer (spr_layer (s_spr s)) lid) eqn:Hb; auto.
    exfalso. apply Hc. apply (Hlid _ eq_refl). exact Hb.
Qed.

Lemma C5_removeLayer_selection_witness :
  exists s', removeLayer true 2 (mkSt ex_nested ex_hist_open []) = Some (tt, s') /\
    (exists l, nth_error (children (LayerFolder 1 [LayerImage 2 false [cel_new 0 1]])) 0 = Some l
               /\ layer_id l = 2%nat) /\
    (spr_layer ex_nested = Some 2%nat ->
       ((0 > 0)%nat -> exists x, nth_error (children (LayerFolder 1 [LayerImage 2 false [cel_new 0 1]])) (pred 0) = Some x /\
                                 spr_layer (s_spr s') = Some (layer_id x)) /\
       (0%nat = O -> forall x, nth_error (children (LayerFolder 1 [LayerImage 2 false [cel_new 0 1]])) 1 = Some x ->
                               spr_layer (s_spr s') = Some (layer_id x)) /\
       (0%nat = O -> nth_error (children (LayerFolder 1 [LayerImage 2 false [cel_new 0 1]])) 1 = None ->
                     [0%nat] <> [] ->
                     spr_layer (s_spr s') = Some (layer_id (LayerFolder 1 [LayerImage 2 false [cel_new 0 1]]))) /\
       (0%nat = O -> nth_error (children (LayerFolder 1 [LayerImage 2 false [cel_new 0 1]])) 1 = None ->
                     [0%nat] = [] -> spr_layer (s_spr s') = None)) /\
    (spr_layer ex_nested <> Some 2%nat -> spr_layer (s_spr s') = spr_layer ex_nested) /\
    layer_at [0%nat] (spr_folder (s_spr s')) =
      Some (with_children (remove_nth 0) (LayerFolder 1 [LayerImage 2 false [cel_new 0 1]])).
Proof.
  apply (C5_removeLayer_selection true (mkSt ex_nested ex_hist_open []) 2 [0%nat; 0%nat] [0%nat] 0).
  - intros _. vm_compute. discriminate.
  - vm_compute. reflexivity.
  - vm_compute. reflexivity.
  - vm_compute. reflexivity.
Defined.

(** ** C2: order of journal records and mutations *)

(** C2 (counterexample): [addImageInStock] adds the image to the stock
    first and journals the inverse (with the index the stock returned)
    afterwards. *)
Lemma C2_addImageInStock_mutates_first :
  exists s', addImageInStock true img_b (mkSt ex_one_layer ex_hist_open []) = Some (2, s') /\
             s_trace s' = [EvMut MutStockAdd; EvLog (UndoAddImage 2)].
Proof. eexists. split; vm_compute; reflexivity. Qed.

(** C2: with an open group, [removeImageFromStock] and
    [replaceStockImage] journal their inverse before the stock mutation;
    [addImageInStock] mutates the stock first and journals the inverse
    (carrying the new index) right after; [deselectMask] first updates
    the mask repository without journaling it (it drops the first mask
    named ["*deselected*"], if any, then appends a copy of the current
    mask under that name), then journals the current mask in the open
    group, then clears the mask; nothing else of the sprite changes. *)
Theorem C2_stock_and_mask_log_order s :
  hist_ok true s ->
  (forall idx img, 0 <= idx -> stock_get (spr_stock (s_spr s)) idx = Some img ->
     exists s', removeImageFromStock true idx s = Some (tt, s') /\
       s_trace s' = s_trace s ++ [EvLog (UndoRemoveImage idx img); EvMut MutStockRemove]) /\
  (forall idx img new_image, stock_get (spr_stock (s_spr s)) idx = Some img ->
     exists s', replaceStockImage true idx new_image s = Some (tt, s') /\
       s_trace s' = s_trace s ++ [EvLog (UndoReplaceImage idx img); EvMut MutStockReplace]) /\
  (forall img, exists s',
     addImageInStock true img s = Some (Z.of_nat (List.length (spr_stock (s_spr s))), s') /\
     s_trace s' = s_trace s ++ [EvMut MutStockAdd;
                                EvLog (UndoAddImage (Z.of_nat (List.length (spr_stock (s_spr s)))))]) /\
  (forall g, h_open (s_hist s) = Some g ->
   exists s', deselectMask true s = Some (tt, s') /\
     s_spr s' =
       set_mask (mask_none (spr_mask (s_spr s)))
         (set_masks ((match find_mask deselected (spr_masks (s_spr s)) with
                      | Some i => remove_nth i (spr_masks (s_spr s))
                      | None => spr_masks (s_spr s)
                      end) ++
                     [mkMask deselected (mask_x (spr_mask (s_spr s))) (mask_y (spr_mask (s_spr s)))
                             (mask_w (spr_mask (s_spr s))) (mask_h (spr_mask (s_spr s)))
                             (mask_bitmap (spr_mask (s_spr s)))])
                    (s_spr s)) /\
     h_open (s_hist s') = Some (g ++ [UndoSetMask (spr_mask (s_spr s))]) /\
     s_trace s' = s_trace s ++
       (match find_mask deselected (spr_masks (s_spr s)) with
        | Some _ => [EvMut MutMaskRepo] | None => [] end) ++
       [EvMut MutMaskRepo; EvLog (UndoSetMask (spr_mask (s_spr s))); EvMut MutMask]).
Proof.
  intros Hok.
  destruct s as [spr [hen [g|] hu hr] tr]; [|exfalso; apply (Hok eq_refl); reflexivity].
  cbn [s_spr s_trace] in *.
  split; [|split; [|split]].
  - intros idx img Hidx Himg.
    unfold removeImageFromStock, assert.
    apply Z.leb_le in Hidx. rewrite Hidx.
    unfold bind, ret, get_sprite, gets, some. cbn [s_spr]. rewrite Himg.
    eexists. split; [reflexivity|]. simpl. rewrite <- app_assoc. reflexivity.
  - intros idx img new_image Himg.
    unfold replaceStockImage, bind, ret, get_sprite, gets, some. cbn [s_spr]. rewrite Himg.
    eexists. split; [reflexivity|]. simpl. rewrite <- app_assoc. reflexivity.
  - intros img. unfold addImageInStock, bind, ret, get_sprite, gets, mutate. cbn [s_spr].
    eexists. split; [reflexivity|]. simpl. rewrite <- app_assoc. reflexivity.
  - intros g' Hg. cbn [s_hist h_open] in Hg. injection Hg as <-.
    unfold deselectMask, bind, ret, get_sprite, gets. cbn [s_spr].
    destruct (find_mask deselected (spr_masks spr)) as [i|].
    + eexists. split; [reflexivity|].
      split; [reflexivity|]. split; [reflexivity|].
      simpl. rewrite <- !app_assoc. reflexivity.
    + eexists. split; [reflexivity|].
      split; [reflexivity|]. split; [reflexivity|].
      simpl. rewrite <- !app_assoc. reflexivity.
Qed.

Lemma C2_stock_and_mask_log_order_witness :
  hist_ok true (mkSt ex_one_layer ex_hist_open []) /\
  ((forall idx img, 0 <= idx -> stock_get (spr_stock ex_one_layer) idx = Some img ->
     exists s', removeImageFromStock true idx (mkSt ex_one_layer ex_hist_open []) = Some (tt, s') /\
       s_trace s' = [] ++ [EvLog (UndoRemoveImage idx img); EvMut MutStockRemove]) /\
  (forall idx img new_image, stock_get (spr_stock ex_one_layer) idx = Some img ->
     exists s', replaceStockImage true idx new_image (mkSt ex_one_layer ex_hist_open []) = Some (tt, s') /\
       s_trace s' = [] ++ [EvLog (UndoReplaceImage idx img); EvMut MutStockReplace]) /\
  (forall img, exists s',
     addImageInStock true img (mkSt ex_one_layer ex_hist_open []) =
       Some (Z.of_nat (List.length (spr_stock ex_one_layer)), s') /\
     s_trace s' = [] ++ [EvMut MutStockAdd;
                         EvLog (UndoAddImage (Z.of_nat (List.length (spr_stock ex_one_layer))))]) /\
  (forall g, h_open (s_hist (mkSt ex_one_layer ex_hist_open [])) = Some g ->
   exists s', deselectMask true (mkSt ex_one_layer ex_hist_open []) = Some (tt, s') /\
     s_spr s' =
       set_mask (mask_none (spr_mask ex_one_layer))
         (set_masks ((match find_mask deselected (spr_masks ex_one_layer) with
                      | Some i => remove_nth i (spr_masks ex_one_layer)
                      | None => spr_masks ex_one_layer
                      end) ++
                     [mkMask deselected (mask_x (spr_mask ex_one_layer)) (mask_y (spr_mask ex_one_layer))
                             (mask_w (spr_mask ex_one_layer)) (mask_h (spr_mask ex_one_layer))
                             (mask_bitmap (spr_mask ex_one_layer))])
                    ex_one_layer) /\
     h_open (s_hist s') = Some (g ++ [UndoSetMask (spr_mask ex_one_layer)]) /\
     s_trace s' = s_trace (mkSt ex_one_layer ex_hist_open []) ++
       (match find_mask deselected (spr_masks ex_one_layer) with
        | Some _ => [EvMut MutMaskRepo] | None => [] end) ++
       [EvMut MutMaskRepo; EvLog (UndoSetMask (spr_mask ex_one_layer)); EvMut MutMask])).
Proof.
  assert (H : hist_ok true (mkSt ex_one_layer ex_hist_open [])) by (intros _; vm_compute; discriminate).
  split; [exact H|].
  exact (C2_stock_and_mask_log_order (mkSt ex_one_layer ex_hist_open []) H).
Defined.

(** ** C3: removeCel and shared stock slots *)

(** C3 (failing input): layers 1 and 2 of [ex_shared] both have a cel on
    stock slot 1.  Removing layer 1's cel at frame 0 only looks for other
    users among layer 1's own cels, so it frees slot 1 and leaves layer 2's
    cel dangling; [removeFrame 0] then reaches layer 2 and fails on the
    freed slot. *)
Theorem C3_removeCel_frees_slot_shared_across_layers :
  stock_refs_live ex_shared = true /\
  (exists s', removeCel true 1 [cel_new 0 1; cel_new 1 2] 0 (mkSt ex_shared ex_hist_open [])
                = Some ([cel_new 1 2], s') /\
              stock_get (spr_stock (s_spr s')) 1 = None /\
              layer_at [1%nat] (spr_folder (s_spr s')) = Some (LayerImage 2 false [cel_new 0 1]) /\
              stock_refs_live (s_spr s') = false) /\
  removeFrame true 0 (mkSt ex_shared ex_hist_open []) = None.
Proof.
  split; [vm_compute; reflexivity|]. split; [|vm_compute; reflexivity].
  eexists. split; [vm_compute; reflexivity|]. repeat split; vm_compute; reflexivity.
Qed.

(** ** C1: rollback of flattenLayers *)

(** C1 (failing input): [ex_one_layer] is a valid one-frame sprite (no
    background layer, every cel on a live stock slot, at most one cel per
    frame, one duration per frame) with a transparent layer holding one
    cel.  [flattenLayers] creates the background layer through the
    journal ([undo_add_layer], [undo_move_layer]), but fills its frame
    with a raw [Stock::addImage] and a raw [background->addCel], neither
    journaled (the sibling [backgroundFromLayer] goes through
    [addImageInStock] and [addCel]).  Destroying the transaction without
    commit removes the new layer again, so the layer tree, the selection,
    the frames and the mask are as before, but the stock keeps the new
    slot 2, holding the rendered image, that it did not have before. *)
Theorem C1_flatten_rollback_keeps_unjournaled_stock_slot :
  getBackgroundLayer ex_one_layer = None /\
  stock_refs_live ex_one_layer = true /\
  Forall (cels_wf (spr_frames ex_one_layer)) (image_cels (spr_folder ex_one_layer)) /\
  0 <= spr_frame ex_one_layer < spr_frames ex_one_layer /\
  List.length (spr_frlens ex_one_layer) = Z.to_nat (spr_frames ex_one_layer) /\
  exists s', transaction_run (fun en => flattenLayers en 0) (mkSt ex_one_layer ex_hist_idle [])
               = Some (tt, s') /\
    spr_folder (s_spr s') = spr_folder ex_one_layer /\
    spr_layer (s_spr s') = spr_layer ex_one_layer /\
    spr_frames (s_spr s') = spr_frames ex_one_layer /\
    spr_frlens (s_spr s') = spr_frlens ex_one_layer /\
    spr_frame (s_spr s') = spr_frame ex_one_layer /\
    spr_mask (s_spr s') = spr_mask ex_one_layer /\
    stock_get (spr_stock ex_one_layer) 2 = None /\
    stock_get (spr_stock (s_spr s')) 2 = Some (mkImage IMAGE_RGB 2 2 [7; 7; 7; 7]) /\
    List.length (spr_stock ex_one_layer) = 2%nat /\
    List.length (spr_stock (s_spr s')) = 3%nat /\
    h_open (s_hist s') = None /\ h_undo (s_hist s') = [] /\ h_redo (s_hist s') = [].
Proof.
  split; [vm_compute; reflexivity|]. split; [vm_compute; reflexivity|].
  split.
  { vm_compute. repeat constructor; [intros []|discriminate]. }
  split; [simpl; lia|]. split; [vm_compute; reflexivity|].
  eexists. split; [vm_compute; reflexivity|].
  repeat split; vm_compute; reflexivity.
Qed.

(** ** C9: setImgType *)

Section ImgType.
Context `{PS : PixelSurface}.

Lemma hist_ok_mutate en k f s : hist_ok en s -> hist_ok en (mkSt (f (s_spr s)) (s_hist s) (s_trace s ++ [EvMut k])).
Proof. auto. Qed.

Lemma replaceStockImage_ok en s idx img new_image :
  hist_ok en s -> stock_get (spr_stock (s_spr s)) idx = Some img ->
  exists s', replaceStockImage en idx new_image s = Some (tt, s') /\ hist_ok en s' /\
    s_spr s' = set_stock (stock_set idx (Some new_image) (spr_stock (s_spr s))) (s_spr s).
Proof.
  intros Hok Himg. unfold replaceStockImage.
  rewrite (bind_some _ _ s (s_spr s) s) by reflexivity.
  rewrite (bind_some _ _ s img s) by (unfold some; rewrite Himg; reflexivity).
  destruct (when_record en (UndoReplaceImage idx img) s Hok) as [s1 [H1 [Hs1 [Hok1 _]]]].
  rewrite (bind_some _ _ _ _ _ H1). unfold mutate.
  eexists. split; [reflexivity|]. split; [exact Hok1|]. simpl. rewrite Hs1. reflexivity.
Qed.

Lemma set_stock_set_stock k1 k2 b : set_stock k1 (set_stock k2 b) = set_stock k1 b.
Proof. destruct b; reflexivity. Qed.

Lemma stock_get_nat k (c : nat) :
  stock_get k (Z.of_nat c) = match nth_error k c with Some o => o | None => None end.
Proof.
  unfold stock_get. replace (Z.of_nat c <? 0) with false by (symmetry; apply Z.ltb_ge; lia).
  rewrite Nat2Z.id. reflexivity.
Qed.

Lemma stock_set_nat (c : nat) o k : stock_set (Z.of_nat c) o k = upd_nth c o k.
Proof. unfold stock_set. rewrite Nat2Z.id. reflexivity. Qed.

(** The conversion loop of [setImgType]: the slots [c, c + n) are
    converted one after the other; nothing else of the sprite changes. *)
Lemma setImgType_loop en new_imgtype dithering_method base K :
  let conv := fun img => convert_imgtype img new_imgtype dithering_method
                (spr_palettes base) (spr_frame base)
                (match getBackgroundLayer base with Some _ => true | None => false end) in
  forall n c s stk,
  hist_ok en s -> s_spr s = set_stock stk base ->
  List.length stk = List.length K -> (c + n = List.length K)%nat ->
  (forall i, nth_error stk i =
             if (i <? c)%nat then option_map (option_map conv) (nth_error K i) else nth_error K i) ->
  exists s', for_up n (Z.of_nat c)
    (fun c =>
       s <- get_sprite ;;
       match stock_get (spr_stock s) c with
       | None => ret tt
       | Some old_image =>
           let new_image :=
             convert_imgtype old_image new_imgtype dithering_method
               (spr_palettes s) (spr_frame s)
               (match getBackgroundLayer s with Some _ => true | None => false end) in
           replaceStockImage en c new_image
       end) s = Some (tt, s') /\
    hist_ok en s' /\ s_spr s' = set_stock (map (option_map conv) K) base.
Proof.
  intros conv n. induction n as [|n IH]; intros c s stk Hok Hs Hlen Hcn Hstk.
  - exists s. split; [reflexivity|]. split; [exact Hok|]. rewrite Hs. f_equal.
    apply nth_error_ext. intros i. rewrite Hstk, nth_error_map.
    destruct (Nat.ltb_spec i c); [reflexivity|].
    rewrite (proj2 (nth_error_None K i)) by lia. reflexivity.
  - simpl for_up. unfold bind at 1 2. cbn [gets get_sprite].
    assert (Hc : nth_error stk c = nth_error K c)
      by (rewrite Hstk; destruct (Nat.ltb_spec c c); [lia|reflexivity]).
    destruct (nth_error K c) as [o|] eqn:HK;
      [|exfalso; apply nth_error_None in HK; lia].
    assert (Hg : stock_get (spr_stock (s_spr s)) (Z.of_nat c) = o)
      by (rewrite Hs; cbn [spr_stock set_stock]; rewrite stock_get_nat, Hc; reflexivity).
    rewrite Hg.
    destruct o as [img|].
    + destruct (replaceStockImage_ok en s (Z.of_nat c) img
                  (convert_imgtype img new_imgtype dithering_method
                     (spr_palettes (s_spr s)) (spr_frame (s_spr s))
                     (match getBackgroundLayer (s_spr s) with Some _ => true | None => false end))
                  Hok Hg) as [s1 [H1 [Hok1 Hs1]]].
      rewrite H1.
      replace (Z.of_nat c + 1) with (Z.of_nat (S c)) by lia.
      rewrite Hs in Hs1. cbn [spr_stock spr_palettes spr_frame set_stock] in Hs1.
      rewrite set_stock_set_stock, stock_set_nat in Hs1.
      change (getBackgroundLayer (set_stock stk base)) with (getBackgroundLayer base) in Hs1.
      apply (IH (S c) s1 _ Hok1 Hs1).
      * rewrite upd_nth_length. exact Hlen.
      * lia.
      * intros i. destruct (Nat.eq_dec i c) as [->|Hne].
        -- rewrite nth_error_upd_nth_eq by (apply nth_error_Some; congruence).
           replace (c <? S c)%nat with true
             by (symmetry; apply Nat.ltb_lt; lia). rewrite HK. reflexivity.
        -- rewrite nth_error_upd_nth_neq by congruence. rewrite Hstk.
           destruct (Nat.ltb_spec i c), (Nat.ltb_spec i (S c)); try reflexivity; lia.
    + cbn [ret].
      replace (Z.of_nat c + 1) with (Z.of_nat (S c)) by lia.
      apply (IH (S c) s stk Hok Hs Hlen); [lia|].
      intros i. rewrite Hstk. destruct (Nat.eq_dec i c) as [->|Hne].
      * rewrite Nat.ltb_irrefl. replace (c <? S c)%nat with true
          by (symmetry; apply Nat.ltb_lt; lia). rewrite HK. reflexivity.
      * destruct (Nat.ltb_spec i c), (Nat.ltb_spec i (S c)); try reflexivity; lia.
Qed.

(** C9: [setImgType] to the image type the sprite already has returns
    at once: no journal record, no mutation.  To another type it converts
    every live stock image (with the palettes, current frame and
    background flag of the sprite on entry) and replaces it in its slot,
    sets the stock's and the sprite's image type, and replaces the
    palettes by the single generated grayscale palette exactly when the
    target is [IMAGE_GRAYSCALE]; any other target leaves the palettes as
    they were.  Layers, frames and selection are untouched. *)
Theorem C9_setImgType_spec en s new_imgtype dithering_method :
  hist_ok en s ->
  (spr_imgtype (s_spr s) = new_imgtype ->
     setImgType en new_imgtype dithering_method s = Some (tt, s)) /\
  (spr_imgtype (s_spr s) <> new_imgtype ->
     exists s', setImgType en new_imgtype dithering_method s = Some (tt, s') /\
       spr_stock (s_spr s') =
         map (option_map (fun img => convert_imgtype img new_imgtype dithering_method
                           (spr_palettes (s_spr s)) (spr_frame (s_spr s))
                           (match getBackgroundLayer (s_spr s) with Some _ => true | None => false end)))
             (spr_stock (s_spr s)) /\
       spr_stock_imgtype (s_spr s') = new_imgtype /\
       spr_imgtype (s_spr s') = new_imgtype /\
       spr_palettes (s_spr s') =
         (if new_imgtype =? IMAGE_GRAYSCALE then [palette_grayscale] else spr_palettes (s_spr s)) /\
       spr_folder (s_spr s') = spr_folder (s_spr s) /\
       spr_frames (s_spr s') = spr_frames (s_spr s) /\
       spr_frlens (s_spr s') = spr_frlens (s_spr s) /\
       spr_frame (s_spr s') = spr_frame (s_spr s) /\
       spr_layer (s_spr s') = spr_layer (s_spr s) /\
       spr_mask (s_spr s') = spr_mask (s_spr s)).
Proof.
  intros Hok. split; intros Heq.
  - unfold setImgType. rewrite get_sprite_bind. apply Z.eqb_eq in Heq. rewrite Heq. reflexivity.
  - apply Z.eqb_neq in Heq. unfold setImgType. rewrite get_sprite_bind. rewrite Heq.
    destruct (when_record en (UndoStockImgType (spr_stock_imgtype (s_spr s))) s Hok)
      as [s1 [H1 [Hs1 [Hok1 _]]]].
    rewrite (bind_some _ _ _ _ _ H1), mutate_bind, gets_bind. cbn [s_spr]. rewrite Hs1.
    set (base := set_stock_imgtype new_imgtype (s_spr s)).
    set (s1' := mkSt base (s_hist s1) (s_trace s1 ++ [EvMut MutStockImgType])).
    destruct (setImgType_loop en new_imgtype dithering_method base (spr_stock (s_spr s))
                (List.length (spr_stock (s_spr s))) O s1' (spr_stock (s_spr s)))
      as [s2 [H2 [Hok2 Hs2]]].
    + exact Hok1.
    + unfold s1', base. simpl. destruct (s_spr s); reflexivity.
    + reflexivity.
    + reflexivity.
    + intros i. reflexivity.
    + change (Z.of_nat 0) with 0 in H2.
      rewrite (bind_some _ _ _ _ _ H2), get_sprite_bind.
      destruct (when_record en (UndoSetImgType (spr_imgtype (s_spr s2))) s2 Hok2)
        as [s3 [H3 [Hs3 [Hok3 _]]]].
      rewrite (bind_some _ _ _ _ _ H3), mutate_bind. cbn [s_spr].
      destruct (new_imgtype =? IMAGE_GRAYSCALE).
      * rewrite get_sprite_bind.
        edestruct (when_fold_record en UndoRemovePalette
                     (spr_palettes (set_imgtype new_imgtype (s_spr s3))) _
                     (hist_ok_mutate en MutImgType (set_imgtype new_imgtype) s3 Hok3))
          as [s4 [H4 [Hs4 _]]].
        rewrite (bind_some _ _ _ _ _ H4), mutate_bind. unfold mutate.
        eexists. split; [reflexivity|]. cbn [s_spr]. rewrite Hs4. cbn [s_spr].
        rewrite Hs3, Hs2. unfold base.
        repeat split; reflexivity.
      * unfold ret. eexists. split; [reflexivity|]. cbn [s_spr].
        rewrite Hs3, Hs2. unfold base.
        repeat split; reflexivity.
Qed.

End ImgType.

Lemma C9_setImgType_spec_witness :
  hist_ok true (mkSt ex_one_layer ex_hist_open []) /\
  (spr_imgtype ex_one_layer = IMAGE_GRAYSCALE ->
     setImgType true IMAGE_GRAYSCALE 0 (mkSt ex_one_layer ex_hist_open []) =
       Some (tt, mkSt ex_one_layer ex_hist_open [])) /\
  (spr_imgtype ex_one_layer <> IMAGE_GRAYSCALE ->
     exists s', setImgType true IMAGE_GRAYSCALE 0 (mkSt ex_one_layer ex_hist_open []) = Some (tt, s') /\
       spr_stock (s_spr s') =
         map (option_map (fun img => convert_imgtype img IMAGE_GRAYSCALE 0
                           (spr_palettes ex_one_layer) (spr_frame ex_one_layer)
                           (match getBackgroundLayer ex_one_layer with Some _ => true | None => false end)))
             (spr_stock ex_one_layer) /\
       spr_stock_imgtype (s_spr s') = IMAGE_GRAYSCALE /\
       spr_imgtype (s_spr s') = IMAGE_GRAYSCALE /\
       spr_palettes (s_spr s') =
         (if IMAGE_GRAYSCALE =? IMAGE_GRAYSCALE then [palette_grayscale]
          else spr_palettes ex_one_layer) /\
       spr_folder (s_spr s') = spr_folder ex_one_layer /\
       spr_frames (s_spr s') = spr_frames ex_one_layer /\
       spr_frlens (s_spr s') = spr_frlens ex_one_layer /\
       spr_frame (s_spr s') = spr_frame ex_one_layer /\
       spr_layer (s_spr s') = spr_layer ex_one_layer /\
       spr_mask (s_spr s') = spr_mask ex_one_layer).
Proof.
  assert (H : hist_ok true (mkSt ex_one_layer ex_hist_open [])) by (intros _; vm_compute; discriminate).
  split; [exact H|].
  exact (C9_setImgType_spec true (mkSt ex_one_layer ex_hist_open []) IMAGE_GRAYSCALE 0 H).
Defined.

(** ** Computations that keep the current frame *)

Definition keeps_frame {A} (m : M A) : Prop :=
  forall s a s', m s = Some (a, s') -> spr_frame (s_spr s') = spr_frame (s_spr s).

Create HintDb keeps_frame.

Lemma kf_ret {A} (a : A) : keeps_frame (ret a).
Proof. intros s a' s' H. inversion H. reflexivity. Qed.

Lemma kf_fail {A} : keeps_frame (@fail A).
Proof. intros s a s' H. discriminate. Qed.

Lemma kf_bind {A B} (m : M A) (k : A -> M B) :
  keeps_frame m -> (forall a, keeps_frame (k a)) -> keeps_frame (bind m k).
Proof.
  intros Hm Hk s b s' H. unfold bind in H.
  destruct (m s) as [[a s1]|] eqn:E; [|discriminate].
  rewrite (Hk a s1 b s' H). exact (Hm s a s1 E).
Qed.

Lemma kf_record r : keeps_frame (record r).
Proof.
  intros s a s' H. unfold record in H. destruct (h_open (s_hist s)); inversion H; reflexivity.
Qed.

Lemma kf_touch k : keeps_frame (touch k).
Proof. intros s a s' H. inversion H. reflexivity. Qed.

Lemma kf_when b m : keeps_frame m -> keeps_frame (when b m).
Proof. intros Hm. destruct b; [exact Hm|apply kf_ret]. Qed.

Lemma kf_some {A} (o : option A) : keeps_frame (some o).
Proof. destruct o; [apply kf_ret|apply kf_fail]. Qed.

Lemma kf_assert b : keeps_frame (assert b).
Proof. destruct b; [apply kf_ret|apply kf_fail]. Qed.

Lemma kf_gets {A} (f : sprite -> A) : keeps_frame (gets f).
Proof. intros s a s' H. inversion H. reflexivity. Qed.

Lemma kf_get_sprite : keeps_frame get_sprite.
Proof. apply kf_gets. Qed.

Lemma kf_mutate k f : (forall sp, spr_frame (f sp) = spr_frame sp) -> keeps_frame (mutate k f).
Proof. intros Hf s a s' H. inversion H. apply Hf. Qed.

Lemma kf_put_sprite f : (forall sp, spr_frame (f sp) = spr_frame sp) -> keeps_frame (put_sprite f).
Proof. intros Hf s a s' H. inversion H. apply Hf. Qed.

Lemma kf_fold_list {A B} (xs : list B) (body : B -> A -> M A) a :
  (forall x a, keeps_frame (body x a)) -> keeps_frame (fold_list xs body a).
Proof.
  intros Hb. revert a; induction xs as [|x xs IH]; intros a; simpl.
  - apply kf_ret.
  - apply kf_bind; auto.
Qed.

Lemma kf_traverse step :
  (forall id cs, keeps_frame (step id cs)) -> forall l, keeps_frame (traverse step l).
Proof.
  intros Hs l. induction l as [id bg cs | id ch IH] using layer_ind_nested; simpl.
  - apply kf_bind; [apply Hs|intros; apply kf_ret].
  - apply kf_bind; [|intros; apply kf_ret].
    induction IH as [|c cs Hc _ IHcs]; simpl.
    + apply kf_ret.
    + apply kf_bind; [exact Hc|intros]. apply kf_bind; [exact IHcs|intros; apply kf_ret].
Qed.

#[export] Hint Resolve kf_ret kf_fail kf_record kf_touch kf_some kf_assert kf_gets
  kf_get_sprite : keeps_frame.

Ltac keeps_frame_tac :=
  repeat match goal with
  | |- keeps_frame (bind _ _) => apply kf_bind; [|intro]
  | |- keeps_frame (when _ _) => apply kf_when
  | |- keeps_frame (fold_list _ _ _) => apply kf_fold_list; intros
  | |- keeps_frame (mutate _ _) => apply kf_mutate; intro; reflexivity
  | |- keeps_frame (put_sprite _) => apply kf_put_sprite; intro; reflexivity
  | |- keeps_frame (if ?b then _ else _) => destruct b
  | |- keeps_frame (match ?x with _ => _ end) => destruct x
  | |- keeps_frame _ => solve [auto with keeps_frame]
  end.

Section KeepsFrame.
Context `{PS : PixelSurface}.
Variable en : bool.

Lemma kf_setSpriteSize w h : keeps_frame (setSpriteSize en w h).
Proof. unfold setSpriteSize. keeps_frame_tac. Qed.

Lemma kf_setCelPosition lid cels pos x y : keeps_frame (setCelPosition en lid cels pos x y).
Proof. unfold setCelPosition. keeps_frame_tac. Qed.

Lemma kf_replaceStockImage idx img : keeps_frame (replaceStockImage en idx img).
Proof. unfold replaceStockImage. keeps_frame_tac. Qed.

Lemma kf_setMaskPosition x y : keeps_frame (setMaskPosition en x y).
Proof. unfold setMaskPosition. keeps_frame_tac. Qed.

#[local] Hint Resolve kf_setSpriteSize kf_setCelPosition kf_replaceStockImage
  kf_setMaskPosition : keeps_frame.

Lemma kf_cropCel lid cels pos x y w h bg : keeps_frame (cropCel en lid cels pos x y w h bg).
Proof. unfold cropCel. keeps_frame_tac. Qed.

#[local] Hint Resolve kf_cropCel : keeps_frame.

Lemma kf_cropLayer l x y w h bg : keeps_frame (cropLayer en l x y w h bg).
Proof. unfold cropLayer. keeps_frame_tac. Qed.

Lemma kf_displaceLayers l dx dy : keeps_frame (displaceLayers en l dx dy).
Proof.
  unfold displaceLayers. apply kf_traverse. intros id cs. unfold displaceImage.
  keeps_frame_tac.
Qed.

#[local] Hint Resolve kf_cropLayer kf_displaceLayers : keeps_frame.

Lemma kf_cropSprite x y w h bg : keeps_frame (cropSprite en x y w h bg).
Proof. unfold cropSprite. keeps_frame_tac. Qed.

End KeepsFrame.

(** ** C10: autocropSprite *)

(** Computations that change nothing but the current frame. *)
Definition only_frame {A} (m : M A) : Prop :=
  forall s a s', m s = Some (a, s') ->
    s_hist s' = s_hist s /\ set_frame (spr_frame (s_spr s)) (s_spr s') = s_spr s.

Lemma set_frame_set_frame a b sp : set_frame a (set_frame b sp) = set_frame a sp.
Proof. reflexivity. Qed.

Lemma set_frame_same sp : set_frame (spr_frame sp) sp = sp.
Proof. destruct sp; reflexivity. Qed.

Lemma of_ret {A} (a : A) : only_frame (ret a).
Proof. intros s a' s' H. inversion H. split; [reflexivity|apply set_frame_same]. Qed.

Lemma of_gets {A} (f : sprite -> A) : only_frame (gets f).
Proof. intros s a' s' H. inversion H. split; [reflexivity|apply set_frame_same]. Qed.

Lemma of_set_frame k f : only_frame (mutate k (set_frame f)).
Proof.
  intros s a s' H. inversion H. split; [reflexivity|]. simpl.
  rewrite set_frame_set_frame. apply set_frame_same.
Qed.

Lemma of_bind {A B} (m : M A) (k : A -> M B) :
  only_frame m -> (forall a, only_frame (k a)) -> only_frame (bind m k).
Proof.
  intros Hm Hk s b s' H. unfold bind in H.
  destruct (m s) as [[a s1]|] eqn:E; [|discriminate].
  destruct (Hm s a s1 E) as [Hh1 Hs1]. destruct (Hk a s1 b s' H) as [Hh2 Hs2].
  split; [congruence|].
  rewrite <- Hs1, <- Hs2, !set_frame_set_frame. reflexivity.
Qed.

Lemma of_fold_up {A} n from (body : Z -> A -> M A) a :
  (forall f a, only_frame (body f a)) -> only_frame (fold_up n from body a).
Proof.
  intros Hb. revert from a; induction n as [|n IH]; intros from a; simpl.
  - apply of_ret.
  - apply of_bind; auto.
Qed.

Section Autocrop.
Context `{PS : PixelSurface}.

Lemma autocrop_scan_only_frame image : only_frame (autocrop_scan image).
Proof.
  unfold autocrop_scan. apply of_bind; [apply of_gets|intros total].
  apply of_fold_up. intros f [[[x1 y1] x2] y2].
  apply of_bind; [apply of_set_frame|intros _].
  apply of_bind; [apply of_gets|intros sp].
  destruct (image_shrink_rect _ _) as [[[[u1 v1] u2] v2]|]; apply of_ret.
Qed.

(** C10: the per-frame scan of [autocropSprite] moves the current frame
    over every frame, and the saved frame is restored before the box is
    tested: whenever [autocropSprite] completes, the current frame is the
    one it had on entry.  When the union of the frames' boxes is empty,
    [autocropSprite] leaves the sprite and the journal exactly as they
    were. *)
Theorem C10_autocrop_keeps_current_frame en bgcolor s :
  (forall s', autocropSprite en bgcolor s = Some (tt, s') ->
              spr_frame (s_spr s') = spr_frame (s_spr s)) /\
  (forall x1 y1 x2 y2 s1,
     autocrop_scan (image_new (spr_imgtype (s_spr s)) (spr_width (s_spr s))
                              (spr_height (s_spr s))) s = Some ((x1, y1, x2, y2), s1) ->
     x2 < x1 \/ y2 < y1 ->
     exists s', autocropSprite en bgcolor s = Some (tt, s') /\
                s_spr s' = s_spr s /\ s_hist s' = s_hist s).
Proof.
  split.
  - intros s' H. unfold autocropSprite in H. rewrite get_sprite_bind in H.
    unfold bind at 1 in H.
    destruct (autocrop_scan _ s) as [[[[[x1 y1] x2] y2] s1]|] eqn:E; [|discriminate].
    cbv beta iota in H. rewrite mutate_bind in H.
    destruct ((x2 <? x1) || (y2 <? y1)).
    + inversion H. reflexivity.
    + apply (kf_cropSprite en _ _ _ _ _ _ _ _ H).
  - intros x1 y1 x2 y2 s1 E Hempty. unfold autocropSprite. rewrite get_sprite_bind.
    rewrite (bind_some _ _ _ _ _ E). cbv beta iota. rewrite mutate_bind.
    replace ((x2 <? x1) || (y2 <? y1)) with true
      by (symmetry; apply orb_true_iff; destruct Hempty; [left|right]; apply Z.ltb_lt; assumption).
    eexists. split; [reflexivity|].
    destruct (autocrop_scan_only_frame _ s _ s1 E) as [Hh Hs].
    split; [exact Hs|exact Hh].
Qed.

End Autocrop.

Lemma C10_autocrop_keeps_current_frame_witness :
  exists s1, autocrop_scan (image_new IMAGE_RGB 2 2) (mkSt ex_one_layer ex_hist_open [])
               = Some ((INT_MAX, INT_MAX, INT_MIN, INT_MIN), s1) /\
    INT_MIN < INT_MAX /\
    exists s', autocropSprite true 0 (mkSt ex_one_layer ex_hist_open []) = Some (tt, s') /\
               s_spr s' = ex_one_layer /\ s_hist s' = ex_hist_open /\
               spr_frame (s_spr s') = spr_frame ex_one_layer.
Proof.
  assert (E : exists s1, autocrop_scan (image_new IMAGE_RGB 2 2) (mkSt ex_one_layer ex_hist_open [])
                         = Some ((INT_MAX, INT_MAX, INT_MIN, INT_MIN), s1))
    by (eexists; vm_compute; reflexivity).
  destruct E as [s1 E]. exists s1. split; [exact E|].
  assert (Hlt : INT_MIN < INT_MAX) by (vm_compute; reflexivity).
  split; [exact Hlt|].
  destruct (proj2 (C10_autocrop_keeps_current_frame true 0 (mkSt ex_one_layer ex_hist_open []))
              INT_MAX INT_MAX INT_MIN INT_MIN s1 E (or_introl Hlt))
    as [s' [H [Hs Hh]]].
  exists s'. split; [exact H|]. split; [exact Hs|]. split; [exact Hh|].
  exact (proj1 (C10_autocrop_keeps_current_frame true 0 (mkSt ex_one_layer ex_hist_open [])) s' H).
Defined.

(** ** Traversals of the layer tree *)

(** A traversal whose step rewrites the cels of each image layer by a
    pure function [g], under an invariant [Inv] on the state and the
    layers still to be visited (in the order of the traversal). *)
Section TraverseSim.
Variable step : nat -> list cel -> M (list cel).
Variable g : list cel -> list cel.
Variable Inv : st -> list layer -> Prop.
Hypothesis Hstep : forall id bg cs rest s,
  Inv s (LayerImage id bg cs :: rest) -> exists s', step id cs s = Some (g cs, s') /\ Inv s' rest.
Hypothesis Hfolder : forall id ch rest s,
  Inv s (LayerFolder id ch :: rest) -> Inv s (ch ++ rest).

Lemma traverse_sim l : forall rest s, Inv s (l :: rest) ->
  exists s', traverse step l s = Some (map_image_cels g l, s') /\ Inv s' rest.
Proof.
  induction l as [id bg cs | id ch IH] using layer_ind_nested; intros rest s Hinv; simpl.
  - destruct (Hstep _ _ _ _ _ Hinv) as [s' [H1 H2]].
    rewrite (bind_some _ _ _ _ _ H1). exists s'. auto.
  - apply Hfolder in Hinv.
    assert (Hch : forall rest s, Inv s (ch ++ rest) ->
              exists s', mapM_layers (traverse step) ch s = Some (map (map_image_cels g) ch, s')
                         /\ Inv s' rest).
    { clear Hinv s rest. induction IH as [|c cs Hc _ IHcs]; intros rest s Hinv; simpl.
      - exists s. auto.
      - destruct (Hc (cs ++ rest) s Hinv) as [s1 [H1 Hinv1]].
        rewrite (bind_some _ _ _ _ _ H1).
        destruct (IHcs rest s1 Hinv1) as [s2 [H2 Hinv2]].
        rewrite (bind_some _ _ _ _ _ H2). exists s2. auto. }
    destruct (Hch rest s Hinv) as [s' [H1 H2]].
    rewrite (bind_some _ _ _ _ _ H1). exists s'. auto.
Qed.
End TraverseSim.

(** ** C7: moveFrameBefore *)

Lemma nth_upd_nth_eq {A} (l : list A) (n : nat) x d :
  (n < List.length l)%nat -> nth n (upd_nth n x l) d = x.
Proof.
  revert n; induction l as [|h t IH]; intros [|n] Hn; simpl in *; try lia; auto.
  apply IH. lia.
Qed.

Lemma nth_upd_nth_neq {A} (l : list A) (n m : nat) x d :
  n <> m -> nth m (upd_nth n x l) d = nth m l d.
Proof.
  revert n m; induction l as [|h t IH]; intros [|n] [|m] Hnm; simpl; auto; try lia.
Qed.

Lemma set_frlens_set_frlens a b sp : set_frlens a (set_frlens b sp) = set_frlens a sp.
Proof. reflexivity. Qed.

Lemma set_frlens_same sp : set_frlens (spr_frlens sp) sp = sp.
Proof. destruct sp; reflexivity. Qed.

Lemma setFrameDuration_spr_rest c v sp :
  set_frlens (spr_frlens (setFrameDuration_spr c v sp)) sp = setFrameDuration_spr c v sp.
Proof.
  unfold setFrameDuration_spr. destruct ((0 <=? c) && (c <? spr_frames sp));
    [reflexivity|apply set_frlens_same].
Qed.

Lemma setFrameDuration_spr_frlens_length c v sp :
  List.length (spr_frlens (setFrameDuration_spr c v sp)) = List.length (spr_frlens sp).
Proof.
  unfold setFrameDuration_spr. destruct ((0 <=? c) && (c <? spr_frames sp));
    [apply upd_nth_length|reflexivity].
Qed.

Lemma getFrameDuration_set sp c v x :
  0 <= c < spr_frames sp -> List.length (spr_frlens sp) = Z.to_nat (spr_frames sp) ->
  getFrameDuration (setFrameDuration_spr c v sp) x =
  if x =? c then v else getFrameDuration sp x.
Proof.
  intros Hc Hlen. unfold setFrameDuration_spr.
  replace ((0 <=? c) && (c <? spr_frames sp)) with true
    by (symmetry; apply andb_true_iff; split; [apply Z.leb_le|apply Z.ltb_lt]; lia).
  unfold getFrameDuration. cbn [spr_frames spr_frlens set_frlens].
  destruct (Z.eqb_spec x c) as [->|Hne].
  - replace ((0 <=? c) && (c <? spr_frames sp)) with true
      by (symmetry; apply andb_true_iff; split; [apply Z.leb_le|apply Z.ltb_lt]; lia).
    apply nth_upd_nth_eq. lia.
  - destruct ((0 <=? x) && (x <? spr_frames sp)) eqn:Hx; [|reflexivity].
    apply andb_true_iff in Hx. destruct Hx as [Hx1 Hx2].
    apply Z.leb_le in Hx1. apply nth_upd_nth_neq. lia.
Qed.

Lemma setFrameDuration_ok en c v s :
  hist_ok en s ->
  exists s', setFrameDuration en c v s = Some (tt, s') /\ hist_ok en s' /\
             s_spr s' = setFrameDuration_spr c v (s_spr s).
Proof.
  intros Hok. unfold setFrameDuration. rewrite get_sprite_bind.
  destruct (when_record en (UndoFrlen c (getFrameDuration (s_spr s) c)) s Hok)
    as [s1 [H1 [Hs1 [Hok1 _]]]].
  rewrite (bind_some _ _ _ _ _ H1). unfold mutate.
  eexists. split; [reflexivity|]. split; [exact Hok1|]. simpl. rewrite Hs1. reflexivity.
Qed.

(** The invariant of the duration loops: only the durations differ from
    [sp0], the number of durations is the number of frames. *)
Definition frlens_only (sp0 sp : sprite) : Prop :=
  set_frlens (spr_frlens sp) sp0 = sp /\
  List.length (spr_frlens sp) = Z.to_nat (spr_frames sp0).

Lemma frlens_only_set sp0 sp c v :
  frlens_only sp0 sp -> frlens_only sp0 (setFrameDuration_spr c v sp).
Proof.
  intros [H1 H2]. split.
  - transitivity (set_frlens (spr_frlens (setFrameDuration_spr c v sp)) sp);
      [|apply setFrameDuration_spr_rest].
    generalize (spr_frlens (setFrameDuration_spr c v sp)). intros X.
    rewrite <- H1. reflexivity.
  - rewrite setFrameDuration_spr_frlens_length. exact H2.
Qed.

Lemma frlens_only_frames sp0 sp : frlens_only sp0 sp -> spr_frames sp = spr_frames sp0.
Proof. intros [H1 _]. rewrite <- H1. reflexivity. Qed.

Lemma frlen_forward_loop en frame before_frame sp0 : forall n k s,
  hist_ok en s -> frlens_only sp0 (s_spr s) ->
  Z.of_nat n = before_frame - 1 - k -> frame <= k -> 0 <= frame ->
  before_frame <= spr_frames sp0 ->
  (forall x, getFrameDuration (s_spr s) x =
             if (frame <=? x) && (x <? k) then getFrameDuration sp0 (x + 1)
             else getFrameDuration sp0 x) ->
  exists s', for_up n k (fun c => s <- get_sprite ;;
                                  setFrameDuration en c (getFrameDuration s (c + 1))) s
             = Some (tt, s') /\
    hist_ok en s' /\ frlens_only sp0 (s_spr s') /\
    (forall x, getFrameDuration (s_spr s') x =
               if (frame <=? x) && (x <? before_frame - 1) then getFrameDuration sp0 (x + 1)
               else getFrameDuration sp0 x).
Proof.
  induction n as [|n IH]; intros k s Hok Hfo Hn Hk Hf Hb Hgd; simpl for_up.
  - exists s. split; [reflexivity|]. split; [exact Hok|]. split; [exact Hfo|].
    replace (before_frame - 1) with k by lia. exact Hgd.
  - rewrite Nat2Z.inj_succ in Hn.
    unfold bind at 1. rewrite get_sprite_bind.
    destruct (setFrameDuration_ok en k (getFrameDuration (s_spr s) (k + 1)) s Hok)
      as [s1 [H1 [Hok1 Hs1]]].
    rewrite H1.
    pose proof (frlens_only_frames _ _ Hfo) as Hfr.
    destruct (IH (k + 1) s1 Hok1) as [s' [H' Hrest]].
    + rewrite Hs1. apply frlens_only_set. exact Hfo.
    + lia.
    + lia.
    + exact Hf.
    + exact Hb.
    + intros x. rewrite Hs1, getFrameDuration_set; [| rewrite Hfr; lia | rewrite Hfr; apply Hfo].
      rewrite !Hgd.
      destruct (Z.eqb_spec x k) as [->|Hne].
      * replace ((frame <=? k + 1) && (k + 1 <? k)) with false
          by (symmetry; apply andb_false_iff; right; apply Z.ltb_ge; lia).
        replace ((frame <=? k) && (k <? k + 1)) with true
          by (symmetry; apply andb_true_iff; split; [apply Z.leb_le|apply Z.ltb_lt]; lia).
        reflexivity.
      * destruct (Z.leb_spec frame x), (Z.ltb_spec x k), (Z.ltb_spec x (k + 1));
          simpl; try reflexivity; lia.
    + exists s'. split; [exact H'|exact Hrest].
Qed.

Lemma frlen_backward_loop en frame before_frame sp0 : forall n k s,
  hist_ok en s -> frlens_only sp0 (s_spr s) ->
  Z.of_nat n = k - before_frame -> k <= frame -> 0 <= before_frame ->
  frame < spr_frames sp0 ->
  (forall x, getFrameDuration (s_spr s) x =
             if (k <? x) && (x <=? frame) then getFrameDuration sp0 (x - 1)
             else getFrameDuration sp0 x) ->
  exists s', for_down n k (fun c => s <- get_sprite ;;
                                    setFrameDuration en c (getFrameDuration s (c - 1))) s
             = Some (tt, s') /\
    hist_ok en s' /\ frlens_only sp0 (s_spr s') /\
    (forall x, getFrameDuration (s_spr s') x =
               if (before_frame <? x) && (x <=? frame) then getFrameDuration sp0 (x - 1)
               else getFrameDuration sp0 x).
Proof.
  induction n as [|n IH]; intros k s Hok Hfo Hn Hk Hb Hf Hgd; simpl for_down.
  - exists s. split; [reflexivity|]. split; [exact Hok|]. split; [exact Hfo|].
    replace before_frame with k by lia. exact Hgd.
  - rewrite Nat2Z.inj_succ in Hn.
    unfold bind at 1. rewrite get_sprite_bind.
    destruct (setFrameDuration_ok en k (getFrameDuration (s_spr s) (k - 1)) s Hok)
      as [s1 [H1 [Hok1 Hs1]]].
    rewrite H1.
    pose proof (frlens_only_frames _ _ Hfo) as Hfr.
    destruct (IH (k - 1) s1 Hok1) as [s' [H' Hrest]].
    + rewrite Hs1. apply frlens_only_set. exact Hfo.
    + lia.
    + lia.
    + exact Hb.
    + exact Hf.
    + intros x. rewrite Hs1, getFrameDuration_set; [| rewrite Hfr; lia | rewrite Hfr; apply Hfo].
      rewrite !Hgd.
      destruct (Z.eqb_spec x k) as [->|Hne].
      * replace ((k <? k - 1) && (k - 1 <=? frame)) with false
          by (symmetry; apply andb_false_iff; left; apply Z.ltb_ge; lia).
        replace ((k - 1 <? k) && (k <=? frame)) with true
          by (symmetry; apply andb_true_iff; split; [apply Z.ltb_lt|apply Z.leb_le]; lia).
        reflexivity.
      * destruct (Z.ltb_spec k x), (Z.ltb_spec (k - 1) x), (Z.leb_spec x frame);
          simpl; try reflexivity; lia.
    + exists s'. split; [exact H'|exact Hrest].
Qed.

Lemma set_cel_frame_same c : set_cel_frame (cel_frame c) c = c.
Proof. destruct c; reflexivity. Qed.

Lemma setCelFramePosition_ok en lid cels pos frame c s :
  hist_ok en s -> nth_error cels pos = Some c -> 0 <= frame ->
  exists s', setCelFramePosition en lid cels pos frame s =
               Some (upd_nth pos (set_cel_frame frame c) cels, s') /\
             hist_ok en s' /\ s_spr s' = s_spr s.
Proof.
  intros Hok Hc Hf. unfold setCelFramePosition.
  rewrite (bind_some _ _ s c s) by (unfold some; rewrite Hc; reflexivity).
  unfold assert. replace (0 <=? frame) with true by (symmetry; apply Z.leb_le; exact Hf).
  rewrite (bind_some _ _ s tt s) by reflexivity.
  destruct (when_record en (UndoCelFrame lid pos (cel_frame c)) s Hok) as [s1 [H1 [Hs1 [Hok1 _]]]].
  rewrite (bind_some _ _ _ _ _ H1). unfold touch, bind, ret.
  eexists. split; [reflexivity|]. split; [exact Hok1|exact Hs1].
Qed.

(** The new frame [moveFrameBeforeLayer] computes for a cel is the
    renumbering of [frame_move_spec]. *)
Lemma move_new_frame_spec frame before_frame x :
  frame <> before_frame ->
  (if frame <? before_frame then
     if x =? frame then before_frame - 1
     else if (frame <? x) && (x <? before_frame) then x - 1 else x
   else if before_frame <? frame then
     if x =? frame then before_frame
     else if (before_frame <=? x) && (x <? frame) then x + 1 else x
   else x) = frame_move_spec frame before_frame x.
Proof.
  intros Hne. unfold frame_move_spec.
  destruct (Z.ltb_spec frame before_frame); [reflexivity|].
  replace (before_frame <? frame) with true by (symmetry; apply Z.ltb_lt; lia).
  reflexivity.
Qed.

Lemma frame_move_spec_nonneg frame before_frame x :
  0 <= frame -> 0 <= before_frame -> frame <> before_frame ->
  frame_move_spec frame before_frame x <> x -> 0 <= frame_move_spec frame before_frame x.
Proof.
  intros Hf Hb Hne Hch. unfold frame_move_spec in *.
  destruct (Z.ltb_spec frame before_frame), (Z.eqb_spec x frame);
    try lia;
    destruct (Z.ltb_spec frame x), (Z.ltb_spec x before_frame), (Z.leb_spec before_frame x),
             (Z.ltb_spec x frame); simpl in *; lia.
Qed.

Lemma moveFrameBeforeImage_ok en frame before_frame lid cels s :
  hist_ok en s -> 0 <= frame -> 0 <= before_frame -> frame <> before_frame ->
  exists s', moveFrameBeforeImage en frame before_frame lid cels s =
    Some (map (fun c => set_cel_frame (frame_move_spec frame before_frame (cel_frame c)) c) cels, s')
    /\ hist_ok en s' /\ s_spr s' = s_spr s.
Proof.
  intros Hok Hf Hb Hne. unfold moveFrameBeforeImage.
  set (F := fun c => set_cel_frame (frame_move_spec frame before_frame (cel_frame c)) c).
  match goal with |- context [fold_list _ ?b _] => set (body := b) end.
  assert (Hloop : forall n k cs s0, hist_ok en s0 -> s_spr s0 = s_spr s ->
            (k + n = List.length cels)%nat -> List.length cs = List.length cels ->
            (forall i, nth_error cs i = if (i <? k)%nat then option_map F (nth_error cels i)
                                        else nth_error cels i) ->
            exists s', fold_list (seq k n) body cs s0 = Some (map F cels, s') /\
                       hist_ok en s' /\ s_spr s' = s_spr s).
  { induction n as [|n IH]; intros k cs s0 Hok0 Hs0 Hkn Hlen Hcs; simpl.
    - exists s0. split; [|auto]. unfold ret. f_equal. f_equal.
      apply nth_error_ext. intros i. rewrite Hcs, nth_error_map.
      destruct (Nat.ltb_spec i k); [reflexivity|].
      rewrite (proj2 (nth_error_None cels i)) by lia. reflexivity.
    - destruct (nth_error cels k) as [c|] eqn:Hc; [|apply nth_error_None in Hc; lia].
      assert (Hck : nth_error cs k = Some c) by (rewrite Hcs, Nat.ltb_irrefl; exact Hc).
      assert (Hnext : forall cs', List.length cs' = List.length cels ->
                (forall i, nth_error cs' i = if (i <? S k)%nat
                                             then option_map F (nth_error cels i)
                                             else nth_error cels i) ->
                forall s1, hist_ok en s1 -> s_spr s1 = s_spr s ->
                exists s', fold_list (seq (S k) n) body cs' s1 = Some (map F cels, s') /\
                           hist_ok en s' /\ s_spr s' = s_spr s)
        by (intros cs' Hl' Hcs' s1 Hok1 Hs1; apply IH; auto; lia).
      unfold body at 1. unfold bind at 1.
      rewrite (bind_some _ _ s0 c s0) by (unfold some; rewrite Hck; reflexivity).
      cbv zeta. rewrite move_new_frame_spec by exact Hne.
      destruct (Z.eqb_spec (cel_frame c) (frame_move_spec frame before_frame (cel_frame c)))
        as [Heq|Hneq]; cbn [negb].
      + unfold ret. apply Hnext; auto.
        intros i. rewrite Hcs. destruct (Nat.eq_dec i k) as [->|Hik].
        * rewrite Nat.ltb_irrefl. replace (k <? S k)%nat with true
            by (symmetry; apply Nat.ltb_lt; lia).
          rewrite Hc. simpl. unfold F. rewrite <- Heq, set_cel_frame_same. reflexivity.
        * destruct (Nat.ltb_spec i k), (Nat.ltb_spec i (S k)); try reflexivity; lia.
      + destruct (setCelFramePosition_ok en lid cs k _ c s0 Hok0 Hck
                    (frame_move_spec_nonneg frame before_frame (cel_frame c) Hf Hb Hne
                       (fun E => Hneq (eq_sym E))))
          as [s1 [H1 [Hok1 Hs1]]].
        rewrite H1. apply Hnext; [rewrite upd_nth_length; exact Hlen| |exact Hok1|congruence].
        intros i. destruct (Nat.eq_dec i k) as [->|Hik].
        * rewrite nth_error_upd_nth_eq by (apply nth_error_Some; congruence).
          replace (k <? S k)%nat with true by (symmetry; apply Nat.ltb_lt; lia).
          rewrite Hc. reflexivity.
        * rewrite nth_error_upd_nth_neq by congruence. rewrite Hcs.
          destruct (Nat.ltb_spec i k), (Nat.ltb_spec i (S k)); try reflexivity; lia. }
  destruct (Hloop (List.length cels) O cels s Hok eq_refl eq_refl eq_refl) as [s' [H1 H2]].
  - intros i. reflexivity.
  - exists s'. split; [exact H1|exact H2].
Qed.

(** Case analysis on every integer comparison of the goal, innermost first. *)
Ltac zatoms a b :=
  lazymatch a with context [if _ then _ else _] => fail | _ => idtac end;
  lazymatch b with context [if _ then _ else _] => fail | _ => idtac end.

Ltac zcases :=
  repeat match goal with
  | |- context [Z.eqb ?a ?b] => zatoms a b; destruct (Z.eqb_spec a b); cbn [andb orb negb]
  | |- context [Z.ltb ?a ?b] => zatoms a b; destruct (Z.ltb_spec a b); cbn [andb orb negb]
  | |- context [Z.leb ?a ?b] => zatoms a b; destruct (Z.leb_spec a b); cbn [andb orb negb]
  end; simpl; try (exfalso; lia); try reflexivity; try (f_equal; lia).

Lemma moveFrameBefore_cels en frame before_frame s :
  hist_ok en s -> 0 <= frame -> 0 <= before_frame -> frame <> before_frame ->
  exists s', (root <- gets spr_folder ;;
              root <- moveFrameBeforeLayer en root frame before_frame ;;
              put_sprite (set_folder root)) s = Some (tt, s') /\
    s_spr s' = set_folder (map_image_cels
                 (map (fun c => set_cel_frame (frame_move_spec frame before_frame (cel_frame c)) c))
                 (spr_folder (s_spr s))) (s_spr s).
Proof.
  intros Hok Hf Hb Hne. rewrite gets_bind. unfold moveFrameBeforeLayer.
  destruct (traverse_sim (moveFrameBeforeImage en frame before_frame)
              (map (fun c => set_cel_frame (frame_move_spec frame before_frame (cel_frame c)) c))
              (fun s1 _ => hist_ok en s1 /\ s_spr s1 = s_spr s))
    with (l := spr_folder (s_spr s)) (rest := @nil layer) (s := s) as [s1 [H1 [_ Hs1]]].
  - intros id bg cs rest s0 [Hok0 Hs0].
    destruct (moveFrameBeforeImage_ok en frame before_frame id cs s0 Hok0 Hf Hb Hne)
      as [s' [H' [Hok' Hs']]].
    exists s'. split; [exact H'|]. split; [exact Hok'|congruence].
  - intros id ch rest s0 H. exact H.
  - split; [exact Hok|reflexivity].
  - rewrite (bind_some _ _ _ _ _ H1). unfold put_sprite.
    eexists. split; [reflexivity|]. simpl. rewrite Hs1. reflexivity.
Qed.

(** C7: [moveFrameBefore(frame, before_frame)] does nothing when the two
    indices are equal or one of them is outside [0, totalFrames).
    Otherwise every cel of every image layer, at any depth of the tree,
    gets the frame [frame_move_spec frame before_frame] assigns to its
    frame: moving to the future, [frame] goes to [before_frame - 1] and the
    frames strictly between the two move one frame earlier; moving to the
    past, [frame] goes to [before_frame] and the frames from
    [before_frame] up to [frame] (excluded) move one frame later.  The
    durations are permuted by the same renumbering, and nothing else of
    the sprite changes. *)
Theorem C7_moveFrameBefore_spec en s frame before_frame :
  hist_ok en s ->
  List.length (spr_frlens (s_spr s)) = Z.to_nat (spr_frames (s_spr s)) ->
  ((frame = before_frame \/ frame < 0 \/ spr_frames (s_spr s) <= frame \/
    before_frame < 0 \/ spr_frames (s_spr s) <= before_frame) ->
     moveFrameBefore en frame before_frame s = Some (tt, s)) /\
  (frame <> before_frame -> 0 <= frame < spr_frames (s_spr s) ->
   0 <= before_frame < spr_frames (s_spr s) ->
   exists s', moveFrameBefore en frame before_frame s = Some (tt, s') /\
     spr_folder (s_spr s') =
       map_image_cels
         (map (fun c => set_cel_frame (frame_move_spec frame before_frame (cel_frame c)) c))
         (spr_folder (s_spr s)) /\
     spr_frames (s_spr s') = spr_frames (s_spr s) /\
     (forall x, 0 <= x < spr_frames (s_spr s) ->
        getFrameDuration (s_spr s') (frame_move_spec frame before_frame x) =
        getFrameDuration (s_spr s) x) /\
     set_folder (spr_folder (s_spr s)) (set_frlens (spr_frlens (s_spr s)) (s_spr s')) = s_spr s).
Proof.
  intros Hok Hlen. set (T := spr_frames (s_spr s)). split.
  - intros Hout. unfold moveFrameBefore. rewrite get_sprite_bind.
    replace (negb (frame =? before_frame) && (0 <=? frame) && (frame <? spr_frames (s_spr s))
             && (0 <=? before_frame) && (before_frame <? spr_frames (s_spr s))) with false
      by (fold T; zcases).
    reflexivity.
  - intros Hne Hf Hb. unfold moveFrameBefore. rewrite get_sprite_bind.
    replace (negb (frame =? before_frame) && (0 <=? frame) && (frame <? spr_frames (s_spr s))
             && (0 <=? before_frame) && (before_frame <? spr_frames (s_spr s))) with true
      by (fold T; zcases).
    cbv zeta.
    set (sp0 := s_spr s).
    assert (Hfo0 : frlens_only sp0 (s_spr s)) by (split; [apply set_frlens_same|exact Hlen]).
    (* the durations *)
    assert (Hdur : exists s2, (if frame <? before_frame then
        for_up (Z.to_nat (before_frame - 1 - frame)) frame
          (fun c => s <- get_sprite ;; setFrameDuration en c (getFrameDuration s (c + 1))) ;;
        setFrameDuration en (before_frame - 1) (getFrameDuration sp0 frame)
      else if before_frame <? frame then
        for_down (Z.to_nat (frame - before_frame)) frame
          (fun c => s <- get_sprite ;; setFrameDuration en c (getFrameDuration s (c - 1))) ;;
        setFrameDuration en before_frame (getFrameDuration sp0 frame)
      else ret tt) s = Some (tt, s2) /\ hist_ok en s2 /\ frlens_only sp0 (s_spr s2) /\
      forall x, 0 <= x < T ->
        getFrameDuration (s_spr s2) (frame_move_spec frame before_frame x) = getFrameDuration sp0 x).
    { destruct (Z.ltb_spec frame before_frame) as [Hlt|Hge].
      - assert (Hi : forall x, getFrameDuration (s_spr s) x =
             if (frame <=? x) && (x <? frame) then getFrameDuration sp0 (x + 1)
             else getFrameDuration sp0 x) by (intros x; zcases).
        destruct (frlen_forward_loop en frame before_frame sp0
                    (Z.to_nat (before_frame - 1 - frame)) frame s Hok Hfo0)
          as [s1 [H1 [Hok1 [Hfo1 Hgd1]]]]; try (unfold T, sp0 in *; lia); try exact Hi.
        destruct (setFrameDuration_ok en (before_frame - 1) (getFrameDuration sp0 frame) s1 Hok1)
          as [s2 [H2 [Hok2 Hs2]]].
        exists s2. rewrite (bind_some _ _ _ _ _ H1). split; [exact H2|].
        pose proof (frlens_only_frames _ _ Hfo1) as Hfr1.
        split; [exact Hok2|]. split; [rewrite Hs2; apply frlens_only_set; exact Hfo1|].
        intros x Hx. rewrite Hs2, getFrameDuration_set; [|rewrite Hfr1; unfold T, sp0 in *; lia|
                                                          rewrite Hfr1; apply Hfo1].
        rewrite Hgd1. unfold frame_move_spec.
        replace (frame <? before_frame) with true by (symmetry; apply Z.ltb_lt; exact Hlt).
        zcases.
      - assert (Hgt : before_frame < frame) by lia.
        replace (before_frame <? frame) with true by (symmetry; apply Z.ltb_lt; exact Hgt).
        assert (Hi : forall x, getFrameDuration (s_spr s) x =
             if (frame <? x) && (x <=? frame) then getFrameDuration sp0 (x - 1)
             else getFrameDuration sp0 x) by (intros x; zcases).
        destruct (frlen_backward_loop en frame before_frame sp0
                    (Z.to_nat (frame - before_frame)) frame s Hok Hfo0)
          as [s1 [H1 [Hok1 [Hfo1 Hgd1]]]]; try (unfold T, sp0 in *; lia); try exact Hi.
        destruct (setFrameDuration_ok en before_frame (getFrameDuration sp0 frame) s1 Hok1)
          as [s2 [H2 [Hok2 Hs2]]].
        exists s2. rewrite (bind_some _ _ _ _ _ H1). split; [exact H2|].
        pose proof (frlens_only_frames _ _ Hfo1) as Hfr1.
        split; [exact Hok2|]. split; [rewrite Hs2; apply frlens_only_set; exact Hfo1|].
        intros x Hx. rewrite Hs2, getFrameDuration_set; [|rewrite Hfr1; unfold T, sp0 in *; lia|
                                                          rewrite Hfr1; apply Hfo1].
        rewrite Hgd1. unfold frame_move_spec.
        replace (frame <? before_frame) with false by (symmetry; apply Z.ltb_ge; exact Hge).
        zcases. }
    destruct Hdur as [s2 [H2 [Hok2 [[Hrest2 Hlen2] Hgd2]]]].
    rewrite (bind_some _ _ _ _ _ H2).
    destruct (moveFrameBefore_cels en frame before_frame s2 Hok2) as [s3 [H3 Hs3]]; try lia.
    exists s3. split; [exact H3|].
    rewrite Hs3. rewrite <- Hrest2. cbn [spr_folder spr_frames set_folder set_frlens].
    split; [reflexivity|]. split; [reflexivity|]. split.
    + intros x Hx. rewrite <- (Hgd2 x Hx). rewrite <- Hrest2 at 2. reflexivity.
    + unfold sp0. destruct (s_spr s); reflexivity.
Qed.

Lemma C7_moveFrameBefore_spec_witness :
  hist_ok true (mkSt ex_three ex_hist_open []) /\
  List.length (spr_frlens ex_three) = Z.to_nat (spr_frames ex_three) /\
  ((0 = 2 \/ 0 < 0 \/ spr_frames ex_three <= 0 \/ 2 < 0 \/ spr_frames ex_three <= 2) ->
     moveFrameBefore true 0 2 (mkSt ex_three ex_hist_open []) = Some (tt, mkSt ex_three ex_hist_open [])) /\
  (0 <> 2 -> 0 <= 0 < spr_frames ex_three -> 0 <= 2 < spr_frames ex_three ->
   exists s', moveFrameBefore true 0 2 (mkSt ex_three ex_hist_open []) = Some (tt, s') /\
     spr_folder (s_spr s') =
       map_image_cels (map (fun c => set_cel_frame (frame_move_spec 0 2 (cel_frame c)) c))
         (spr_folder ex_three) /\
     spr_frames (s_spr s') = spr_frames ex_three /\
     (forall x, 0 <= x < spr_frames ex_three ->
        getFrameDuration (s_spr s') (frame_move_spec 0 2 x) = getFrameDuration ex_three x) /\
     set_folder (spr_folder ex_three) (set_frlens (spr_frlens ex_three) (s_spr s')) = ex_three).
Proof.
  assert (H : hist_ok true (mkSt ex_three ex_hist_open [])) by (intros _; vm_compute; discriminate).
  assert (Hl : List.length (spr_frlens ex_three) = Z.to_nat (spr_frames ex_three))
    by (vm_compute; reflexivity).
  split; [exact H|]. split; [exact Hl|].
  exact (C7_moveFrameBefore_spec true (mkSt ex_three ex_hist_open []) 0 2 H Hl).
Defined.

(** C7 (counterexample): moving frame 2 before frame 0 in a three-frame
    sprite also renumbers the cel at frame 0, which is not strictly between
    the two indices: it goes to frame 1, the cel at frame 1 to frame 2 and
    the cel at frame 2 to frame 0. *)
Lemma C7_moveFrameBefore_past_shifts_before_frame :
  exists s', moveFrameBefore true 2 0 (mkSt ex_three ex_hist_open []) = Some (tt, s') /\
    spr_folder (s_spr s') =
      LayerFolder 0 [LayerImage 1 false [cel_new 1 1; cel_new 2 2; cel_new 0 3]].
Proof. eexists. split; [vm_compute; reflexivity|vm_compute; reflexivity]. Qed.

(** ** C6: removeFrame *)

Lemma getCel_some cels fr p :
  getCel cels fr = Some p -> exists c, nth_error cels p = Some c /\ cel_frame c = fr.
Proof.
  revert p; induction cels as [|c cs IH]; intros p H; simpl in H; [discriminate|].
  destruct (Z.eqb_spec (cel_frame c) fr) as [E|E].
  - injection H as <-. exists c. auto.
  - destruct (getCel cs fr) as [n|] eqn:G; [|discriminate].
    injection H as <-. apply (IH n eq_refl).
Qed.

Lemma getCel_none cels fr :
  getCel cels fr = None -> forall c, In c cels -> cel_frame c <> fr.
Proof.
  induction cels as [|c cs IH]; intros H d Hd; simpl in *; [contradiction|].
  destruct (Z.eqb_spec (cel_frame c) fr) as [E|E]; [discriminate|].
  destruct (getCel cs fr) eqn:G; [discriminate|].
  destruct Hd as [<-|Hd]; [exact E|exact (IH eq_refl d Hd)].
Qed.

Lemma getCelAt_some cels fr p :
  getCel cels fr = Some p ->
  exists c, getCelAt cels fr = Some (p, c) /\ nth_error cels p = Some c /\ cel_frame c = fr.
Proof.
  intros G. destruct (getCel_some _ _ _ G) as [c [Hc Hf]].
  exists c. unfold getCelAt. rewrite G, Hc. auto.
Qed.

Lemma getCelAt_none cels fr : getCel cels fr = None -> getCelAt cels fr = None.
Proof. unfold getCelAt. intros ->. reflexivity. Qed.

Lemma nodup_frame_pos cels i j a b :
  NoDup (map cel_frame cels) -> nth_error cels i = Some a -> nth_error cels j = Some b ->
  cel_frame a = cel_frame b -> i = j.
Proof.
  intros Hnd Ha Hb Hab. pose proof (proj1 (NoDup_nth_error _) Hnd) as Hn. apply Hn.
  - rewrite length_map. apply nth_error_Some. congruence.
  - rewrite !nth_error_map, Ha, Hb. simpl. congruence.
Qed.

Lemma filter_all {A} (f : A -> bool) l : (forall x, In x l -> f x = true) -> filter f l = l.
Proof.
  induction l as [|h t IH]; intros H; simpl; auto.
  rewrite (H h (or_introl eq_refl)), IH; auto. intros x Hx. apply H. right. exact Hx.
Qed.

Lemma remove_nth_filter cels p c f :
  NoDup (map cel_frame cels) -> nth_error cels p = Some c -> cel_frame c = f ->
  remove_nth p cels = filter (fun c => negb (cel_frame c =? f)) cels.
Proof.
  revert p; induction cels as [|h t IH]; intros p Hnd Hc Hf; [destruct p; discriminate|].
  simpl in Hnd. apply NoDup_cons_iff in Hnd as [Hnin Hnd'].
  destruct p as [|p]; simpl in Hc.
  - injection Hc as ->. subst f. simpl. rewrite Z.eqb_refl. simpl.
    symmetry. apply filter_all. intros x Hx.
    destruct (Z.eqb_spec (cel_frame x) (cel_frame c)) as [E|E]; [|reflexivity].
    exfalso. apply Hnin. rewrite <- E. apply in_map. exact Hx.
  - simpl. destruct (Z.eqb_spec (cel_frame h) f) as [E|E].
    + exfalso. apply Hnin. rewrite E, <- Hf. apply in_map. eapply nth_error_In. exact Hc.
    + simpl. f_equal. apply IH; auto.
Qed.

Lemma stock_get_live k i : stock_get k i <> None -> 0 <= i.
Proof. unfold stock_get. destruct (Z.ltb_spec i 0); [congruence|lia]. Qed.

Lemma stock_get_set_neq k i j o :
  0 <= i -> i <> j -> stock_get (stock_set i o k) j = stock_get k j.
Proof.
  intros Hi Hij. unfold stock_get, stock_set. destruct (Z.ltb_spec j 0); [reflexivity|].
  rewrite nth_error_upd_nth_neq; [reflexivity|]. intros E. apply Z2Nat.inj in E; lia.
Qed.

Lemma set_stock_same sp : set_stock (spr_stock sp) sp = sp.
Proof. destruct sp; reflexivity. Qed.

Lemma removeImageFromStock_ok en i s :
  hist_ok en s -> stock_get (spr_stock (s_spr s)) i <> None ->
  exists s', removeImageFromStock en i s = Some (tt, s') /\ hist_ok en s' /\
    s_spr s' = set_stock (stock_set i None (spr_stock (s_spr s))) (s_spr s).
Proof.
  intros Hok Hl. pose proof (stock_get_live _ _ Hl) as Hi.
  destruct (stock_get (spr_stock (s_spr s)) i) as [img|] eqn:E; [|congruence].
  unfold removeImageFromStock, assert.
  replace (0 <=? i) with true by (symmetry; apply Z.leb_le; exact Hi).
  rewrite (bind_some _ _ s tt s) by reflexivity. rewrite get_sprite_bind.
  rewrite (bind_some _ _ s img s) by (unfold some; rewrite E; reflexivity).
  destruct (when_record en (UndoRemoveImage i img) s Hok) as [s1 [H1 [Hs1 [Hok1 _]]]].
  rewrite (bind_some _ _ _ _ _ H1). unfold mutate.
  eexists. split; [reflexivity|]. split; [exact Hok1|]. simpl. rewrite Hs1. reflexivity.
Qed.

Lemma removeCel_ok en lid cels p c s :
  hist_ok en s -> nth_error cels p = Some c ->
  stock_get (spr_stock (s_spr s)) (cel_image c) <> None ->
  exists s', removeCel en lid cels p s = Some (remove_nth p cels, s') /\ hist_ok en s' /\
    (s_spr s' = s_spr s \/
     s_spr s' = set_stock (stock_set (cel_image c) None (spr_stock (s_spr s))) (s_spr s)).
Proof.
  intros Hok Hc Hl. unfold removeCel.
  rewrite (bind_some _ _ s c s) by (unfold some; rewrite Hc; reflexivity).
  rewrite gets_bind. cbv zeta.
  match goal with |- context [if ?u then ret tt else _] => destruct u end.
  - rewrite (bind_some _ _ s tt s) by reflexivity.
    destruct (when_record en (UndoRemoveCel lid p c) s Hok) as [s1 [H1 [Hs1 [Hok1 _]]]].
    rewrite (bind_some _ _ _ _ _ H1). unfold touch, bind, ret.
    eexists. split; [reflexivity|]. split; [exact Hok1|]. left. exact Hs1.
  - destruct (removeImageFromStock_ok en (cel_image c) s Hok Hl) as [s1 [H1 [Hok1 Hs1]]].
    rewrite (bind_some _ _ _ _ _ H1).
    destruct (when_record en (UndoRemoveCel lid p c) s1 Hok1) as [s2 [H2 [Hs2 [Hok2 _]]]].
    rewrite (bind_some _ _ _ _ _ H2). unfold touch, bind, ret.
    eexists. split; [reflexivity|]. split; [exact Hok2|]. right. simpl. congruence.
Qed.

(** The loop of [removeFrameOfLayer] over the frames after the removed
    one: each of its iterations moves the cel at [fr] to [fr - 1]. *)
Lemma removeFrame_shift_loop en f lid cs1 T :
  0 <= f -> NoDup (map cel_frame cs1) ->
  forall n fr s, hist_ok en s -> Z.of_nat n = T - fr -> f + 1 <= fr ->
  exists s', fold_up n fr
    (fun fr cels => match getCelAt cels fr with
                    | Some (p, c) => setCelFramePosition en lid cels p (cel_frame c - 1)
                    | None => ret cels
                    end) (map (shift_below f fr) cs1) s =
    Some (map (shift_below f T) cs1, s') /\ hist_ok en s' /\ s_spr s' = s_spr s.
Proof.
  intros Hf Hnd. induction n as [|n IH]; intros fr s Hok Hn Hfr; simpl fold_up.
  - exists s. replace T with fr by lia. auto.
  - destruct (getCel (map (shift_below f fr) cs1) fr) as [p|] eqn:G.
    + destruct (getCelAt_some _ _ _ G) as [c [Hat [Hc Hcf]]].
      rewrite Hat. pose proof Hc as Hc'.
      rewrite nth_error_map in Hc.
      destruct (nth_error cs1 p) as [c0|] eqn:Hc0; simpl in Hc; [|discriminate].
      injection Hc as Hc.
      assert (Hc0f : cel_frame c0 = fr /\ c = c0).
      { subst c. unfold shift_below in Hcf |- *.
        destruct ((f <? cel_frame c0) && (cel_frame c0 <? fr)) eqn:B.
        - exfalso. apply andb_prop in B as [_ B]. apply Z.ltb_lt in B. simpl in Hcf. lia.
        - auto. }
      destruct Hc0f as [Hc0f ->].
      destruct (setCelFramePosition_ok en lid (map (shift_below f fr) cs1) p (cel_frame c0 - 1)
                  c0 s Hok Hc') as [s1 [H1 [Hok1 Hs1]]]; [lia|].
      rewrite (bind_some _ _ _ _ _ H1).
      assert (E : upd_nth p (set_cel_frame (cel_frame c0 - 1) c0) (map (shift_below f fr) cs1)
                  = map (shift_below f (fr + 1)) cs1).
      { apply nth_error_ext. intros i. destruct (Nat.eq_dec i p) as [->|Hip].
        - rewrite nth_error_upd_nth_eq
            by (rewrite length_map; apply nth_error_Some; congruence).
          rewrite nth_error_map, Hc0. simpl. f_equal. unfold shift_below. rewrite Hc0f. zcases.
        - rewrite nth_error_upd_nth_neq by congruence.
          rewrite !nth_error_map. destruct (nth_error cs1 i) as [d|] eqn:Hd; simpl; [|reflexivity].
          assert (cel_frame d <> fr)
            by (intros E; apply Hip; apply (nodup_frame_pos cs1 i p d c0); auto; congruence).
          f_equal. unfold shift_below. zcases. }
      rewrite E.
      destruct (IH (fr + 1) s1 Hok1) as [s2 [H2 [Hok2 Hs2]]]; try lia.
      exists s2. split; [exact H2|]. split; [exact Hok2|]. congruence.
    + rewrite (getCelAt_none _ _ G).
      rewrite (bind_some _ _ s (map (shift_below f fr) cs1) s) by reflexivity.
      assert (E : map (shift_below f fr) cs1 = map (shift_below f (fr + 1)) cs1).
      { apply map_ext_in. intros d Hd. destruct (Z.eq_dec (cel_frame d) fr) as [e|e].
        - exfalso. apply (getCel_none _ _ G (shift_below f fr d)); [apply in_map; exact Hd|].
          unfold shift_below. replace (cel_frame d <? fr) with false
            by (symmetry; apply Z.ltb_ge; lia).
          rewrite andb_false_r. exact e.
        - unfold shift_below. zcases. }
      rewrite E. apply (IH (fr + 1) s Hok); lia.
Qed.

Lemma nodup_map_filter {A B} (g : A -> B) (p : A -> bool) l :
  NoDup (map g l) -> NoDup (map g (filter p l)).
Proof.
  induction l as [|h t IH]; intros Hnd; simpl in *; [constructor|].
  apply NoDup_cons_iff in Hnd as [Hnin Hnd].
  destruct (p h); simpl; [|auto]. constructor; [|auto].
  intros Hin. apply Hnin. apply in_map_iff in Hin as [x [Hx Hin]].
  apply filter_In in Hin as [Hin _]. rewrite <- Hx. apply in_map. exact Hin.
Qed.

(** [removeFrameOfLayer] on one image layer: the cel at [f] goes, the
    later ones move one frame earlier, and the stock changes at most at
    the slot of the removed cel. *)
Lemma removeFrameOfImage_ok en f lid cs s :
  hist_ok en s -> 0 <= f < spr_frames (s_spr s) -> cels_wf (spr_frames (s_spr s)) cs ->
  Forall (fun c => stock_get (spr_stock (s_spr s)) (cel_image c) <> None)
         (filter (fun c => cel_frame c =? f) cs) ->
  exists s', removeFrameOfImage en f lid cs s = Some (remove_frame_cels_spec f cs, s') /\
    hist_ok en s' /\
    exists K, s_spr s' = set_stock K (s_spr s) /\
      forall i, Forall (fun c => cel_image c <> i) (filter (fun c => cel_frame c =? f) cs) ->
                stock_get K i = stock_get (spr_stock (s_spr s)) i.
Proof.
  intros Hok Hf [Hnd Hrange] Hlive. unfold removeFrameOfImage.
  assert (Hfirst : exists s1 K, (match getCelAt cs f with
          | Some (p, _) => removeCel en lid cs p
          | None => ret cs end) s = Some (filter (fun c => negb (cel_frame c =? f)) cs, s1) /\
        hist_ok en s1 /\ s_spr s1 = set_stock K (s_spr s) /\
        forall i, Forall (fun c => cel_image c <> i) (filter (fun c => cel_frame c =? f) cs) ->
                stock_get K i = stock_get (spr_stock (s_spr s)) i).
  { destruct (getCel cs f) as [p|] eqn:G.
    - destruct (getCelAt_some _ _ _ G) as [c [Hat [Hc Hcf]]]. rewrite Hat.
      assert (Hin : In c (filter (fun c => cel_frame c =? f) cs))
        by (apply filter_In; split; [eapply nth_error_In; exact Hc|apply Z.eqb_eq; exact Hcf]).
      pose proof (proj1 (Forall_forall _ _) Hlive c Hin) as Hl.
      destruct (removeCel_ok en lid cs p c s Hok Hc Hl) as [s1 [H1 [Hok1 [Hs1|Hs1]]]];
        rewrite (remove_nth_filter cs p c f) in H1 by auto.
      + exists s1, (spr_stock (s_spr s)).
        split; [exact H1|]. split; [exact Hok1|]. split; [rewrite set_stock_same; exact Hs1|].
        auto.
      + exists s1, (stock_set (cel_image c) None (spr_stock (s_spr s))).
        split; [exact H1|]. split; [exact Hok1|]. split; [exact Hs1|].
        intros i Hi. apply stock_get_set_neq; [exact (stock_get_live _ _ Hl)|].
        exact (proj1 (Forall_forall _ _) Hi c Hin).
    - rewrite (getCelAt_none _ _ G).
      exists s, (spr_stock (s_spr s)).
      rewrite filter_all.
      + split; [reflexivity|]. split; [exact Hok|]. split; [symmetry; apply set_stock_same|].
        auto.
      + intros x Hx. apply negb_true_iff. apply Z.eqb_neq. exact (getCel_none _ _ G x Hx). }
  destruct Hfirst as [s1 [K [H1 [Hok1 [Hs1 HK]]]]].
  rewrite (bind_some _ _ _ _ _ H1). rewrite gets_bind.
  replace (spr_frames (s_spr s1)) with (spr_frames (s_spr s)) by (rewrite Hs1; reflexivity).
  set (T := spr_frames (s_spr s)) in *.
  set (cs1 := filter (fun c => negb (cel_frame c =? f)) cs).
  assert (Hnd1 : NoDup (map cel_frame cs1)) by (apply nodup_map_filter; exact Hnd).
  assert (Hstart : map (shift_below f (f + 1)) cs1 = cs1).
  { transitivity (map (fun x => x) cs1); [|apply map_id].
    apply map_ext_in. intros d _. unfold shift_below. zcases. }
  destruct (removeFrame_shift_loop en f lid cs1 T (proj1 Hf) Hnd1
              (Z.to_nat (T - (f + 1))) (f + 1) s1 Hok1) as [s2 [H2 [Hok2 Hs2]]]; try lia.
  rewrite Hstart in H2.
  exists s2. split.
  - rewrite H2. f_equal. f_equal. unfold remove_frame_cels_spec. fold cs1.
    apply map_ext_in. intros d Hd.
    apply filter_In in Hd as [Hd _].
    pose proof (proj1 (Forall_forall _ _) Hrange d Hd) as Hr. simpl in Hr.
    unfold shift_below. zcases.
  - split; [exact Hok2|]. exists K. split; [congruence|exact HK].
Qed.

Lemma image_cels_folder id ch rest :
  flat_map image_cels (LayerFolder id ch :: rest) = flat_map image_cels (ch ++ rest).
Proof. simpl. rewrite flat_map_app. reflexivity. Qed.

Lemma frame_cels_folder f id ch rest :
  frame_cels f (LayerFolder id ch :: rest) = frame_cels f (ch ++ rest).
Proof. unfold frame_cels. rewrite image_cels_folder. reflexivity. Qed.

Lemma frame_cels_image f id bg cs rest :
  frame_cels f (LayerImage id bg cs :: rest) =
  filter (fun c => cel_frame c =? f) cs ++ frame_cels f rest.
Proof. reflexivity. Qed.

Lemma nodup_app_disjoint {A} (l1 l2 : list A) x :
  NoDup (l1 ++ l2) -> In x l1 -> In x l2 -> False.
Proof.
  induction l1 as [|h t IH]; intros Hnd H1 H2; simpl in *; [contradiction|].
  apply NoDup_cons_iff in Hnd as [Hnin Hnd].
  destruct H1 as [<-|H1]; [apply Hnin; apply in_or_app; right; exact H2|].
  exact (IH Hnd H1 H2).
Qed.

Lemma setCurrentFrame_ok en fr s :
  hist_ok en s -> 0 <= fr ->
  exists s', setCurrentFrame en fr s = Some (tt, s') /\ hist_ok en s' /\
             s_spr s' = set_frame fr (s_spr s).
Proof.
  intros Hok Hfr. unfold setCurrentFrame, assert.
  replace (0 <=? fr) with true by (symmetry; apply Z.leb_le; exact Hfr).
  rewrite (bind_some _ _ s tt s) by reflexivity. rewrite get_sprite_bind.
  destruct (when_record en (UndoSetFrame (spr_frame (s_spr s))) s Hok) as [s1 [H1 [Hs1 [Hok1 _]]]].
  rewrite (bind_some _ _ _ _ _ H1). unfold mutate.
  eexists. split; [reflexivity|]. split; [exact Hok1|]. simpl. rewrite Hs1. reflexivity.
Qed.

Lemma setNumberOfFrames_ok en n s :
  hist_ok en s -> 1 <= n ->
  exists s', setNumberOfFrames en n s = Some (tt, s') /\ hist_ok en s' /\
             s_spr s' = set_frames n (s_spr s).
Proof.
  intros Hok Hn. unfold setNumberOfFrames, assert.
  replace (1 <=? n) with true by (symmetry; apply Z.leb_le; exact Hn).
  rewrite (bind_some _ _ s tt s) by reflexivity. rewrite get_sprite_bind.
  destruct (when_record en (UndoSetFrames (spr_frames (s_spr s))) s Hok) as [s1 [H1 [Hs1 [Hok1 _]]]].
  rewrite (bind_some _ _ _ _ _ H1). unfold mutate.
  eexists. split; [reflexivity|]. split; [exact Hok1|]. simpl. rewrite Hs1. reflexivity.
Qed.

(** The traversal of [removeFrameOfLayer]: every image layer of the tree
    gets [remove_frame_cels_spec f]; the stock changes only at the slots
    of the cels at [f]. *)
Lemma removeFrameOfLayer_ok en f s :
  hist_ok en s -> 0 <= f < spr_frames (s_spr s) ->
  Forall (cels_wf (spr_frames (s_spr s))) (image_cels (spr_folder (s_spr s))) ->
  NoDup (map cel_image (frame_cels f [spr_folder (s_spr s)])) ->
  Forall (fun c => stock_get (spr_stock (s_spr s)) (cel_image c) <> None)
         (frame_cels f [spr_folder (s_spr s)]) ->
  exists s', removeFrameOfLayer en (spr_folder (s_spr s)) f s =
               Some (map_image_cels (remove_frame_cels_spec f) (spr_folder (s_spr s)), s') /\
    hist_ok en s' /\
    exists K, s_spr s' = set_stock K (s_spr s) /\
      forall i, ~ In i (map cel_image (frame_cels f [spr_folder (s_spr s)])) ->
                stock_get K i = stock_get (spr_stock (s_spr s)) i.
Proof.
  intros Hok Hf Hwf Hnd Hlive.
  set (sp0 := s_spr s) in *. set (T := spr_frames sp0) in *.
  set (K0 := spr_stock sp0) in *.
  set (A := map cel_image (frame_cels f [spr_folder sp0])).
  unfold removeFrameOfLayer.
  destruct (traverse_sim (removeFrameOfImage en f) (remove_frame_cels_spec f)
    (fun s1 ls => hist_ok en s1 /\ spr_frames (s_spr s1) = T /\
       Forall (cels_wf T) (flat_map image_cels ls) /\
       NoDup (map cel_image (frame_cels f ls)) /\
       incl (map cel_image (frame_cels f ls)) A /\
       Forall (fun c => stock_get K0 (cel_image c) <> None) (frame_cels f ls) /\
       exists K, s_spr s1 = set_stock K sp0 /\
         forall i, (In i (map cel_image (frame_cels f ls)) \/ ~ In i A) ->
                   stock_get K i = stock_get K0 i))
    with (l := spr_folder sp0) (rest := @nil layer) (s := s)
    as [s1 [H1 [Hok1 [_ [_ [_ [_ [_ [K [Hs1 HK]]]]]]]]]].
  - intros id bg cs rest s2 [Hok2 [Hfr2 [Hwf2 [Hnd2 [Hinc2 [Hl2 [K [Hs2 HK]]]]]]]].
    rewrite frame_cels_image in Hnd2, Hinc2, Hl2, HK.
    rewrite map_app in Hnd2, Hinc2, HK.
    simpl in Hwf2. apply Forall_cons_iff in Hwf2 as [Hwfc Hwfr].
    apply Forall_app in Hl2 as [Hlc Hlr].
    assert (Hlc' : Forall (fun c => stock_get (spr_stock (s_spr s2)) (cel_image c) <> None)
                     (filter (fun c => cel_frame c =? f) cs)).
    { apply Forall_forall. intros c Hc. rewrite Hs2. simpl. rewrite HK.
      - exact (proj1 (Forall_forall _ _) Hlc c Hc).
      - left. apply in_or_app. left. apply in_map. exact Hc. }
    destruct (removeFrameOfImage_ok en f id cs s2 Hok2) as [s3 [H3 [Hok3 [K' [Hs3 HK']]]]];
      [rewrite Hfr2; exact Hf|rewrite Hfr2; exact Hwfc|exact Hlc'|].
    exists s3. split; [exact H3|].
    split; [exact Hok3|]. split; [rewrite Hs3; exact Hfr2|]. split; [exact Hwfr|].
    split; [exact (NoDup_app_remove_l _ _ Hnd2)|].
    split; [intros x Hx; apply Hinc2; apply in_or_app; right; exact Hx|].
    split; [exact Hlr|].
    exists K'. split; [rewrite Hs3, Hs2; apply set_stock_set_stock|].
    intros i Hi.
    assert (Hni : Forall (fun c => cel_image c <> i) (filter (fun c => cel_frame c =? f) cs)).
    { apply Forall_forall. intros c Hc E.
      assert (Hin : In i (map cel_image (filter (fun c => cel_frame c =? f) cs)))
        by (rewrite <- E; apply in_map; exact Hc).
      destruct Hi as [Hi|Hi].
      - exact (nodup_app_disjoint _ _ _ Hnd2 Hin Hi).
      - apply Hi. apply Hinc2. apply in_or_app. left. exact Hin. }
    rewrite (HK' i Hni). rewrite Hs2. simpl. apply HK.
    destruct Hi as [Hi|Hi]; [left; apply in_or_app; right; exact Hi|right; exact Hi].
  - intros id ch rest s2 H. cbv beta in H |- *.
    rewrite image_cels_folder, frame_cels_folder in H. exact H.
  - cbv beta. split; [exact Hok|]. split; [reflexivity|].
    split; [simpl; rewrite app_nil_r; exact Hwf|].
    split; [exact Hnd|]. split; [intros x Hx; exact Hx|]. split; [exact Hlive|].
    exists K0. split; [symmetry; apply set_stock_same|]. auto.
  - exists s1. split; [exact H1|]. split; [exact Hok1|].
    exists K. split; [exact Hs1|]. intros i Hi. apply HK. right. exact Hi.
Qed.

(** C6: on a sprite of at least two frames whose image layers hold at most
    one cel per frame, all in [0, totalFrames), and whose cels at [f] index
    live and distinct stock slots, [removeFrame(f)] succeeds for every
    [0 <= f < totalFrames].  Every image layer of the tree loses its cel at
    [f], and its later cels move one frame earlier; [totalFrames]
    decreases by one; the current frame goes to the new last frame when it
    would fall outside the new range, and stays otherwise; the stock
    changes only at the slots of the removed cels; the current layer is
    kept. *)
Theorem C6_removeFrame_spec en s f :
  hist_ok en s -> 0 <= f < spr_frames (s_spr s) -> 2 <= spr_frames (s_spr s) ->
  Forall (cels_wf (spr_frames (s_spr s))) (image_cels (spr_folder (s_spr s))) ->
  NoDup (map cel_image (frame_cels f [spr_folder (s_spr s)])) ->
  Forall (fun c => stock_get (spr_stock (s_spr s)) (cel_image c) <> None)
         (frame_cels f [spr_folder (s_spr s)]) ->
  exists s', removeFrame en f s = Some (tt, s') /\
    spr_folder (s_spr s') = map_image_cels (remove_frame_cels_spec f) (spr_folder (s_spr s)) /\
    spr_frames (s_spr s') = spr_frames (s_spr s) - 1 /\
    spr_frame (s_spr s') = (if spr_frames (s_spr s) - 1 <=? spr_frame (s_spr s)
                            then spr_frames (s_spr s) - 2 else spr_frame (s_spr s)) /\
    (forall i, ~ In i (map cel_image (frame_cels f [spr_folder (s_spr s)])) ->
               stock_get (spr_stock (s_spr s')) i = stock_get (spr_stock (s_spr s)) i) /\
    spr_layer (s_spr s') = spr_layer (s_spr s).
Proof.
  intros Hok Hf HT Hwf Hnd Hlive. unfold removeFrame, assert.
  replace (0 <=? f) with true by (symmetry; apply Z.leb_le; lia).
  rewrite (bind_some _ _ s tt s) by reflexivity. rewrite gets_bind.
  destruct (removeFrameOfLayer_ok en f s Hok Hf Hwf Hnd Hlive) as [s1 [H1 [Hok1 [K [Hs1 HK]]]]].
  rewrite (bind_some _ _ _ _ _ H1).
  set (root' := map_image_cels (remove_frame_cels_spec f) (spr_folder (s_spr s))) in *.
  unfold put_sprite at 1. unfold bind at 1. rewrite get_sprite_bind. cbn [s_spr].
  set (s2 := mkSt (set_folder root' (s_spr s1)) (s_hist s1) (s_trace s1)).
  assert (Hok2 : hist_ok en s2) by exact Hok1.
  rewrite Hs1. cbn [set_folder set_stock spr_frames spr_frame].
  destruct (Z.leb_spec (spr_frames (s_spr s) - 1) (spr_frame (s_spr s))) as [Hle|Hgt].
  - destruct (setCurrentFrame_ok en (spr_frames (s_spr s) - 1 - 1) s2 Hok2) as [s3 [H3 [Hok3 Hs3]]];
      [lia|].
    rewrite (bind_some _ _ _ _ _ H3).
    destruct (setNumberOfFrames_ok en (spr_frames (s_spr s) - 1) s3 Hok3) as [s4 [H4 [_ Hs4]]];
      [lia|].
    exists s4. split; [exact H4|].
    rewrite Hs4, Hs3. unfold s2. cbn [s_spr]. rewrite Hs1.
    cbn [set_frames set_frame set_folder set_stock spr_folder spr_frames spr_frame spr_stock
         spr_layer].
    split; [reflexivity|]. split; [reflexivity|]. split; [lia|].
    split; [exact HK|reflexivity].
  - rewrite (bind_some _ _ s2 tt s2) by reflexivity.
    destruct (setNumberOfFrames_ok en (spr_frames (s_spr s) - 1) s2 Hok2) as [s4 [H4 [_ Hs4]]];
      [lia|].
    exists s4. split; [exact H4|].
    rewrite Hs4. unfold s2. cbn [s_spr]. rewrite Hs1.
    cbn [set_frames set_frame set_folder set_stock spr_folder spr_frames spr_frame spr_stock
         spr_layer].
    split; [reflexivity|]. split; [reflexivity|]. split; [reflexivity|].
    split; [exact HK|reflexivity].
Qed.

Lemma C6_removeFrame_spec_witness :
  hist_ok true (mkSt ex_three ex_hist_open []) /\ 0 <= 1 < spr_frames ex_three /\
  2 <= spr_frames ex_three /\
  Forall (cels_wf (spr_frames ex_three)) (image_cels (spr_folder ex_three)) /\
  NoDup (map cel_image (frame_cels 1 [spr_folder ex_three])) /\
  Forall (fun c => stock_get (spr_stock ex_three) (cel_image c) <> None)
         (frame_cels 1 [spr_folder ex_three]) /\
  exists s', removeFrame true 1 (mkSt ex_three ex_hist_open []) = Some (tt, s') /\
    spr_folder (s_spr s') = map_image_cels (remove_frame_cels_spec 1) (spr_folder ex_three) /\
    spr_frames (s_spr s') = spr_frames ex_three - 1 /\
    spr_frame (s_spr s') = (if spr_frames ex_three - 1 <=? spr_frame ex_three
                            then spr_frames ex_three - 2 else spr_frame ex_three) /\
    (forall i, ~ In i (map cel_image (frame_cels 1 [spr_folder ex_three])) ->
               stock_get (spr_stock (s_spr s')) i = stock_get (spr_stock ex_three) i) /\
    spr_layer (s_spr s') = spr_layer ex_three.
Proof.
  assert (H1 : hist_ok true (mkSt ex_three ex_hist_open [])) by (intros _; vm_compute; discriminate).
  assert (H2 : 0 <= 1 < spr_frames ex_three) by (simpl; lia).
  assert (H3 : 2 <= spr_frames ex_three) by (simpl; lia).
  assert (H4 : Forall (cels_wf (spr_frames ex_three)) (image_cels (spr_folder ex_three))).
  { simpl. repeat constructor; simpl; try lia; intuition lia. }
  assert (H5 : NoDup (map cel_image (frame_cels 1 [spr_folder ex_three])))
    by (simpl; repeat constructor; simpl; intuition lia).
  assert (H6 : Forall (fun c => stock_get (spr_stock ex_three) (cel_image c) <> None)
                      (frame_cels 1 [spr_folder ex_three]))
    by (simpl; repeat constructor; vm_compute; discriminate).
  split; [exact H1|]. split; [exact H2|]. split; [exact H3|]. split; [exact H4|].
  split; [exact H5|]. split; [exact H6|].
  exact (C6_removeFrame_spec true (mkSt ex_three ex_hist_open []) 1 H1 H2 H3 H4 H5 H6).
Defined.

(** C6 (counterexample): on a sprite of one frame, [removeFrame(0)] does
    not succeed although [0 <= 0 < totalFrames]: it would set the current
    frame to [-1] and the frame count to [0], both refused by the
    assertions of [setCurrentFrame] and [setNumberOfFrames]. *)
Lemma C6_removeFrame_single_frame_fails :
  spr_frames ex_one_layer = 1 /\
  removeFrame true 0 (mkSt ex_one_layer ex_hist_open []) = None.
Proof. split; vm_compute; reflexivity. Qed.

(** ** Further operations: new frames *)

Lemma getCel_map_same (g : cel -> cel) cels x :
  (forall c, In c cels -> (cel_frame (g c) =? x) = (cel_frame c =? x)) ->
  getCel (map g cels) x = getCel cels x.
Proof.
  induction cels as [|c cs IH]; intros H; simpl; [reflexivity|].
  rewrite (H c (or_introl eq_refl)). rewrite IH; [reflexivity|].
  intros d Hd. apply H. right. exact Hd.
Qed.

Lemma stock_get_app k ext i img :
  stock_get k i = Some img -> stock_get (k ++ ext) i = Some img.
Proof.
  unfold stock_get. destruct (i <? 0); [discriminate|].
  destruct (nth_error k (Z.to_nat i)) as [o|] eqn:E; [|discriminate].
  intros Ho. rewrite nth_error_app1 by (apply nth_error_Some; congruence). rewrite E. exact Ho.
Qed.

Lemma stock_get_last k img :
  stock_get (k ++ [Some img]) (Z.of_nat (List.length k)) = Some img.
Proof.
  unfold stock_get. replace (Z.of_nat (List.length k) <? 0) with false by (symmetry; apply Z.ltb_ge; lia).
  rewrite Nat2Z.id, nth_error_app2, Nat.sub_diag by lia. reflexivity.
Qed.

Lemma addImageInStock_ok en img s :
  hist_ok en s ->
  exists s', addImageInStock en img s = Some (Z.of_nat (List.length (spr_stock (s_spr s))), s') /\
    hist_ok en s' /\ s_spr s' = set_stock (spr_stock (s_spr s) ++ [Some img]) (s_spr s).
Proof.
  intros Hok. unfold addImageInStock. rewrite get_sprite_bind. cbv zeta.
  unfold mutate at 1. rewrite (bind_some _ _ _ _ _ eq_refl).
  set (s1 := mkSt _ _ _).
  assert (Hok1 : hist_ok en s1) by exact Hok.
  destruct (when_record en (UndoAddImage (Z.of_nat (List.length (spr_stock (s_spr s))))) s1 Hok1)
    as [s2 [H2 [Hs2 [Hok2 _]]]].
  rewrite (bind_some _ _ _ _ _ H2). eexists. split; [reflexivity|]. split; [exact Hok2|].
  rewrite Hs2. reflexivity.
Qed.

Lemma addCel_ok en lid cels c s :
  hist_ok en s ->
  exists s', addCel en lid cels c s =
               Some (insert_nth (cel_insert_pos cels (cel_frame c)) c cels, s') /\
             hist_ok en s' /\ s_spr s' = s_spr s.
Proof.
  intros Hok. unfold addCel. cbv zeta.
  destruct (when_record en (UndoAddCel lid (cel_insert_pos cels (cel_frame c))) s Hok)
    as [s1 [H1 [Hs1 [Hok1 _]]]].
  rewrite (bind_some _ _ _ _ _ H1). unfold touch, bind, ret.
  eexists. split; [reflexivity|]. split; [exact Hok1|exact Hs1].
Qed.

(** The cels after the loop of [newFrameForLayer] has reached [fr]: the
    cels after [fr] have moved one frame later. *)
Definition shift_above (fr : Z) (c : cel) : cel :=
  if fr <? cel_frame c then set_cel_frame (cel_frame c + 1) c else c.

Lemma newFrame_shift_loop en f lid cs :
  0 <= f -> NoDup (map cel_frame cs) ->
  forall n fr s, hist_ok en s -> Z.of_nat n = fr - (f - 1) ->
  exists s', fold_down n fr
    (fun c cels => match getCelAt cels c with
                   | Some (p, cel) => setCelFramePosition en lid cels p (cel_frame cel + 1)
                   | None => ret cels
                   end) (map (shift_above fr) cs) s =
    Some (map (shift_above (f - 1)) cs, s') /\ hist_ok en s' /\ s_spr s' = s_spr s.
Proof.
  intros Hf Hnd. induction n as [|n IH]; intros fr s Hok Hn; simpl fold_down.
  - exists s. replace fr with (f - 1) by lia. auto.
  - destruct (getCel (map (shift_above fr) cs) fr) as [p|] eqn:G.
    + destruct (getCelAt_some _ _ _ G) as [c [Hat [Hc Hcf]]].
      rewrite Hat. pose proof Hc as Hc'.
      rewrite nth_error_map in Hc.
      destruct (nth_error cs p) as [c0|] eqn:Hc0; simpl in Hc; [|discriminate].
      injection Hc as Hc.
      assert (Hc0f : cel_frame c0 = fr /\ c = c0).
      { subst c. unfold shift_above in Hcf |- *.
        destruct (Z.ltb_spec fr (cel_frame c0)) as [B|B].
        - exfalso. simpl in Hcf. lia.
        - auto. }
      destruct Hc0f as [Hc0f ->].
      destruct (setCelFramePosition_ok en lid (map (shift_above fr) cs) p (cel_frame c0 + 1)
                  c0 s Hok Hc') as [s1 [H1 [Hok1 Hs1]]]; [lia|].
      rewrite (bind_some _ _ _ _ _ H1).
      assert (E : upd_nth p (set_cel_frame (cel_frame c0 + 1) c0) (map (shift_above fr) cs)
                  = map (shift_above (fr - 1)) cs).
      { apply nth_error_ext. intros i. destruct (Nat.eq_dec i p) as [->|Hip].
        - rewrite nth_error_upd_nth_eq
            by (rewrite length_map; apply nth_error_Some; congruence).
          rewrite nth_error_map, Hc0. simpl. f_equal. unfold shift_above. rewrite Hc0f. zcases.
        - rewrite nth_error_upd_nth_neq by congruence.
          rewrite !nth_error_map. destruct (nth_error cs i) as [d|] eqn:Hd; simpl; [|reflexivity].
          assert (cel_frame d <> fr)
            by (intros E; apply Hip; apply (nodup_frame_pos cs i p d c0); auto; congruence).
          f_equal. unfold shift_above. zcases. }
      rewrite E.
      destruct (IH (fr - 1) s1 Hok1) as [s2 [H2 [Hok2 Hs2]]]; try lia.
      exists s2. split; [exact H2|]. split; [exact Hok2|]. congruence.
    + rewrite (getCelAt_none _ _ G).
      rewrite (bind_some _ _ s (map (shift_above fr) cs) s) by reflexivity.
      assert (E : map (shift_above fr) cs = map (shift_above (fr - 1)) cs).
      { apply map_ext_in. intros d Hd. destruct (Z.eq_dec (cel_frame d) fr) as [e|e].
        - exfalso. apply (getCel_none _ _ G (shift_above fr d)); [apply in_map; exact Hd|].
          unfold shift_above. replace (fr <? cel_frame d) with false
            by (symmetry; apply Z.ltb_ge; lia). exact e.
        - unfold shift_above. zcases. }
      rewrite E. apply (IH (fr - 1) s Hok); lia.
Qed.

Lemma shift_above_newframe f c : shift_above (f - 1) c = newframe_shift f c.
Proof. unfold shift_above, newframe_shift. zcases. Qed.

Lemma getCelAt_shift_above f cs :
  getCelAt (map (shift_above (f - 1)) cs) (f - 1) = getCelAt cs (f - 1).
Proof.
  unfold getCelAt. rewrite getCel_map_same.
  - destruct (getCel cs (f - 1)) as [p|] eqn:G; [|reflexivity].
    destruct (getCel_some _ _ _ G) as [c [Hc Hcf]].
    rewrite nth_error_map, Hc. simpl. f_equal. f_equal. unfold shift_above. zcases.
  - intros c _. unfold shift_above. destruct (Z.ltb_spec (f - 1) (cel_frame c)); simpl; [|reflexivity].
    destruct (Z.eqb_spec (cel_frame c + 1) (f - 1)); destruct (Z.eqb_spec (cel_frame c) (f - 1));
      reflexivity || lia.
Qed.

(** [newFrameForLayer] on one image layer. *)
Lemma newFrameOfImage_ok en f lid cs s K0 :
  hist_ok en s -> 1 <= f <= spr_frames (s_spr s) -> cels_wf (spr_frames (s_spr s)) cs ->
  (exists ext, spr_stock (s_spr s) = K0 ++ ext) ->
  Forall (fun c => stock_get K0 (cel_image c) <> None) cs ->
  exists cs' s', newFrameOfImage en f lid cs s = Some (cs', s') /\ hist_ok en s' /\
    (exists ext', spr_stock (s_spr s') = spr_stock (s_spr s) ++ ext') /\
    s_spr s' = set_stock (spr_stock (s_spr s')) (s_spr s) /\
    new_frame_cels K0 f (spr_stock (s_spr s')) cs cs'.
Proof.
  intros Hok Hf [Hnd Hrange] [ext Hext] Hlive. unfold newFrameOfImage. rewrite gets_bind.
  set (T := spr_frames (s_spr s)) in *.
  assert (Hstart : map (shift_above (T - 1)) cs = cs).
  { transitivity (map (fun x => x) cs); [|apply map_id].
    apply map_ext_in. intros d Hd.
    pose proof (proj1 (Forall_forall _ _) Hrange d Hd) as Hr. simpl in Hr.
    unfold shift_above. zcases. }
  destruct (newFrame_shift_loop en f lid cs ltac:(lia) Hnd (Z.to_nat (T - f)) (T - 1) s Hok)
    as [s1 [H1 [Hok1 Hs1]]]; [lia|].
  rewrite Hstart in H1. rewrite (bind_some _ _ _ _ _ H1).
  unfold copyPreviousFrame, assert.
  replace (0 <? f) with true by (symmetry; apply Z.ltb_lt; lia).
  rewrite (bind_some _ _ s1 tt s1) by reflexivity. rewrite get_sprite_bind.
  rewrite getCelAt_shift_above.
  assert (Hmap : map (shift_above (f - 1)) cs = map (newframe_shift f) cs)
    by (apply map_ext; intros c; apply shift_above_newframe).
  unfold new_frame_cels.
  destruct (getCelAt cs (f - 1)) as [[p src]|] eqn:G.
  - assert (Hsrc : In src cs).
    { unfold getCelAt in G. destruct (getCel cs (f - 1)); [|discriminate].
      destruct (nth_error cs n) eqn:E; [|discriminate]. injection G as <- <-.
      eapply nth_error_In; exact E. }
    pose proof (proj1 (Forall_forall _ _) Hlive src Hsrc) as Hl. simpl in Hl.
    destruct (stock_get K0 (cel_image src)) as [img|] eqn:Ei; [|congruence].
    rewrite Hs1, Hext, (stock_get_app K0 ext _ img Ei).
    destruct (addImageInStock_ok en img s1 Hok1) as [s2 [H2 [Hok2 Hs2]]].
    rewrite (bind_some _ _ _ _ _ H2). cbv zeta.
    match goal with |- context [addCel en lid ?cl ?d] =>
      destruct (addCel_ok en lid cl d s2 Hok2) as [s3 [H3 [Hok3 Hs3]]] end.
    rewrite H3. do 2 eexists. split; [reflexivity|]. split; [exact Hok3|].
    rewrite Hs3, Hs2, Hs1, Hext. split; [|split].
    + exists [Some img]. simpl. reflexivity.
    + simpl. destruct (s_spr s); reflexivity.
    + rewrite Hmap. do 3 eexists. split; [reflexivity|]. simpl.
      repeat split; try reflexivity;
        first [exact Ei | apply stock_get_last | rewrite length_app; lia].
  - exists (map (shift_above (f - 1)) cs), s1.
    split; [reflexivity|]. split; [exact Hok1|]. rewrite Hs1. split; [|split].
    + exists []. rewrite app_nil_r. reflexivity.
    + symmetry. apply set_stock_same.
    + exact Hmap.
Qed.

(** A traversal whose step rewrites the cels of each image layer
    within a relation [R] to the stock, where the stock only grows and
    [R] is kept when it grows. *)
Section TraverseRel.
Variable step : nat -> list cel -> M (list cel).
Variable R : list (option image) -> list cel -> list cel -> Prop.
Variable Inv : st -> list layer -> Prop.
Hypothesis HR : forall k ext cs cs', R k cs cs' -> R (k ++ ext) cs cs'.
Hypothesis Hstep : forall id bg cs rest s,
  Inv s (LayerImage id bg cs :: rest) ->
  exists cs' s', step id cs s = Some (cs', s') /\ R (spr_stock (s_spr s')) cs cs' /\
    (exists ext, spr_stock (s_spr s') = spr_stock (s_spr s) ++ ext) /\ Inv s' rest.
Hypothesis Hfolder : forall id ch rest s,
  Inv s (LayerFolder id ch :: rest) -> Inv s (ch ++ rest).

Lemma Forall2_R_grow k ext a b :
  Forall2 (R k) a b -> Forall2 (R (k ++ ext)) a b.
Proof. intros H. induction H; constructor; auto. Qed.

Lemma traverse_rel l : forall rest s, Inv s (l :: rest) ->
  exists l' s', traverse step l s = Some (l', s') /\ layer_shape l' = layer_shape l /\
    Forall2 (R (spr_stock (s_spr s'))) (image_cels l) (image_cels l') /\
    (exists ext, spr_stock (s_spr s') = spr_stock (s_spr s) ++ ext) /\ Inv s' rest.
Proof.
  induction l as [id bg cs | id ch IH] using layer_ind_nested; intros rest s Hinv; simpl.
  - destruct (Hstep _ _ _ _ _ Hinv) as [cs' [s' [H1 [H2 [H3 H4]]]]].
    rewrite (bind_some _ _ _ _ _ H1). exists (LayerImage id bg cs'), s'.
    split; [reflexivity|]. split; [reflexivity|]. split; [|auto].
    constructor; [exact H2|constructor].
  - apply Hfolder in Hinv.
    assert (Hch : forall rest s, Inv s (ch ++ rest) ->
              exists ch' s', mapM_layers (traverse step) ch s = Some (ch', s') /\
                map layer_shape ch' = map layer_shape ch /\
                Forall2 (R (spr_stock (s_spr s'))) (flat_map image_cels ch)
                        (flat_map image_cels ch') /\
                (exists ext, spr_stock (s_spr s') = spr_stock (s_spr s) ++ ext) /\ Inv s' rest).
    { clear Hinv s rest. induction IH as [|c cs Hc _ IHcs]; intros rest s Hinv; simpl.
      - exists [], s. split; [reflexivity|]. split; [reflexivity|]. split; [constructor|].
        split; [exists []; rewrite app_nil_r; reflexivity|exact Hinv].
      - destruct (Hc (cs ++ rest) s Hinv) as [c' [s1 [H1 [Hsh1 [HR1 [[e1 He1] Hinv1]]]]]].
        rewrite (bind_some _ _ _ _ _ H1).
        destruct (IHcs rest s1 Hinv1) as [cs' [s2 [H2 [Hsh2 [HR2 [[e2 He2] Hinv2]]]]]].
        rewrite (bind_some _ _ _ _ _ H2). exists (c' :: cs'), s2.
        split; [reflexivity|]. split; [simpl; congruence|]. split.
        + apply Forall2_app; [|exact HR2]. rewrite He2. apply Forall2_R_grow. exact HR1.
        + split; [|exact Hinv2]. exists (e1 ++ e2). rewrite He2, He1, app_assoc. reflexivity. }
    destruct (Hch rest s Hinv) as [ch' [s' [H1 [Hsh [HR' [Hext Hinv']]]]]].
    rewrite (bind_some _ _ _ _ _ H1). exists (LayerFolder id ch'), s'.
    split; [reflexivity|]. split; [|auto].
    unfold layer_shape in *. simpl. f_equal. exact Hsh.
Qed.
End TraverseRel.

Lemma new_frame_cels_grow k0 f k ext cs cs' :
  new_frame_cels k0 f k cs cs' -> new_frame_cels k0 f (k ++ ext) cs cs'.
Proof.
  unfold new_frame_cels. destruct (getCelAt cs (f - 1)) as [[p src]|]; [|auto].
  intros [pos [d [img [H1 [H2 [H3 [H4 [H5 [H6 [H7 H8]]]]]]]]]].
  exists pos, d, img. repeat split; auto. apply stock_get_app. exact H8.
Qed.

Lemma image_cels_all_cels l : all_cels l = List.concat (image_cels l).
Proof.
  induction l as [id bg cs | id ch IH] using layer_ind_nested; simpl.
  - rewrite app_nil_r. reflexivity.
  - induction IH as [|c cs Hc _ IHcs]; simpl; [reflexivity|].
    rewrite Hc, IHcs, concat_app. reflexivity.
Qed.

Lemma bind_assoc {A B C} (m : M A) (k1 : A -> M B) (k2 : B -> M C) s :
  bind (bind m k1) k2 s = bind m (fun a => bind (k1 a) k2) s.
Proof. unfold bind. destruct (m s) as [[a s1]|]; reflexivity. Qed.

Lemma Forall_Forall_concat {A} (P : A -> Prop) (L : list (list A)) :
  (forall x, In x (List.concat L) -> P x) -> Forall (Forall P) L.
Proof.
  intros H. apply Forall_forall. intros l Hl. apply Forall_forall. intros x Hx.
  apply H. apply in_concat. exists l. auto.
Qed.

Lemma stock_refs_live_cels sp :
  stock_refs_live sp = true ->
  Forall (Forall (fun c => stock_get (spr_stock sp) (cel_image c) <> None))
         (image_cels (spr_folder sp)).
Proof.
  unfold stock_refs_live. rewrite image_cels_all_cels. intros H.
  apply Forall_Forall_concat. intros c Hc.
  pose proof (proj1 (forallb_forall _ _) H c Hc) as Hb. simpl in Hb.
  destruct (stock_get (spr_stock sp) (cel_image c)); [discriminate|]. discriminate.
Qed.

(** [newFrame]: every image layer gets [new_frame_cels] at the new frame,
    the stock only grows, the frame count and the current frame go one
    up. *)
Lemma newFrame_ok en s :
  hist_ok en s -> 0 <= spr_frame (s_spr s) < spr_frames (s_spr s) ->
  Forall (cels_wf (spr_frames (s_spr s))) (image_cels (spr_folder (s_spr s))) ->
  stock_refs_live (s_spr s) = true ->
  exists s' root ext, newFrame en s = Some (tt, s') /\ hist_ok en s' /\
    s_spr s' = set_frame (spr_frame (s_spr s) + 1)
                 (set_frames (spr_frames (s_spr s) + 1)
                    (set_stock (spr_stock (s_spr s) ++ ext) (set_folder root (s_spr s)))) /\
    layer_shape root = layer_shape (spr_folder (s_spr s)) /\
    Forall2 (new_frame_cels (spr_stock (s_spr s)) (spr_frame (s_spr s) + 1)
                            (spr_stock (s_spr s) ++ ext))
            (image_cels (spr_folder (s_spr s))) (image_cels root).
Proof.
  intros Hok Hcur Hwf Hlive.
  set (sp0 := s_spr s) in *. set (T := spr_frames sp0) in *.
  set (f := spr_frame sp0 + 1). set (K0 := spr_stock sp0) in *.
  unfold newFrame. rewrite get_sprite_bind. fold sp0 f.
  unfold newFrameForLayer, assert.
  replace (0 <=? f) with true by (symmetry; apply Z.leb_le; unfold f; lia).
  rewrite bind_assoc. rewrite (bind_some _ _ s tt s) by reflexivity.
  destruct (traverse_rel (newFrameOfImage en f) (fun k => new_frame_cels K0 f k)
    (fun s1 ls => hist_ok en s1 /\ s_spr s1 = set_stock (spr_stock (s_spr s1)) sp0 /\
       (exists ext, spr_stock (s_spr s1) = K0 ++ ext) /\
       Forall (cels_wf T) (flat_map image_cels ls) /\
       Forall (Forall (fun c => stock_get K0 (cel_image c) <> None)) (flat_map image_cels ls))
    (new_frame_cels_grow K0 f)) with (l := spr_folder sp0) (rest := @nil layer) (s := s)
    as [root [s1 [H1 [Hsh [HR [[ext Hext] [Hok1 [Hs1 _]]]]]]]].
  - intros id bg cs rest s2 [Hok2 [Hs2 [Hext2 [Hwf2 Hlive2]]]].
    simpl in Hwf2, Hlive2. inversion Hwf2 as [|? ? Hwfc Hwfr]; subst.
    inversion Hlive2 as [|? ? Hlc Hlr]; subst.
    assert (HT : spr_frames (s_spr s2) = T) by (rewrite Hs2; reflexivity).
    destruct (newFrameOfImage_ok en f id cs s2 K0 Hok2) as [cs' [s3 [H3 [Hok3 [[e3 He3] [Hs3 HR3]]]]]];
      [rewrite HT; unfold f; lia|rewrite HT; exact Hwfc|exact Hext2|exact Hlc|].
    exists cs', s3. split; [exact H3|]. split; [exact HR3|]. split; [exists e3; exact He3|].
    split; [exact Hok3|]. split; [rewrite Hs3, Hs2 at 1; rewrite set_stock_set_stock; reflexivity|].
    split; [|split; [exact Hwfr|exact Hlr]].
    destruct Hext2 as [e2 He2]. exists (e2 ++ e3). rewrite He3, He2, app_assoc. reflexivity.
  - intros id ch rest s2 [Hok2 [Hs2 [Hext2 [Hwf2 Hlive2]]]].
    rewrite image_cels_folder in Hwf2, Hlive2. auto.
  - split; [exact Hok|]. split; [symmetry; apply set_stock_same|].
    split; [exists []; rewrite app_nil_r; reflexivity|].
    simpl. rewrite app_nil_r. split; [exact Hwf|apply stock_refs_live_cels; exact Hlive].
  - rewrite (bind_some _ _ _ _ _ H1). unfold put_sprite at 1.
    rewrite bind_some with (a := tt) (s' := mkSt (set_folder root (s_spr s1)) (s_hist s1) (s_trace s1))
      by reflexivity.
    rewrite gets_bind. simpl s_spr.
    replace (spr_frames (set_folder root (s_spr s1))) with T by (rewrite Hs1; reflexivity).
    destruct (setNumberOfFrames_ok en (T + 1) (mkSt (set_folder root (s_spr s1)) (s_hist s1) (s_trace s1)))
      as [s2 [H2 [Hok2 Hs2]]]; [exact Hok1|lia|].
    rewrite (bind_some _ _ _ _ _ H2). rewrite gets_bind.
    destruct (setCurrentFrame_ok en (spr_frame (s_spr s2) + 1) s2 Hok2) as [s3 [H3 [Hok3 Hs3]]];
      [rewrite Hs2; simpl; rewrite Hs1; simpl; lia|].
    exists s3, root, ext. split; [exact H3|]. split; [exact Hok3|]. split.
    + rewrite Hs3, Hs2. simpl. rewrite Hs1, Hext. unfold f, K0, T, sp0. destruct (s_spr s); reflexivity.
    + split; [exact Hsh|]. rewrite Hext in HR. exact HR.
Qed.

Lemma insert_nth_perm {A} (n : nat) (x : A) l : Permutation (insert_nth n x l) (x :: l).
Proof.
  revert n; induction l as [|h t IH]; intros [|n]; simpl; try reflexivity.
  rewrite (IH n). apply perm_swap.
Qed.

Lemma nodup_map_inj {A B} (h : A -> B) l :
  NoDup l -> (forall x y, In x l -> In y l -> h x = h y -> x = y) -> NoDup (map h l).
Proof.
  induction l as [|a t IH]; intros Hnd Hinj; simpl; [constructor|].
  apply NoDup_cons_iff in Hnd as [Hnin Hnd]. constructor.
  - intros Hin. apply in_map_iff in Hin as [y [Hy Hin]].
    assert (y = a) by (apply Hinj; simpl; auto). subst y. contradiction.
  - apply IH; [exact Hnd|]. intros x y Hx Hy. apply Hinj; simpl; auto.
Qed.

Lemma newframe_shift_frame f c :
  cel_frame (newframe_shift f c) = if f <=? cel_frame c then cel_frame c + 1 else cel_frame c.
Proof. unfold newframe_shift. destruct (f <=? cel_frame c); reflexivity. Qed.

Lemma newframe_shift_image f c : cel_image (newframe_shift f c) = cel_image c.
Proof. unfold newframe_shift. destruct (f <=? cel_frame c); reflexivity. Qed.

Lemma newframe_shift_wf T f cs :
  cels_wf T cs -> cels_wf (T + 1) (map (newframe_shift f) cs) /\
  Forall (fun c => cel_frame c <> f) (map (newframe_shift f) cs).
Proof.
  intros [Hnd Hr]. unfold cels_wf. split; [split|].
  - rewrite map_map.
    replace (map (fun x => cel_frame (newframe_shift f x)) cs)
      with (map (fun x => if f <=? x then x + 1 else x) (map cel_frame cs))
      by (rewrite map_map; apply map_ext; intros c; symmetry; apply newframe_shift_frame).
    apply nodup_map_inj; [exact Hnd|]. intros x y _ _. zcases.
  - apply Forall_map. rewrite Forall_forall in Hr |- *. intros c Hc. specialize (Hr c Hc).
    simpl in Hr. rewrite newframe_shift_frame. zcases.
  - apply Forall_map. rewrite Forall_forall. intros c _. rewrite newframe_shift_frame. zcases.
Qed.

Lemma new_frame_cels_wf K0 f k T cs cs' :
  1 <= f <= T -> cels_wf T cs -> new_frame_cels K0 f k cs cs' -> cels_wf (T + 1) cs'.
Proof.
  intros Hf Hwf Hr. destruct (newframe_shift_wf T f cs Hwf) as [[Hnd Hrange] Hne].
  unfold new_frame_cels in Hr. destruct (getCelAt cs (f - 1)) as [[p src]|].
  - destruct Hr as [pos [d [img [-> [Hd _]]]]]. split.
    + apply (Permutation_NoDup (Permutation_map cel_frame (Permutation_sym (insert_nth_perm pos d _)))).
      simpl. constructor; [|exact Hnd]. intros Hin. apply in_map_iff in Hin as [c [Hc Hin]].
      rewrite Forall_forall in Hne. apply (Hne c Hin). congruence.
    + apply (Permutation_Forall (Permutation_sym (insert_nth_perm pos d _))).
      constructor; [lia|exact Hrange].
  - subst cs'. split; assumption.
Qed.

Lemma new_frame_cels_live K0 f ext cs cs' :
  Forall (fun c => stock_get K0 (cel_image c) <> None) cs ->
  new_frame_cels K0 f (K0 ++ ext) cs cs' ->
  Forall (fun c => stock_get (K0 ++ ext) (cel_image c) <> None) cs'.
Proof.
  intros Hl Hr.
  assert (Hm : Forall (fun c => stock_get (K0 ++ ext) (cel_image c) <> None)
                      (map (newframe_shift f) cs)).
  { apply Forall_map. rewrite Forall_forall in Hl |- *. intros c Hc.
    rewrite newframe_shift_image. specialize (Hl c Hc).
    destruct (stock_get K0 (cel_image c)) as [img|] eqn:E; [|congruence].
    rewrite (stock_get_app _ _ _ _ E). discriminate. }
  unfold new_frame_cels in Hr. destruct (getCelAt cs (f - 1)) as [[p src]|].
  - destruct Hr as [pos [d [img [-> [_ [_ [_ [_ [_ [_ Hd]]]]]]]]]].
    apply (Permutation_Forall (Permutation_sym (insert_nth_perm pos d _))).
    constructor; [rewrite Hd; discriminate|exact Hm].
  - subst cs'. exact Hm.
Qed.

Lemma Forall2_Forall_r {A B} (R : A -> B -> Prop) (P : A -> Prop) (Q : B -> Prop) a b :
  Forall2 R a b -> Forall P a -> (forall x y, R x y -> P x -> Q y) -> Forall Q b.
Proof. intros H. induction H; intros Ha HPQ; inversion Ha; subst; constructor; eauto. Qed.

(** X1. [newFrame] on a sprite whose current frame is one of its frames,
    whose image layers hold at most one cel per frame within the frames and
    whose cels all index live stock slots: it succeeds; the tree keeps its
    shape; in each image layer the cels at the new frame [cur + 1] or later
    move one frame later and, when the layer has a cel at [cur], a cel with
    its position and opacity is inserted at [cur + 1] over a new stock slot
    appended with a copy of its image; the stock only grows; the frame count
    and the current frame go one up. *)
Theorem newFrame_spec en s :
  hist_ok en s -> 0 <= spr_frame (s_spr s) < spr_frames (s_spr s) ->
  Forall (cels_wf (spr_frames (s_spr s))) (image_cels (spr_folder (s_spr s))) ->
  stock_refs_live (s_spr s) = true ->
  exists s' root ext, newFrame en s = Some (tt, s') /\
    s_spr s' = set_frame (spr_frame (s_spr s) + 1)
                 (set_frames (spr_frames (s_spr s) + 1)
                    (set_stock (spr_stock (s_spr s) ++ ext) (set_folder root (s_spr s)))) /\
    layer_shape root = layer_shape (spr_folder (s_spr s)) /\
    Forall2 (new_frame_cels (spr_stock (s_spr s)) (spr_frame (s_spr s) + 1)
                            (spr_stock (s_spr s) ++ ext))
            (image_cels (spr_folder (s_spr s))) (image_cels root).
Proof.
  intros Hok Hcur Hwf Hlive.
  destruct (newFrame_ok en s Hok Hcur Hwf Hlive) as [s' [root [ext [H1 [_ [H2 [H3 H4]]]]]]].
  exists s', root, ext. auto.
Qed.

Lemma newFrame_spec_witness :
  hist_ok true (mkSt ex_three ex_hist_open []) /\
  0 <= spr_frame ex_three < spr_frames ex_three /\
  Forall (cels_wf (spr_frames ex_three)) (image_cels (spr_folder ex_three)) /\
  stock_refs_live ex_three = true /\
  exists s' root ext, newFrame true (mkSt ex_three ex_hist_open []) = Some (tt, s') /\
    s_spr s' = set_frame (spr_frame ex_three + 1)
                 (set_frames (spr_frames ex_three + 1)
                    (set_stock (spr_stock ex_three ++ ext) (set_folder root ex_three))) /\
    layer_shape root = layer_shape (spr_folder ex_three) /\
    Forall2 (new_frame_cels (spr_stock ex_three) (spr_frame ex_three + 1)
                            (spr_stock ex_three ++ ext))
            (image_cels (spr_folder ex_three)) (image_cels root).
Proof.
  assert (H1 : hist_ok true (mkSt ex_three ex_hist_open [])) by (intros _; vm_compute; discriminate).
  assert (H2 : 0 <= spr_frame ex_three < spr_frames ex_three) by (simpl; lia).
  assert (H3 : Forall (cels_wf (spr_frames ex_three)) (image_cels (spr_folder ex_three))).
  { simpl. repeat constructor; simpl; try lia; intuition lia. }
  assert (H4 : stock_refs_live ex_three = true) by reflexivity.
  split; [exact H1|]. split; [exact H2|]. split; [exact H3|]. split; [exact H4|].
  exact (newFrame_spec true (mkSt ex_three ex_hist_open []) H1 H2 H3 H4).
Defined.

(** X2. Frame contiguity and stock integrity after [newFrame]: under the
    assumptions of X1, the sprite after [newFrame] has one frame more, its
    current frame is the new one, every image layer still holds at most one
    cel per frame, each at a frame of [0, totalFrames), and every cel still
    indexes a live stock slot. *)
Theorem newFrame_frame_contiguity en s :
  hist_ok en s -> 0 <= spr_frame (s_spr s) < spr_frames (s_spr s) ->
  Forall (cels_wf (spr_frames (s_spr s))) (image_cels (spr_folder (s_spr s))) ->
  stock_refs_live (s_spr s) = true ->
  exists s', newFrame en s = Some (tt, s') /\
    spr_frames (s_spr s') = spr_frames (s_spr s) + 1 /\
    spr_frame (s_spr s') = spr_frame (s_spr s) + 1 /\
    Forall (cels_wf (spr_frames (s_spr s'))) (image_cels (spr_folder (s_spr s'))) /\
    stock_refs_live (s_spr s') = true.
Proof.
  intros Hok Hcur Hwf Hlive.
  destruct (newFrame_ok en s Hok Hcur Hwf Hlive) as [s' [root [ext [H1 [_ [H2 [_ H4]]]]]]].
  exists s'. split; [exact H1|]. rewrite H2. simpl. split; [reflexivity|]. split; [reflexivity|].
  split.
  - apply (Forall2_Forall_r _ _ _ _ _ H4 Hwf). intros cs cs' Hr Hw.
    apply (new_frame_cels_wf (spr_stock (s_spr s)) (spr_frame (s_spr s) + 1)
             (spr_stock (s_spr s) ++ ext) (spr_frames (s_spr s)) cs cs');
      [lia|exact Hw|exact Hr].
  - unfold stock_refs_live. simpl. rewrite image_cels_all_cels.
    apply forallb_forall. intros c Hc. apply in_concat in Hc as [cs' [Hcs' Hc]].
    pose proof (Forall2_Forall_r _ _ _ _ _ H4 (stock_refs_live_cels _ Hlive)
                  (fun cs cs' Hr Hl => new_frame_cels_live _ _ _ cs cs' Hl Hr)) as HL.
    rewrite Forall_forall in HL. specialize (HL cs' Hcs'). rewrite Forall_forall in HL.
    specialize (HL c Hc). destruct (stock_get _ (cel_image c)); [reflexivity|congruence].
Qed.

Lemma newFrame_frame_contiguity_witness :
  hist_ok true (mkSt ex_three ex_hist_open []) /\
  0 <= spr_frame ex_three < spr_frames ex_three /\
  Forall (cels_wf (spr_frames ex_three)) (image_cels (spr_folder ex_three)) /\
  stock_refs_live ex_three = true /\
  exists s', newFrame true (mkSt ex_three ex_hist_open []) = Some (tt, s') /\
    spr_frames (s_spr s') = spr_frames ex_three + 1 /\
    spr_frame (s_spr s') = spr_frame ex_three + 1 /\
    Forall (cels_wf (spr_frames (s_spr s'))) (image_cels (spr_folder (s_spr s'))) /\
    stock_refs_live (s_spr s') = true.
Proof.
  assert (H1 : hist_ok true (mkSt ex_three ex_hist_open [])) by (intros _; vm_compute; discriminate).
  assert (H2 : 0 <= spr_frame ex_three < spr_frames ex_three) by (simpl; lia).
  assert (H3 : Forall (cels_wf (spr_frames ex_three)) (image_cels (spr_folder ex_three))).
  { simpl. repeat constructor; simpl; try lia; intuition lia. }
  assert (H4 : stock_refs_live ex_three = true) by reflexivity.
  split; [exact H1|]. split; [exact H2|]. split; [exact H3|]. split; [exact H4|].
  exact (newFrame_frame_contiguity true (mkSt ex_three ex_hist_open []) H1 H2 H3 H4).
Defined.

(** ** Further operations: frame durations *)

Lemma record_some r s g :
  h_open (s_hist s) = Some g ->
  record r s = Some (tt, mkSt (s_spr s)
                              (mkHistory (h_enabled (s_hist s)) (Some (g ++ [r]))
                                         (h_undo (s_hist s)) (h_redo (s_hist s)))
                              (s_trace s ++ [EvLog r])).
Proof. intros Hg. unfold record. rewrite Hg. reflexivity. Qed.

Lemma setConstantFrameRate_loop (sp : sprite) :
  forall n from s g, s_spr s = sp -> h_open (s_hist s) = Some g ->
  exists s', for_up n from
    (fun fr => s <- get_sprite ;; record (UndoFrlen fr (getFrameDuration s fr))) s = Some (tt, s') /\
    s_spr s' = sp /\
    h_open (s_hist s') = Some (g ++ map (fun fr => UndoFrlen fr (getFrameDuration sp fr))
                                        (map (fun k => from + Z.of_nat k) (seq 0 n))).
Proof.
  induction n as [|n IH]; intros from s g Hs Hg; simpl for_up.
  - exists s. rewrite app_nil_r. auto.
  - rewrite bind_assoc, get_sprite_bind. rewrite Hs.
    rewrite (bind_some _ _ _ _ _ (record_some _ s g Hg)).
    edestruct (IH (from + 1)) as [s' [H1 [H2 H3]]];
      [| |rewrite H1; exists s'; split; [reflexivity|]; split; [exact H2|]; rewrite H3]; simpl.
    + exact Hs.
    + reflexivity.
    + rewrite <- app_assoc. simpl. f_equal. f_equal. rewrite Z.add_0_r. f_equal.
      rewrite <- seq_shift, !map_map. apply map_ext. intros k. replace (from + Z.of_nat (S k)) with (from + 1 + Z.of_nat k) by lia. reflexivity.
Qed.

Lemma replay_frlens (sp0 sp : sprite) (l : list Z) :
  spr_frames sp = spr_frames sp0 -> Forall (fun fr => 0 <= fr < spr_frames sp0) l ->
  fold_left (fun acc r => match acc with Some s => apply_inverse r s | None => None end)
    (map (fun fr => UndoFrlen fr (getFrameDuration sp0 fr)) l) (Some sp) =
  Some (set_frlens (fold_left (fun acc fr => upd_nth (Z.to_nat fr) (nth (Z.to_nat fr) (spr_frlens sp0) 0) acc)
                              l (spr_frlens sp)) sp).
Proof.
  revert sp. induction l as [|fr l IH]; intros sp Hfr Hl; simpl.
  - rewrite set_frlens_same. reflexivity.
  - inversion Hl as [|? ? Hx Hl']; subst.
    assert (B : (0 <=? fr) && (fr <? spr_frames sp0) = true)
      by (apply andb_true_iff; split; [apply Z.leb_le|apply Z.ltb_lt]; lia).
    assert (E1 : getFrameDuration sp0 fr = nth (Z.to_nat fr) (spr_frlens sp0) 0)
      by (unfold getFrameDuration; rewrite B; reflexivity).
    assert (E2 : setFrameDuration_spr fr (nth (Z.to_nat fr) (spr_frlens sp0) 0) sp =
                 set_frlens (upd_nth (Z.to_nat fr) (nth (Z.to_nat fr) (spr_frlens sp0) 0)
                                     (spr_frlens sp)) sp)
      by (unfold setFrameDuration_spr; rewrite Hfr, B; reflexivity).
    rewrite E1, E2. rewrite IH; [|destruct sp; exact Hfr|exact Hl'].
    destruct sp; reflexivity.
Qed.

Lemma fold_upd_nth_length (v : Z -> Z) (l : list Z) (L : list Z) :
  List.length (fold_left (fun acc fr => upd_nth (Z.to_nat fr) (v fr) acc) l L) = List.length L.
Proof.
  revert L. induction l as [|fr l IH]; intros L; simpl; [reflexivity|].
  rewrite IH. apply upd_nth_length.
Qed.

Lemma fold_upd_nth_nth (orig : list Z) (l : list Z) (L : list Z) :
  List.length L = List.length orig ->
  forall i, (i < List.length orig)%nat ->
  nth i (fold_left (fun acc fr => upd_nth (Z.to_nat fr) (nth (Z.to_nat fr) orig 0) acc) l L) 0 =
  if existsb (fun fr => Nat.eqb (Z.to_nat fr) i) l then nth i orig 0 else nth i L 0.
Proof.
  revert L. induction l as [|fr l IH]; intros L HL i Hi; simpl; [reflexivity|].
  rewrite IH; [|rewrite upd_nth_length; exact HL|exact Hi].
  destruct (existsb (fun fr0 => Nat.eqb (Z.to_nat fr0) i) l); [rewrite orb_true_r; reflexivity|].
  rewrite orb_false_r. destruct (Nat.eqb_spec (Z.to_nat fr) i) as [<-|Hne].
  - apply nth_upd_nth_eq. lia.
  - apply nth_upd_nth_neq. exact Hne.
Qed.

Lemma setConstantFrameRate_journal s msecs g :
  h_open (s_hist s) = Some g ->
  List.length (spr_frlens (s_spr s)) = Z.to_nat (spr_frames (s_spr s)) ->
  exists s' g', setConstantFrameRate true msecs s = Some (tt, s') /\
    h_open (s_hist s') = Some (g ++ g') /\
    (forall fr, 0 <= fr < spr_frames (s_spr s) -> getFrameDuration (s_spr s') fr = msecs) /\
    replay g' (s_spr s') = Some (s_spr s).
Proof.
  intros Hg Hlen. set (sp0 := s_spr s) in *. set (T := spr_frames sp0) in *.
  unfold setConstantFrameRate. rewrite get_sprite_bind. fold sp0 T. simpl (when _ _).
  destruct (setConstantFrameRate_loop sp0 (Z.to_nat T) 0 s g eq_refl Hg) as [s1 [H1 [Hs1 Hg1]]].
  rewrite (bind_some _ _ _ _ _ H1). unfold mutate.
  set (l := map (fun k => 0 + Z.of_nat k) (seq 0 (Z.to_nat T))) in *.
  assert (Hl : forall fr, In fr l <-> 0 <= fr < T).
  { intros fr. unfold l. rewrite in_map_iff. split.
    - intros [k [<- Hk]]. apply in_seq in Hk. lia.
    - intros Hfr. exists (Z.to_nat fr). split; [lia|]. apply in_seq. lia. }
  eexists. exists (map (fun fr => UndoFrlen fr (getFrameDuration sp0 fr)) l).
  split; [reflexivity|]. simpl. rewrite Hs1. split; [exact Hg1|]. split.
  - intros fr Hfr. unfold getFrameDuration, setDurationForAllFrames. simpl. fold T.
    replace ((0 <=? fr) && (fr <? T)) with true
      by (symmetry; apply andb_true_iff; split; [apply Z.leb_le|apply Z.ltb_lt]; lia).
    assert (Hn : (Z.to_nat fr < List.length (spr_frlens sp0))%nat) by lia.
    revert Hn. generalize (spr_frlens sp0) (Z.to_nat fr). clear.
    intros L. induction L as [|h t IH]; intros [|n] Hn; simpl in *; try lia; auto.
    apply IH. lia.
  - unfold replay. rewrite <- map_rev.
    rewrite (replay_frlens sp0 (setDurationForAllFrames msecs sp0) (rev l)).
    + f_equal. unfold setDurationForAllFrames. rewrite set_frlens_set_frlens.
      transitivity (set_frlens (spr_frlens sp0) sp0); [|apply set_frlens_same]. f_equal.
      apply nth_ext with (d := 0) (d' := 0).
      * rewrite fold_upd_nth_length. simpl. rewrite length_map. reflexivity.
      * intros i Hi. rewrite fold_upd_nth_length in Hi. simpl in Hi. rewrite length_map in Hi.
        rewrite fold_upd_nth_nth; [| simpl; rewrite length_map; reflexivity | exact Hi].
        replace (existsb (fun fr => Nat.eqb (Z.to_nat fr) i) (rev l)) with true; [reflexivity|].
        symmetry. apply existsb_exists. exists (Z.of_nat i). split.
        -- apply in_rev. rewrite rev_involutive. apply Hl. lia.
        -- apply Nat.eqb_eq. lia.
    + reflexivity.
    + apply Forall_forall. intros fr Hfr. apply in_rev in Hfr. apply Hl. exact Hfr.
Qed.

(** X3. [setConstantFrameRate(msecs)] with the journal enabled and a group
    open, on a sprite with one duration per frame: afterwards every frame
    lasts [msecs], and replaying the records it appended to the group (one
    per frame) gives back the sprite as it was. *)
Theorem setConstantFrameRate_undo s msecs g :
  h_open (s_hist s) = Some g ->
  List.length (spr_frlens (s_spr s)) = Z.to_nat (spr_frames (s_spr s)) ->
  exists s' g', setConstantFrameRate true msecs s = Some (tt, s') /\
    h_open (s_hist s') = Some (g ++ g') /\
    (forall fr, 0 <= fr < spr_frames (s_spr s) -> getFrameDuration (s_spr s') fr = msecs) /\
    replay g' (s_spr s') = Some (s_spr s).
Proof. exact (setConstantFrameRate_journal s msecs g). Qed.

Lemma setConstantFrameRate_undo_witness :
  h_open (s_hist (mkSt ex_three ex_hist_open [])) = Some [] /\
  List.length (spr_frlens ex_three) = Z.to_nat (spr_frames ex_three) /\
  exists s' g', setConstantFrameRate true 40 (mkSt ex_three ex_hist_open []) = Some (tt, s') /\
    h_open (s_hist s') = Some ([] ++ g') /\
    (forall fr, 0 <= fr < spr_frames ex_three -> getFrameDuration (s_spr s') fr = 40) /\
    replay g' (s_spr s') = Some ex_three.
Proof.
  assert (H1 : h_open (s_hist (mkSt ex_three ex_hist_open [])) = Some []) by reflexivity.
  assert (H2 : List.length (spr_frlens (s_spr (mkSt ex_three ex_hist_open []))) =
               Z.to_nat (spr_frames (s_spr (mkSt ex_three ex_hist_open [])))) by reflexivity.
  split; [exact H1|]. split; [exact H2|].
  exact (setConstantFrameRate_undo (mkSt ex_three ex_hist_open []) 40 [] H1 H2).
Defined.

(** ** Further operations: current cel, masked clear and paste *)

Lemma upd_nth_upd_nth {A} (l : list A) n x y : upd_nth n x (upd_nth n y l) = upd_nth n x l.
Proof. revert n; induction l as [|h t IH]; intros [|n]; simpl; f_equal; auto. Qed.

Lemma upd_nth_nth_error {A} (l : list A) n x : nth_error l n = Some x -> upd_nth n x l = l.
Proof.
  revert n; induction l as [|h t IH]; intros [|n] E; simpl in *; try discriminate.
  - injection E as ->. reflexivity.
  - f_equal. apply IH. exact E.
Qed.

(** Putting back the image a slot held undoes any change of the slot. *)
Lemma stock_set_restore k i o img :
  stock_get k i = Some img -> stock_set i (Some img) (stock_set i o k) = k.
Proof.
  unfold stock_get, stock_set. destruct (i <? 0); [discriminate|].
  destruct (nth_error k (Z.to_nat i)) as [[im|]|] eqn:E; intros H; try discriminate.
  injection H as ->. rewrite upd_nth_upd_nth. apply upd_nth_nth_error. exact E.
Qed.

Lemma getCelImage_some sp cel image :
  getCelImage sp cel = Some image -> stock_get (spr_stock sp) (cel_image cel) = Some image.
Proof. unfold getCelImage. destruct (_ && _); [auto|discriminate]. Qed.

Lemma getCurrentCel_some sp path lid bg cels pos cel :
  getCurrentCel sp = Some (path, lid, bg, cels, pos, cel) ->
  layer_at path (spr_folder sp) = Some (LayerImage lid bg cels) /\ nth_error cels pos = Some cel.
Proof.
  unfold getCurrentCel, current_image_layer.
  destruct (spr_layer sp) as [id|]; [|discriminate].
  destruct (find_path id (spr_folder sp)) as [p|]; [|discriminate].
  destruct (layer_at p (spr_folder sp)) as [[lid' bg' cels'|]|] eqn:L; try discriminate.
  unfold getCelAt. destruct (getCel cels' (spr_frame sp)) as [q|]; [|discriminate].
  destruct (nth_error cels' q) as [c|] eqn:N; [|discriminate].
  intros H. injection H as <- <- <- <- <- <-. auto.
Qed.

Lemma when_record_trace en r s :
  hist_ok en s ->
  exists s', when en (record r) s = Some (tt, s') /\ s_spr s' = s_spr s /\
    s_trace s' = s_trace s ++ (if en then [EvLog r] else []).
Proof.
  intros Hok. destruct (when_record en r s Hok) as [s' [H1 [H2 [_ H3]]]]. eauto.
Qed.

Section CurrentCel.
Context {PS : PixelSurface} {PE : PixelEdit}.

(** X4. [clearMask(bgcolor)] does nothing (the state, the journal and the
    trace of mutations stay as they are) when there is no current cel,
    when the cel's image index is not a slot of the stock or its slot is
    empty, or when the mask is not empty and its rectangle, placed at its
    offset from the cel, does not meet the cel's image. *)
Theorem clearMask_noop en bgcolor s :
  (getCurrentCel (s_spr s) = None \/
   (exists path lid bg cels pos cel,
      getCurrentCel (s_spr s) = Some (path, lid, bg, cels, pos, cel) /\
      getCelImage (s_spr s) cel = None) \/
   (exists path lid bg cels pos cel image bitmap,
      getCurrentCel (s_spr s) = Some (path, lid, bg, cels, pos, cel) /\
      getCelImage (s_spr s) cel = Some image /\
      mask_bitmap (spr_mask (s_spr s)) = Some bitmap /\
      let m := spr_mask (s_spr s) in
      let offset_x := mask_x m - cel_x cel in
      let offset_y := mask_y m - cel_y cel in
      (Z.min (img_w image - 1) (offset_x + mask_w m - 1) < Z.max 0 offset_x \/
       Z.min (img_h image - 1) (offset_y + mask_h m - 1) < Z.max 0 offset_y))) ->
  clearMask en bgcolor s = Some (tt, s).
Proof.
  intros Hc. unfold clearMask. rewrite get_sprite_bind.
  destruct Hc as [E|[[path [lid [bg [cels [pos [cel [E1 E2]]]]]]]|
                     [path [lid [bg [cels [pos [cel [image [bitmap [E1 [E2 [E3 Hr]]]]]]]]]]]]].
  - rewrite E. reflexivity.
  - rewrite E1, E2. reflexivity.
  - rewrite E1, E2, E3. cbv zeta in Hr |- *.
    replace (_ || _) with true; [reflexivity|].
    symmetry. apply orb_true_iff. destruct Hr as [Hr|Hr]; [left|right]; apply Z.ltb_lt; exact Hr.
Qed.

(** X5. [clearMask(bgcolor)] with an empty mask, on a current cel of the
    background layer whose image is in the stock: the cel's image is
    cleared to [bgcolor] and nothing else of the sprite changes; when the
    journal is enabled the old image is recorded first, and replaying that
    record gives back the sprite as it was. *)
Theorem clearMask_clears_background en bgcolor s path lid cels pos cel image :
  hist_ok en s ->
  getCurrentCel (s_spr s) = Some (path, lid, true, cels, pos, cel) ->
  getCelImage (s_spr s) cel = Some image ->
  mask_bitmap (spr_mask (s_spr s)) = None ->
  exists s', clearMask en bgcolor s = Some (tt, s') /\
    s_spr s' = set_stock (stock_set (cel_image cel) (Some (image_clear image bgcolor))
                                    (spr_stock (s_spr s))) (s_spr s) /\
    s_trace s' = s_trace s ++ (if en then [EvLog (UndoImage (cel_image cel) image)] else [])
                           ++ [EvMut MutPixels] /\
    apply_inverse (UndoImage (cel_image cel) image) (s_spr s') = Some (s_spr s).
Proof.
  intros Hok E1 E2 E3. unfold clearMask. rewrite get_sprite_bind, E1, E2, E3.
  destruct (when_record_trace en (UndoImage (cel_image cel) image) s Hok) as [s1 [H1 [Hs1 Ht1]]].
  rewrite (bind_some _ _ _ _ _ H1). unfold mutate.
  eexists. split; [reflexivity|]. simpl. rewrite Hs1, Ht1, app_assoc. split; [reflexivity|].
  split; [reflexivity|]. f_equal. rewrite set_stock_set_stock.
  rewrite (stock_set_restore _ _ _ _ (getCelImage_some _ _ _ E2)). apply set_stock_same.
Qed.

(** X6. [clearMask(bgcolor)] with an empty mask, on a current cel of a
    transparent (non-background) layer whose image is in the stock: the
    cel is removed from its layer as by [removeCel], which frees the
    cel's stock slot or leaves the stock as it is; nothing else of the
    sprite changes. *)
Theorem clearMask_removes_transparent_cel en bgcolor s path lid cels pos cel image :
  hist_ok en s ->
  getCurrentCel (s_spr s) = Some (path, lid, false, cels, pos, cel) ->
  getCelImage (s_spr s) cel = Some image ->
  mask_bitmap (spr_mask (s_spr s)) = None ->
  exists s', clearMask en bgcolor s = Some (tt, s') /\
    layer_at path (spr_folder (s_spr s')) = Some (LayerImage lid false (remove_nth pos cels)) /\
    let folder' := update_at path (with_cels (remove_nth pos cels)) (spr_folder (s_spr s)) in
    (s_spr s' = set_folder folder' (s_spr s) \/
     s_spr s' = set_folder folder'
                  (set_stock (stock_set (cel_image cel) None (spr_stock (s_spr s))) (s_spr s))).
Proof.
  intros Hok E1 E2 E3. destruct (getCurrentCel_some _ _ _ _ _ _ _ E1) as [L N].
  unfold clearMask. rewrite get_sprite_bind, E1, E2, E3.
  assert (Hl : stock_get (spr_stock (s_spr s)) (cel_image cel) <> None)
    by (rewrite (getCelImage_some _ _ _ E2); discriminate).
  destruct (removeCel_ok en lid cels pos cel s Hok N Hl) as [s1 [H1 [_ Hs1]]].
  rewrite (bind_some _ _ _ _ _ H1). unfold put_sprite.
  eexists. split; [reflexivity|]. simpl.
  destruct Hs1 as [Hs1|Hs1]; rewrite Hs1; simpl.
  - split; [|left; reflexivity].
    rewrite layer_at_update_at, L. reflexivity.
  - split; [|right; reflexivity].
    destruct (s_spr s); simpl in *. rewrite layer_at_update_at, L. reflexivity.
Qed.

(** X7. [clearMask(bgcolor)] with a non-empty mask whose rectangle meets
    the image of the current cel: the slot of the cel's image gets the
    image with every pixel under a set bit of the mask put to [bgcolor]
    (at its place relative to the cel); nothing else of the sprite
    changes; when the journal is enabled the old image is recorded first,
    and replaying that record gives back the sprite as it was. *)
Theorem clearMask_clears_masked en bgcolor s path lid bg cels pos cel image bitmap :
  hist_ok en s ->
  getCurrentCel (s_spr s) = Some (path, lid, bg, cels, pos, cel) ->
  getCelImage (s_spr s) cel = Some image ->
  mask_bitmap (spr_mask (s_spr s)) = Some bitmap ->
  let m := spr_mask (s_spr s) in
  let offset_x := mask_x m - cel_x cel in
  let offset_y := mask_y m - cel_y cel in
  Z.max 0 offset_x <= Z.min (img_w image - 1) (offset_x + mask_w m - 1) ->
  Z.max 0 offset_y <= Z.min (img_h image - 1) (offset_y + mask_h m - 1) ->
  exists s', clearMask en bgcolor s = Some (tt, s') /\
    s_spr s' = set_stock (stock_set (cel_image cel)
                            (Some (clear_masked_pixels image m bitmap offset_x offset_y bgcolor))
                            (spr_stock (s_spr s))) (s_spr s) /\
    s_trace s' = s_trace s ++ (if en then [EvLog (UndoImage (cel_image cel) image)] else [])
                           ++ [EvMut MutPixels] /\
    apply_inverse (UndoImage (cel_image cel) image) (s_spr s') = Some (s_spr s).
Proof.
  intros Hok E1 E2 E3 m ox oy Hx Hy. unfold clearMask. rewrite get_sprite_bind, E1, E2, E3.
  fold m ox oy.
  replace (_ || _) with false
    by (symmetry; apply orb_false_iff; split; apply Z.ltb_ge; assumption).
  destruct (when_record_trace en (UndoImage (cel_image cel) image) s Hok) as [s1 [H1 [Hs1 Ht1]]].
  rewrite (bind_some _ _ _ _ _ H1). unfold mutate.
  eexists. split; [reflexivity|]. simpl. rewrite Hs1, Ht1, app_assoc. split; [reflexivity|].
  split; [reflexivity|]. f_equal. rewrite set_stock_set_stock.
  rewrite (stock_set_restore _ _ _ _ (getCelImage_some _ _ _ E2)). apply set_stock_same.
Qed.

(** X9. [pasteImage] fails (its assertions) when the current layer is not
    an image layer, when that layer has no cel at the current frame, or
    when the slot of the cel's image is empty. *)
Theorem pasteImage_fails_without_cel_image en s src_image x y opacity :
  (current_image_layer (s_spr s) = None \/
   (exists path lid bg cels, current_image_layer (s_spr s) = Some (path, lid, bg, cels) /\
      getCelAt cels (spr_frame (s_spr s)) = None) \/
   (exists path lid bg cels pos cel, current_image_layer (s_spr s) = Some (path, lid, bg, cels) /\
      getCelAt cels (spr_frame (s_spr s)) = Some (pos, cel) /\
      stock_get (spr_stock (s_spr s)) (cel_image cel) = None)) ->
  pasteImage en src_image x y opacity s = None.
Proof.
  intros Hc. unfold pasteImage. rewrite get_sprite_bind.
  destruct Hc as [E|[[path [lid [bg [cels [E1 E2]]]]]|
                     [path [lid [bg [cels [pos [cel [E1 [E2 E3]]]]]]]]]].
  - rewrite E. reflexivity.
  - rewrite E1, E2. reflexivity.
  - rewrite E1, E2. apply bind_none. unfold some. rewrite E3. reflexivity.
Qed.

End CurrentCel.

(** X10. [copyToCurrentMask(mask)]: the sprite's mask takes the position,
    size and bitmap of [mask] and keeps its name; nothing else of the
    sprite changes; when the journal is enabled the old mask is recorded
    first, and replaying that record gives back the sprite as it was. *)
Theorem copyToCurrentMask_spec en s m :
  hist_ok en s ->
  exists s', copyToCurrentMask en m s = Some (tt, s') /\
    s_spr s' = set_mask (mkMask (mask_name (spr_mask (s_spr s))) (mask_x m) (mask_y m)
                                (mask_w m) (mask_h m) (mask_bitmap m)) (s_spr s) /\
    s_trace s' = s_trace s ++ (if en then [EvLog (UndoSetMask (spr_mask (s_spr s)))] else [])
                           ++ [EvMut MutMask] /\
    apply_inverse (UndoSetMask (spr_mask (s_spr s))) (s_spr s') = Some (s_spr s).
Proof.
  intros Hok. unfold copyToCurrentMask. rewrite get_sprite_bind.
  destruct (when_record_trace en (UndoSetMask (spr_mask (s_spr s))) s Hok) as [s1 [H1 [Hs1 Ht1]]].
  rewrite (bind_some _ _ _ _ _ H1). unfold mutate.
  eexists. split; [reflexivity|]. simpl. rewrite Hs1, Ht1, app_assoc. split; [reflexivity|].
  split; [reflexivity|]. f_equal. destruct (s_spr s); reflexivity.
Qed.

Definition ex_bg_cel : sprite :=
  ex_sprite (LayerFolder 0 [LayerImage 1 true [cel_new 0 1]]) [None; Some img_a] 1 (Some 1%nat).
(** [ex_one_layer] with a one-pixel mask outside its 2x2 cel image. *)
Definition ex_mask_far : sprite :=
  set_mask (mkMask ""%string 5 5 1 1 (Some [[true]])) ex_one_layer.
(** [ex_one_layer] with a one-pixel mask on the first pixel of its cel image. *)
Definition ex_mask_corner : sprite :=
  set_mask (mkMask ""%string 0 0 1 1 (Some [[true]])) ex_one_layer.

Lemma clearMask_noop_witness :
  (getCurrentCel ex_mask_far = None \/
   (exists path lid bg cels pos cel,
      getCurrentCel ex_mask_far = Some (path, lid, bg, cels, pos, cel) /\
      getCelImage ex_mask_far cel = None) \/
   (exists path lid bg cels pos cel image bitmap,
      getCurrentCel ex_mask_far = Some (path, lid, bg, cels, pos, cel) /\
      getCelImage ex_mask_far cel = Some image /\
      mask_bitmap (spr_mask ex_mask_far) = Some bitmap /\
      let m := spr_mask ex_mask_far in
      let offset_x := mask_x m - cel_x cel in
      let offset_y := mask_y m - cel_y cel in
      (Z.min (img_w image - 1) (offset_x + mask_w m - 1) < Z.max 0 offset_x \/
       Z.min (img_h image - 1) (offset_y + mask_h m - 1) < Z.max 0 offset_y))) /\
  clearMask true 0 (mkSt ex_mask_far ex_hist_open []) = Some (tt, mkSt ex_mask_far ex_hist_open []).
Proof.
  assert (H : getCurrentCel ex_mask_far = None \/
   (exists path lid bg cels pos cel,
      getCurrentCel ex_mask_far = Some (path, lid, bg, cels, pos, cel) /\
      getCelImage ex_mask_far cel = None) \/
   (exists path lid bg cels pos cel image bitmap,
      getCurrentCel ex_mask_far = Some (path, lid, bg, cels, pos, cel) /\
      getCelImage ex_mask_far cel = Some image /\
      mask_bitmap (spr_mask ex_mask_far) = Some bitmap /\
      let m := spr_mask ex_mask_far in
      let offset_x := mask_x m - cel_x cel in
      let offset_y := mask_y m - cel_y cel in
      (Z.min (img_w image - 1) (offset_x + mask_w m - 1) < Z.max 0 offset_x \/
       Z.min (img_h image - 1) (offset_y + mask_h m - 1) < Z.max 0 offset_y))).
  { right; right. exists [0%nat], 1%nat, false, [cel_new 0 1], 0%nat, (cel_new 0 1), img_a, [[true]].
    split; [reflexivity|]. split; [reflexivity|]. split; [reflexivity|].
    simpl. lia. }
  split; [exact H|]. exact (clearMask_noop true 0 (mkSt ex_mask_far ex_hist_open []) H).
Defined.

Lemma clearMask_clears_background_witness :
  hist_ok true (mkSt ex_bg_cel ex_hist_open []) /\
  getCurrentCel ex_bg_cel = Some ([0%nat], 1%nat, true, [cel_new 0 1], 0%nat, cel_new 0 1) /\
  getCelImage ex_bg_cel (cel_new 0 1) = Some img_a /\
  mask_bitmap (spr_mask ex_bg_cel) = None /\
  exists s', clearMask true 9 (mkSt ex_bg_cel ex_hist_open []) = Some (tt, s') /\
    s_spr s' = set_stock (stock_set 1 (Some (image_clear img_a 9)) (spr_stock ex_bg_cel)) ex_bg_cel /\
    s_trace s' = [] ++ [EvLog (UndoImage 1 img_a)] ++ [EvMut MutPixels] /\
    apply_inverse (UndoImage 1 img_a) (s_spr s') = Some ex_bg_cel.
Proof.
  assert (H1 : hist_ok true (mkSt ex_bg_cel ex_hist_open [])) by (intros _; vm_compute; discriminate).
  assert (H2 : getCurrentCel ex_bg_cel = Some ([0%nat], 1%nat, true, [cel_new 0 1], 0%nat, cel_new 0 1))
    by reflexivity.
  assert (H3 : getCelImage ex_bg_cel (cel_new 0 1) = Some img_a) by reflexivity.
  assert (H4 : mask_bitmap (spr_mask ex_bg_cel) = None) by reflexivity.
  split; [exact H1|]. split; [exact H2|]. split; [exact H3|]. split; [exact H4|].
  exact (clearMask_clears_background true 9 (mkSt ex_bg_cel ex_hist_open []) _ _ _ _ _ _ H1 H2 H3 H4).
Defined.

Lemma clearMask_removes_transparent_cel_witness :
  hist_ok true (mkSt ex_one_layer ex_hist_open []) /\
  getCurrentCel ex_one_layer = Some ([0%nat], 1%nat, false, [cel_new 0 1], 0%nat, cel_new 0 1) /\
  getCelImage ex_one_layer (cel_new 0 1) = Some img_a /\
  mask_bitmap (spr_mask ex_one_layer) = None /\
  exists s', clearMask true 9 (mkSt ex_one_layer ex_hist_open []) = Some (tt, s') /\
    layer_at [0%nat] (spr_folder (s_spr s')) = Some (LayerImage 1 false (remove_nth 0 [cel_new 0 1])) /\
    let folder' := update_at [0%nat] (with_cels (remove_nth 0 [cel_new 0 1])) (spr_folder ex_one_layer) in
    (s_spr s' = set_folder folder' ex_one_layer \/
     s_spr s' = set_folder folder' (set_stock (stock_set 1 None (spr_stock ex_one_layer)) ex_one_layer)).
Proof.
  assert (H1 : hist_ok true (mkSt ex_one_layer ex_hist_open [])) by (intros _; vm_compute; discriminate).
  assert (H2 : getCurrentCel ex_one_layer = Some ([0%nat], 1%nat, false, [cel_new 0 1], 0%nat, cel_new 0 1))
    by reflexivity.
  assert (H3 : getCelImage ex_one_layer (cel_new 0 1) = Some img_a) by reflexivity.
  assert (H4 : mask_bitmap (spr_mask ex_one_layer) = None) by reflexivity.
  split; [exact H1|]. split; [exact H2|]. split; [exact H3|]. split; [exact H4|].
  exact (clearMask_removes_transparent_cel true 9 (mkSt ex_one_layer ex_hist_open []) _ _ _ _ _ _ H1 H2 H3 H4).
Defined.

Lemma clearMask_clears_masked_witness :
  hist_ok true (mkSt ex_mask_corner ex_hist_open []) /\
  getCurrentCel ex_mask_corner = Some ([0%nat], 1%nat, false, [cel_new 0 1], 0%nat, cel_new 0 1) /\
  getCelImage ex_mask_corner (cel_new 0 1) = Some img_a /\
  mask_bitmap (spr_mask ex_mask_corner) = Some [[true]] /\
  Z.max 0 0 <= Z.min (img_w img_a - 1) (0 + 1 - 1) /\
  Z.max 0 0 <= Z.min (img_h img_a - 1) (0 + 1 - 1) /\
  exists s', clearMask true 9 (mkSt ex_mask_corner ex_hist_open []) = Some (tt, s') /\
    s_spr s' = set_stock (stock_set 1
                            (Some (clear_masked_pixels img_a (spr_mask ex_mask_corner) [[true]] 0 0 9))
                            (spr_stock ex_mask_corner)) ex_mask_corner /\
    s_trace s' = [] ++ [EvLog (UndoImage 1 img_a)] ++ [EvMut MutPixels] /\
    apply_inverse (UndoImage 1 img_a) (s_spr s') = Some ex_mask_corner.
Proof.
  assert (H1 : hist_ok true (mkSt ex_mask_corner ex_hist_open [])) by (intros _; vm_compute; discriminate).
  assert (H2 : getCurrentCel ex_mask_corner = Some ([0%nat], 1%nat, false, [cel_new 0 1], 0%nat, cel_new 0 1))
    by reflexivity.
  assert (H3 : getCelImage ex_mask_corner (cel_new 0 1) = Some img_a) by reflexivity.
  assert (H4 : mask_bitmap (spr_mask ex_mask_corner) = Some [[true]]) by reflexivity.
  assert (H5 : Z.max 0 0 <= Z.min (img_w img_a - 1) (0 + 1 - 1)) by (simpl; lia).
  assert (H6 : Z.max 0 0 <= Z.min (img_h img_a - 1) (0 + 1 - 1)) by (simpl; lia).
  split; [exact H1|]. split; [exact H2|]. split; [exact H3|]. split; [exact H4|].
  split; [exact H5|]. split; [exact H6|].
  exact (clearMask_clears_masked true 9 (mkSt ex_mask_corner ex_hist_open []) _ _ _ _ _ _ _ _
           H1 H2 H3 H4 H5 H6).
Defined.

Lemma pasteImage_fails_without_cel_image_witness :
  (current_image_layer ex_bg_empty = None \/
   (exists path lid bg cels, current_image_layer ex_bg_empty = Some (path, lid, bg, cels) /\
      getCelAt cels (spr_frame ex_bg_empty) = None) \/
   (exists path lid bg cels pos cel, current_image_layer ex_bg_empty = Some (path, lid, bg, cels) /\
      getCelAt cels (spr_frame ex_bg_empty) = Some (pos, cel) /\
      stock_get (spr_stock ex_bg_empty) (cel_image cel) = None)) /\
  pasteImage true img_b 0 0 255 (mkSt ex_bg_empty ex_hist_open []) = None.
Proof.
  assert (H : current_image_layer ex_bg_empty = None \/
   (exists path lid bg cels, current_image_layer ex_bg_empty = Some (path, lid, bg, cels) /\
      getCelAt cels (spr_frame ex_bg_empty) = None) \/
   (exists path lid bg cels pos cel, current_image_layer ex_bg_empty = Some (path, lid, bg, cels) /\
      getCelAt cels (spr_frame ex_bg_empty) = Some (pos, cel) /\
      stock_get (spr_stock ex_bg_empty) (cel_image cel) = None)).
  { right; left. exists [0%nat], 1%nat, true, []. split; reflexivity. }
  split; [exact H|].
  exact (pasteImage_fails_without_cel_image true (mkSt ex_bg_empty ex_hist_open []) img_b 0 0 255 H).
Defined.

Lemma copyToCurrentMask_spec_witness :
  hist_ok true (mkSt ex_one_layer ex_hist_open []) /\
  exists s', copyToCurrentMask true (spr_mask ex_mask_corner) (mkSt ex_one_layer ex_hist_open []) =
               Some (tt, s') /\
    s_spr s' = set_mask (mkMask (mask_name (spr_mask ex_one_layer)) 0 0 1 1 (Some [[true]]))
                        ex_one_layer /\
    s_trace s' = [] ++ [EvLog (UndoSetMask (spr_mask ex_one_layer))] ++ [EvMut MutMask] /\
    apply_inverse (UndoSetMask (spr_mask ex_one_layer)) (s_spr s') = Some ex_one_layer.
Proof.
  assert (H1 : hist_ok true (mkSt ex_one_layer ex_hist_open [])) by (intros _; vm_compute; discriminate).
  split; [exact H1|].
  exact (copyToCurrentMask_spec true (mkSt ex_one_layer ex_hist_open []) (spr_mask ex_mask_corner) H1).
Defined.

(** ** Further operations: cels of an image layer *)

(** Cels ordered by frame, as [LayerImage::addCel] keeps them. *)
Definition cel_le (a b : cel) : Prop := cel_frame a <= cel_frame b.

Lemma cel_insert_pos_le cels f : (cel_insert_pos cels f <= List.length cels)%nat.
Proof. induction cels as [|h t IH]; simpl; [lia|]. destruct (f <? cel_frame h); lia. Qed.

Lemma remove_insert_nth {A} n (x : A) l : (n <= List.length l)%nat -> remove_nth n (insert_nth n x l) = l.
Proof.
  revert n; induction l as [|h t IH]; intros [|n] Hn; simpl in *; try reflexivity; try lia.
  f_equal. apply IH. lia.
Qed.

Lemma insert_hdrel a c cels :
  HdRel cel_le a cels -> cel_le a c ->
  HdRel cel_le a (insert_nth (cel_insert_pos cels (cel_frame c)) c cels).
Proof.
  destruct cels as [|h t]; intros Hh Hac; simpl; [constructor; exact Hac|].
  destruct (cel_frame c <? cel_frame h); constructor; [exact Hac|]. inversion Hh; assumption.
Qed.

Lemma insert_sorted c cels :
  Sorted cel_le cels -> Sorted cel_le (insert_nth (cel_insert_pos cels (cel_frame c)) c cels).
Proof.
  induction cels as [|h t IH]; intros Hs; simpl.
  - repeat constructor.
  - inversion Hs as [|h' t' Ht Hh]; subst.
    destruct (Z.ltb_spec (cel_frame c) (cel_frame h)) as [Lt|Ge].
    + constructor; [exact Hs|]. constructor. unfold cel_le. lia.
    + constructor; [apply IH; exact Ht|]. apply insert_hdrel; [exact Hh|]. unfold cel_le. lia.
Qed.

(** X11. [addCel(layer, cel)] inserts the cel into a cel list ordered by
    frame so that the list stays ordered by frame, and the result holds
    exactly the old cels and the new one; the position it records for the
    undo is the one the cel was put at, so that removing the cel there
    (the inverse of the record) gives back the old list. The sprite itself
    does not change. *)
Theorem addCel_keeps_frame_order en lid cels c s :
  hist_ok en s -> Sorted cel_le cels ->
  exists s', addCel en lid cels c s =
               Some (insert_nth (cel_insert_pos cels (cel_frame c)) c cels, s') /\
    s_spr s' = s_spr s /\
    s_trace s' = s_trace s ++ (if en then [EvLog (UndoAddCel lid (cel_insert_pos cels (cel_frame c)))]
                               else []) ++ [EvMut MutCelAdd] /\
    Sorted cel_le (insert_nth (cel_insert_pos cels (cel_frame c)) c cels) /\
    Permutation (insert_nth (cel_insert_pos cels (cel_frame c)) c cels) (c :: cels) /\
    remove_nth (cel_insert_pos cels (cel_frame c))
               (insert_nth (cel_insert_pos cels (cel_frame c)) c cels) = cels.
Proof.
  intros Hok Hs. unfold addCel. cbv zeta.
  destruct (when_record_trace en (UndoAddCel lid (cel_insert_pos cels (cel_frame c))) s Hok)
    as [s1 [H1 [Hs1 Ht1]]].
  rewrite (bind_some _ _ _ _ _ H1). unfold touch, bind, ret.
  eexists. split; [reflexivity|]. simpl. rewrite Hs1, Ht1, app_assoc.
  split; [reflexivity|]. split; [reflexivity|]. split; [apply insert_sorted; exact Hs|].
  split; [apply insert_nth_perm|]. apply remove_insert_nth, cel_insert_pos_le.
Qed.

Lemma getCelAt_nth cels fr q it : getCelAt cels fr = Some (q, it) -> nth_error cels q = Some it.
Proof.
  unfold getCelAt. destruct (getCel cels fr) as [p|]; [|discriminate].
  destruct (nth_error cels p) as [d|] eqn:E; [|discriminate]. intros H. injection H as <- <-. exact E.
Qed.

Lemma getCelAt_of_nth cels q d :
  NoDup (map cel_frame cels) -> nth_error cels q = Some d ->
  getCelAt cels (cel_frame d) = Some (q, d).
Proof.
  intros Hnd Hd. destruct (getCel cels (cel_frame d)) as [q'|] eqn:G.
  - destruct (getCelAt_some _ _ _ G) as [d' [Hat [Hd' Hf]]]. rewrite Hat.
    pose proof (nodup_frame_pos _ _ _ _ _ Hnd Hd' Hd Hf) as ->. congruence.
  - exfalso. apply (getCel_none _ _ G d); [eapply nth_error_In; exact Hd|reflexivity].
Qed.

Lemma in_zseq0 fr T : In fr (zseq 0 T) <-> 0 <= fr < T.
Proof.
  unfold zseq. rewrite in_map_iff. split.
  - intros [k [<- Hk]]. apply in_seq in Hk. lia.
  - intros Hfr. exists (Z.to_nat fr). split; [lia|]. apply in_seq. lia.
Qed.

(** X12. [removeCel(layer, cel)] on a layer with at most one cel per frame,
    all at frames of [0, totalFrames), whose cel's image is in the stock:
    it returns the cel list without the cel; when another cel of the same
    layer uses the same stock slot the sprite is left as it is, and
    otherwise the slot is freed and nothing else of the sprite changes. *)
Theorem removeCel_frees_unshared_slot en lid cels p c s :
  hist_ok en s -> nth_error cels p = Some c ->
  stock_get (spr_stock (s_spr s)) (cel_image c) <> None ->
  cels_wf (spr_frames (s_spr s)) cels ->
  exists s', removeCel en lid cels p s = Some (remove_nth p cels, s') /\
    ((exists q d, q <> p /\ nth_error cels q = Some d /\ cel_image d = cel_image c) ->
     s_spr s' = s_spr s) /\
    ((forall q d, q <> p -> nth_error cels q = Some d -> cel_image d <> cel_image c) ->
     s_spr s' = set_stock (stock_set (cel_image c) None (spr_stock (s_spr s))) (s_spr s)).
Proof.
  intros Hok Hc Hl [Hnd Hrange]. unfold removeCel.
  rewrite (bind_some _ _ s c s) by (unfold some; rewrite Hc; reflexivity).
  rewrite gets_bind. cbv zeta.
  set (used := existsb _ _).
  assert (Hused : used = true <-> exists q d, q <> p /\ nth_error cels q = Some d /\
                                              cel_image d = cel_image c).
  { unfold used. rewrite existsb_exists. split.
    - intros [fr [_ Hfr]]. destruct (getCelAt cels fr) as [[q it]|] eqn:G; [|discriminate].
      apply andb_true_iff in Hfr as [Hq Hi]. exists q, it.
      split; [apply negb_true_iff, Nat.eqb_neq in Hq; exact Hq|].
      split; [exact (getCelAt_nth _ _ _ _ G)|apply Z.eqb_eq; exact Hi].
    - intros [q [d [Hq [Hd Hi]]]]. exists (cel_frame d). split.
      + apply in_zseq0. rewrite Forall_forall in Hrange. apply Hrange.
        eapply nth_error_In. exact Hd.
      + rewrite (getCelAt_of_nth _ _ _ Hnd Hd). apply andb_true_iff. split.
        * apply negb_true_iff, Nat.eqb_neq. exact Hq.
        * apply Z.eqb_eq. exact Hi. }
  destruct used eqn:U.
  - rewrite (bind_some _ _ s tt s) by reflexivity.
    destruct (when_record en (UndoRemoveCel lid p c) s Hok) as [s1 [H1 [Hs1 _]]].
    rewrite (bind_some _ _ _ _ _ H1). unfold touch, bind, ret.
    eexists. split; [reflexivity|]. split; [intros _; exact Hs1|].
    intros Hno. exfalso. destruct (proj1 Hused eq_refl) as [q [d [Hq [Hd Hi]]]].
    exact (Hno q d Hq Hd Hi).
  - destruct (removeImageFromStock_ok en (cel_image c) s Hok Hl) as [s1 [H1 [Hok1 Hs1]]].
    rewrite (bind_some _ _ _ _ _ H1).
    destruct (when_record en (UndoRemoveCel lid p c) s1 Hok1) as [s2 [H2 [Hs2 _]]].
    rewrite (bind_some _ _ _ _ _ H2). unfold touch, bind, ret.
    eexists. split; [reflexivity|]. split.
    + intros Hsh. apply Hused in Hsh. discriminate.
    + intros _. simpl. congruence.
Qed.

Lemma addCel_keeps_frame_order_witness :
  hist_ok true (mkSt ex_one_layer ex_hist_open []) /\
  Sorted cel_le [cel_new 0 1; cel_new 2 3] /\
  exists s', addCel true 1 [cel_new 0 1; cel_new 2 3] (cel_new 1 2) (mkSt ex_one_layer ex_hist_open []) =
               Some (insert_nth (cel_insert_pos [cel_new 0 1; cel_new 2 3] 1) (cel_new 1 2)
                                [cel_new 0 1; cel_new 2 3], s') /\
    s_spr s' = ex_one_layer /\
    s_trace s' = [] ++ [EvLog (UndoAddCel 1 (cel_insert_pos [cel_new 0 1; cel_new 2 3] 1))]
                    ++ [EvMut MutCelAdd] /\
    Sorted cel_le (insert_nth (cel_insert_pos [cel_new 0 1; cel_new 2 3] 1) (cel_new 1 2)
                              [cel_new 0 1; cel_new 2 3]) /\
    Permutation (insert_nth (cel_insert_pos [cel_new 0 1; cel_new 2 3] 1) (cel_new 1 2)
                            [cel_new 0 1; cel_new 2 3]) (cel_new 1 2 :: [cel_new 0 1; cel_new 2 3]) /\
    remove_nth (cel_insert_pos [cel_new 0 1; cel_new 2 3] 1)
               (insert_nth (cel_insert_pos [cel_new 0 1; cel_new 2 3] 1) (cel_new 1 2)
                           [cel_new 0 1; cel_new 2 3]) = [cel_new 0 1; cel_new 2 3].
Proof.
  assert (H1 : hist_ok true (mkSt ex_one_layer ex_hist_open [])) by (intros _; vm_compute; discriminate).
  assert (H2 : Sorted cel_le [cel_new 0 1; cel_new 2 3])
    by (repeat constructor; unfold cel_le; simpl; lia).
  split; [exact H1|]. split; [exact H2|].
  exact (addCel_keeps_frame_order true 1 [cel_new 0 1; cel_new 2 3] (cel_new 1 2)
           (mkSt ex_one_layer ex_hist_open []) H1 H2).
Defined.

Lemma removeCel_frees_unshared_slot_witness :
  hist_ok true (mkSt ex_shared ex_hist_open []) /\
  nth_error [cel_new 0 1; cel_new 1 2] 0 = Some (cel_new 0 1) /\
  stock_get (spr_stock ex_shared) (cel_image (cel_new 0 1)) <> None /\
  cels_wf (spr_frames ex_shared) [cel_new 0 1; cel_new 1 2] /\
  exists s', removeCel true 1 [cel_new 0 1; cel_new 1 2] 0 (mkSt ex_shared ex_hist_open []) =
               Some (remove_nth 0 [cel_new 0 1; cel_new 1 2], s') /\
    ((exists q d, q <> 0%nat /\ nth_error [cel_new 0 1; cel_new 1 2] q = Some d /\
                  cel_image d = cel_image (cel_new 0 1)) -> s_spr s' = ex_shared) /\
    ((forall q d, q <> 0%nat -> nth_error [cel_new 0 1; cel_new 1 2] q = Some d ->
                  cel_image d <> cel_image (cel_new 0 1)) ->
     s_spr s' = set_stock (stock_set (cel_image (cel_new 0 1)) None (spr_stock ex_shared)) ex_shared).
Proof.
  assert (H1 : hist_ok true (mkSt ex_shared ex_hist_open [])) by (intros _; vm_compute; discriminate).
  assert (H2 : nth_error [cel_new 0 1; cel_new 1 2] 0 = Some (cel_new 0 1)) by reflexivity.
  assert (H3 : stock_get (spr_stock ex_shared) (cel_image (cel_new 0 1)) <> None)
    by (vm_compute; discriminate).
  assert (H4 : cels_wf (spr_frames ex_shared) [cel_new 0 1; cel_new 1 2])
    by (split; repeat constructor; simpl; intuition lia).
  split; [exact H1|]. split; [exact H2|]. split; [exact H3|]. split; [exact H4|].
  exact (removeCel_frees_unshared_slot true 1 [cel_new 0 1; cel_new 1 2] 0 (cel_new 0 1)
           (mkSt ex_shared ex_hist_open []) H1 H2 H3 H4).
Defined.

(** ** Further operations: moving a layer *)

Lemma index_of_spec id ch i :
  index_of id ch = Some i -> exists x, nth_error ch i = Some x /\ layer_id x = id.
Proof.
  revert i; induction ch as [|c cs IH]; intros i H; simpl in H; [discriminate|].
  destruct (Nat.eqb_spec (layer_id c) id) as [E|E].
  - injection H as <-. exists c. auto.
  - destruct (index_of id cs) as [n|] eqn:F; [|discriminate]. injection H as <-.
    simpl. apply IH. reflexivity.
Qed.

Lemma index_of_nodup ch i x :
  NoDup (map layer_id ch) -> nth_error ch i = Some x -> index_of (layer_id x) ch = Some i.
Proof.
  revert i; induction ch as [|c cs IH]; intros i Hnd Hx; [destruct i; discriminate|].
  simpl in Hnd. apply NoDup_cons_iff in Hnd as [Hnin Hnd]. simpl.
  destruct i as [|i]; simpl in Hx.
  - injection Hx as ->. rewrite Nat.eqb_refl. reflexivity.
  - destruct (Nat.eqb_spec (layer_id c) (layer_id x)) as [E|E].
    + exfalso. apply Hnin. rewrite E. apply in_map. eapply nth_error_In. exact Hx.
    + rewrite (IH i Hnd Hx). reflexivity.
Qed.

Lemma remove_nth_perm {A} (l : list A) i x :
  nth_error l i = Some x -> Permutation l (x :: remove_nth i l).
Proof.
  revert i; induction l as [|h t IH]; intros [|i] Hx; simpl in Hx; try discriminate.
  - injection Hx as ->. reflexivity.
  - simpl. eapply perm_trans; [apply perm_skip; exact (IH i Hx)|apply perm_swap].
Qed.

Lemma insert_remove_nth {A} (l : list A) i x :
  nth_error l i = Some x -> insert_nth i x (remove_nth i l) = l.
Proof.
  revert i; induction l as [|h t IH]; intros [|i] Hx; simpl in Hx; try discriminate.
  - injection Hx as ->. destruct t; reflexivity.
  - simpl. destruct t as [|h' t']; [destruct i; discriminate|]. simpl. f_equal.
    specialize (IH i Hx). simpl in IH. exact IH.
Qed.

Lemma nth_error_insert_nth {A} (l : list A) n x :
  (n <= List.length l)%nat -> nth_error (insert_nth n x l) n = Some x.
Proof.
  revert n; induction l as [|h t IH]; intros [|n] Hn; simpl in *; try reflexivity; try lia.
  apply IH. lia.
Qed.

Lemma insert_nth_0 {A} (x : A) l : insert_nth 0 x l = x :: l.
Proof. destruct l; reflexivity. Qed.

Lemma index_of_lt id ch j : index_of id ch = Some j -> (j < List.length ch)%nat.
Proof.
  intros H. destruct (index_of_spec _ _ _ H) as [x [Hx _]]. apply nth_error_Some. congruence.
Qed.

(** What [move_layer] does to the children: it reorders them, and moving
    the layer back to the position it had restores them. *)
Lemma move_layer_inverse id after ch ch' pos :
  NoDup (map layer_id ch) -> index_of id ch = Some pos -> move_layer id after ch = Some ch' ->
  Permutation ch' ch /\ folder_move_layer id pos (LayerFolder 0 ch') = LayerFolder 0 ch.
Proof.
  intros Hnd Hpos. unfold move_layer. rewrite Hpos.
  destruct (index_of_spec _ _ _ Hpos) as [x [Hx Hid]]. rewrite Hx.
  pose proof (remove_nth_perm _ _ _ Hx) as Hperm.
  set (r := remove_nth pos ch) in *.
  assert (Hnd' : NoDup (map layer_id (x :: r))) by (eapply Permutation_NoDup; [apply Permutation_map; exact Hperm|exact Hnd]).
  assert (Hgoal : forall n, (n <= List.length r)%nat -> ch' = insert_nth n x r ->
            Permutation ch' ch /\ folder_move_layer id pos (LayerFolder 0 ch') = LayerFolder 0 ch).
  { intros n Hn ->. split.
    - rewrite insert_nth_perm. symmetry. exact Hperm.
    - assert (Hnd2 : NoDup (map layer_id (insert_nth n x r)))
        by (eapply Permutation_NoDup; [apply Permutation_map; symmetry; apply insert_nth_perm|exact Hnd']).
      unfold folder_move_layer, with_children. subst id.
      rewrite (index_of_nodup _ n x Hnd2 (nth_error_insert_nth _ _ _ Hn)).
      rewrite nth_error_insert_nth by exact Hn.
      rewrite remove_insert_nth by exact Hn. unfold r. rewrite insert_remove_nth by exact Hx.
      reflexivity. }
  destruct after as [a|].
  - destruct (index_of a r) as [j|] eqn:J; [|discriminate]. intros H. injection H as <-.
    apply (Hgoal (S j)); [apply index_of_lt in J; lia|reflexivity].
  - intros H. injection H as <-. apply (Hgoal O); [lia|symmetry; apply insert_nth_0].
Qed.

Lemma update_at_compose p f g l :
  update_at p f (update_at p g l) = update_at p (fun x => f (g x)) l.
Proof.
  revert l; induction p as [|i p IH]; intros l; simpl; [reflexivity|].
  destruct l as [id bg cs|id ch]; [reflexivity|].
  destruct (nth_error ch i) as [c|] eqn:E; simpl; [|rewrite E; reflexivity].
  rewrite nth_error_upd_nth_eq by (apply nth_error_Some; congruence).
  rewrite upd_nth_upd_nth, IH. reflexivity.
Qed.

Lemma update_at_self p f l x :
  layer_at p l = Some x -> f x = x -> update_at p f l = l.
Proof.
  revert l; induction p as [|i p IH]; intros l Hx Hf; simpl in *.
  - injection Hx as ->. exact Hf.
  - destruct l as [id bg cs|id ch]; [reflexivity|].
    destruct (nth_error ch i) as [c|] eqn:E; [|reflexivity].
    rewrite (IH c Hx Hf). rewrite upd_nth_nth_error by exact E. reflexivity.
Qed.

(** X13. [moveLayerAfter(layer, after_this)] for a layer found at position
    [pos] of its parent folder, whose children have distinct identities,
    when [move_layer] can place it: the parent's children are replaced by
    the reordered list, which is a permutation of them, and nothing else
    of the sprite changes; when the journal is enabled it first records
    the parent, the layer and [pos]; moving the layer back to [pos] within
    that parent (the inverse of the record) gives back the layer tree. *)
Theorem moveLayerAfter_undo en s layer after_this path parent_path pos pid ch ch' :
  hist_ok en s ->
  find_path layer (spr_folder (s_spr s)) = Some path ->
  split_last path = Some (parent_path, pos) ->
  layer_at parent_path (spr_folder (s_spr s)) = Some (LayerFolder pid ch) ->
  NoDup (map layer_id ch) ->
  move_layer layer after_this ch = Some ch' ->
  exists s', moveLayerAfter en layer after_this s = Some (tt, s') /\
    s_spr s' = set_folder (update_at parent_path (with_children (fun _ => ch'))
                                     (spr_folder (s_spr s))) (s_spr s) /\
    Permutation ch' ch /\
    s_trace s' = s_trace s ++ (if en then [EvLog (UndoMoveLayer pid layer pos)] else [])
                           ++ [EvMut MutLayerMove] /\
    update_at parent_path (folder_move_layer layer pos) (spr_folder (s_spr s')) =
      spr_folder (s_spr s).
Proof.
  intros Hok Hfind Hsplit Hpar Hnd Hmove.
  destruct (find_path_spec _ _ _ Hfind) as [l [Hl Hid]].
  pose proof (split_last_app _ _ _ Hsplit) as Hp. subst path.
  rewrite layer_at_snoc, Hpar in Hl.
  assert (Hpos : index_of layer ch = Some pos) by (rewrite <- Hid; apply index_of_nodup; assumption).
  destruct (move_layer_inverse _ _ _ _ _ Hnd Hpos Hmove) as [Hperm Hinv].
  assert (Hsome : forall A (o : option A) a s0, o = Some a -> some o s0 = Some (a, s0))
    by (intros A o a s0 ->; reflexivity).
  unfold moveLayerAfter. rewrite get_sprite_bind.
  rewrite (bind_some _ _ s _ s) by (apply Hsome; exact Hfind).
  rewrite (bind_some _ _ s _ s) by (apply Hsome; exact Hsplit).
  cbv beta iota.
  rewrite (bind_some _ _ s _ s) by (apply Hsome; exact Hpar).
  destruct (when_record_trace en (UndoMoveLayer pid layer pos) s Hok) as [s1 [H1 [Hs1 Ht1]]].
  rewrite (bind_some _ _ _ _ _ H1).
  rewrite (bind_some _ _ s1 _ s1) by (apply Hsome; exact Hmove).
  unfold mutate. eexists. split; [reflexivity|]. simpl. rewrite Hs1, Ht1, app_assoc.
  split; [reflexivity|]. split; [exact Hperm|]. split; [reflexivity|].
  destruct (s_spr s) as [a b c d e f g h i j k m n]; simpl in *.
  rewrite update_at_compose. apply (update_at_self _ _ _ _ Hpar).
  unfold folder_move_layer, with_children in Hinv |- *. simpl.
  injection Hinv as Hinv. rewrite Hinv. reflexivity.
Qed.

Lemma moveLayerAfter_undo_witness :
  hist_ok true (mkSt ex_shared ex_hist_open []) /\
  find_path 1 (spr_folder ex_shared) = Some [0%nat] /\
  split_last [0%nat] = Some ([], 0%nat) /\
  layer_at [] (spr_folder ex_shared) = Some (LayerFolder 0 (children (spr_folder ex_shared))) /\
  NoDup (map layer_id (children (spr_folder ex_shared))) /\
  move_layer 1 (Some 2%nat) (children (spr_folder ex_shared)) =
    Some (rev (children (spr_folder ex_shared))) /\
  exists s', moveLayerAfter true 1 (Some 2%nat) (mkSt ex_shared ex_hist_open []) = Some (tt, s') /\
    s_spr s' = set_folder (update_at [] (with_children (fun _ => rev (children (spr_folder ex_shared))))
                                     (spr_folder ex_shared)) ex_shared /\
    Permutation (rev (children (spr_folder ex_shared))) (children (spr_folder ex_shared)) /\
    s_trace s' = [] ++ [EvLog (UndoMoveLayer 0 1 0)] ++ [EvMut MutLayerMove] /\
    update_at [] (folder_move_layer 1 0) (spr_folder (s_spr s')) = spr_folder ex_shared.
Proof.
  assert (H1 : hist_ok true (mkSt ex_shared ex_hist_open [])) by (intros _; vm_compute; discriminate).
  assert (H2 : find_path 1 (spr_folder ex_shared) = Some [0%nat]) by reflexivity.
  assert (H3 : split_last [0%nat] = Some ([], 0%nat)) by reflexivity.
  assert (H4 : layer_at [] (spr_folder ex_shared) = Some (LayerFolder 0 (children (spr_folder ex_shared))))
    by reflexivity.
  assert (H5 : NoDup (map layer_id (children (spr_folder ex_shared))))
    by (simpl; repeat constructor; simpl; lia).
  assert (H6 : move_layer 1 (Some 2%nat) (children (spr_folder ex_shared)) =
                 Some (rev (children (spr_folder ex_shared)))) by reflexivity.
  split; [exact H1|]. split; [exact H2|]. split; [exact H3|]. split; [exact H4|].
  split; [exact H5|]. split; [exact H6|].
  exact (moveLayerAfter_undo true (mkSt ex_shared ex_hist_open []) 1 (Some 2%nat) [0%nat] [] 0 0
           (children (spr_folder ex_shared)) (rev (children (spr_folder ex_shared)))
           H1 H2 H3 H4 H5 H6).
Defined.

(** ** Further operations: displacing layers, mask position, sprite size *)

Lemma when_record2 en r1 r2 s :
  hist_ok en s ->
  exists s', when en (record r1 ;; record r2) s = Some (tt, s') /\ s_spr s' = s_spr s /\
             hist_ok en s'.
Proof.
  intros Hok. destruct en; simpl.
  - destruct (h_open (s_hist s)) as [g|] eqn:E; [|exfalso; exact (Hok eq_refl E)].
    unfold bind. rewrite (record_some r1 s g E).
    rewrite (record_some r2 _ (g ++ [r1])) by reflexivity.
    eexists. split; [reflexivity|]. split; [reflexivity|]. intros _. simpl. discriminate.
  - exists s. auto.
Qed.

(** The new position of a displaced cel. *)
Definition displace_cel (dx dy : Z) (c : cel) : cel :=
  set_cel_y (cel_y c + dy) (set_cel_x (cel_x c + dx) c).

Lemma upd_nth_prefix {A} (f : A -> A) cs k c :
  nth_error cs k = Some c ->
  upd_nth k (f c) (map f (firstn k cs) ++ skipn k cs) = map f (firstn (S k) cs) ++ skipn (S k) cs.
Proof.
  revert k; induction cs as [|h t IH]; intros [|k] Hc; simpl in Hc; try discriminate.
  - injection Hc as ->. reflexivity.
  - simpl. f_equal. apply IH. exact Hc.
Qed.

Lemma nth_error_prefix {A} (f : A -> A) cs k :
  nth_error (map f (firstn k cs) ++ skipn k cs) k = nth_error cs k.
Proof.
  revert cs; induction k as [|k IH]; intros [|h t]; simpl; auto.
Qed.

Lemma displaceImage_loop en dx dy lid :
  forall m k cs s, hist_ok en s -> List.length cs = (k + m)%nat ->
  exists s', fold_list (seq k m)
    (fun pos cels =>
       c <- some (nth_error cels pos) ;;
       setCelPosition en lid cels pos (cel_x c + dx) (cel_y c + dy))
    (map (displace_cel dx dy) (firstn k cs) ++ skipn k cs) s =
    Some (map (displace_cel dx dy) cs, s') /\ hist_ok en s' /\ s_spr s' = s_spr s.
Proof.
  induction m as [|m IH]; intros k cs s Hok Hlen; simpl.
  - rewrite firstn_all2 by lia. rewrite skipn_all2 by lia. rewrite app_nil_r.
    exists s. auto.
  - destruct (nth_error cs k) as [c|] eqn:Hc; [|apply nth_error_None in Hc; lia].
    rewrite bind_assoc.
    rewrite (bind_some _ _ s c s) by (unfold some; rewrite nth_error_prefix, Hc; reflexivity).
    unfold setCelPosition. rewrite bind_assoc.
    rewrite (bind_some _ _ s c s) by (unfold some; rewrite nth_error_prefix, Hc; reflexivity).
    destruct (when_record2 en (UndoCelX lid k (cel_x c)) (UndoCelY lid k (cel_y c)) s Hok)
      as [s1 [H1 [Hs1 Hok1]]].
    rewrite bind_assoc. rewrite (bind_some _ _ _ _ _ H1). rewrite bind_assoc.
    unfold touch at 1. rewrite (bind_some _ _ _ _ _ eq_refl). unfold ret at 1.
    rewrite (bind_some _ _ _ _ _ eq_refl).
    pose proof (upd_nth_prefix (displace_cel dx dy) cs k c Hc) as U. unfold displace_cel in U at 1.
    rewrite U.
    destruct (IH (S k) cs _ (hist_ok_mutate en MutCelPos (fun x => x) s1 Hok1)) as [s2 [H2 [Hok2 Hs2]]];
      [lia|].
    exists s2. split; [exact H2|]. split; [exact Hok2|]. rewrite Hs2. exact Hs1.
Qed.

Section TraversePure.
Variable en : bool.
Variable step : nat -> list cel -> M (list cel).
Variable g : list cel -> list cel.
Hypothesis Hstep : forall lid cs s, hist_ok en s ->
  exists s', step lid cs s = Some (g cs, s') /\ hist_ok en s' /\ s_spr s' = s_spr s.

Lemma traverse_pure l : forall s, hist_ok en s ->
  exists s', traverse step l s = Some (map_image_cels g l, s') /\ hist_ok en s' /\ s_spr s' = s_spr s.
Proof.
  induction l as [id bg cs | id ch IHch] using layer_ind_nested; intros s Hok; simpl.
  - destruct (Hstep id cs s Hok) as [s1 [H1 [Hok1 Hs1]]].
    rewrite (bind_some _ _ _ _ _ H1). exists s1. auto.
  - assert (Hch : forall s, hist_ok en s -> exists s',
              mapM_layers (traverse step) ch s = Some (map (map_image_cels g) ch, s') /\
              hist_ok en s' /\ s_spr s' = s_spr s).
    { induction IHch as [|c cs Hc Hcs IH]; intros s0 Hok0; simpl.
      - exists s0. auto.
      - destruct (Hc s0 Hok0) as [s1 [H1 [Hok1 Hs1]]]. rewrite (bind_some _ _ _ _ _ H1).
        destruct (IH s1 Hok1) as [s2 [H2 [Hok2 Hs2]]]. rewrite (bind_some _ _ _ _ _ H2).
        exists s2. split; [reflexivity|]. split; [exact Hok2|]. congruence. }
    destruct (Hch s Hok) as [s1 [H1 [Hok1 Hs1]]]. rewrite (bind_some _ _ _ _ _ H1).
    exists s1. auto.
Qed.

End TraversePure.

(** X14. [displaceLayers(layer, dx, dy)] returns the layer tree with every
    cel of every image layer moved by [(dx, dy)] and nothing else changed;
    it leaves the sprite as it is (the caller puts the tree back). *)
Theorem displaceLayers_moves_every_cel en l dx dy s :
  hist_ok en s ->
  exists s', displaceLayers en l dx dy s =
               Some (map_image_cels (map (displace_cel dx dy)) l, s') /\
             s_spr s' = s_spr s.
Proof.
  intros Hok. unfold displaceLayers.
  assert (Hstep : forall lid cs s0, hist_ok en s0 -> exists s',
            displaceImage en dx dy lid cs s0 = Some (map (displace_cel dx dy) cs, s') /\
            hist_ok en s' /\ s_spr s' = s_spr s0).
  { intros lid cs s0 Hok0. unfold displaceImage.
    exact (displaceImage_loop en dx dy lid (List.length cs) 0 cs s0 Hok0 eq_refl). }
  destruct (traverse_pure en (displaceImage en dx dy) (map (displace_cel dx dy)) Hstep l s Hok)
    as [s' [H1 [_ H2]]].
  exists s'. auto.
Qed.

(** X15. [setMaskPosition(x, y)] with the journal enabled and a group
    open: the mask moves to [(x, y)] and keeps its name, size and bitmap;
    nothing else of the sprite changes; the old x and y are appended to
    the group, and replaying these two records gives back the sprite as it
    was. *)
Theorem setMaskPosition_undo s x y g :
  h_open (s_hist s) = Some g ->
  exists s', setMaskPosition true x y s = Some (tt, s') /\
    s_spr s' = set_mask (mkMask (mask_name (spr_mask (s_spr s))) x y (mask_w (spr_mask (s_spr s)))
                                (mask_h (spr_mask (s_spr s))) (mask_bitmap (spr_mask (s_spr s))))
                        (s_spr s) /\
    h_open (s_hist s') = Some (g ++ [UndoMaskX (mask_x (spr_mask (s_spr s)));
                                     UndoMaskY (mask_y (spr_mask (s_spr s)))]) /\
    replay [UndoMaskX (mask_x (spr_mask (s_spr s))); UndoMaskY (mask_y (spr_mask (s_spr s)))]
           (s_spr s') = Some (s_spr s).
Proof.
  intros Hg. unfold setMaskPosition. rewrite get_sprite_bind. simpl (when _ _).
  rewrite bind_assoc. rewrite (bind_some _ _ _ _ _ (record_some _ s g Hg)).
  unfold bind at 1. rewrite (record_some _ _ (g ++ [UndoMaskX (mask_x (spr_mask (s_spr s)))]))
    by reflexivity.
  unfold mutate. eexists. split; [reflexivity|]. simpl. split; [reflexivity|].
  split; [rewrite <- app_assoc; reflexivity|].
  destruct (s_spr s) as [a b c d e f h i j k [mn mx my mw mh mb] n o]. reflexivity.
Qed.

(** X16. [setSpriteSize(w, h)] with positive [w] and [h], the journal
    enabled and a group open: the sprite gets size [w x h] and nothing else
    of it changes; the old size is appended to the group, and replaying
    that record gives back the sprite as it was. *)
Theorem setSpriteSize_undo s w h g :
  0 < w -> 0 < h -> h_open (s_hist s) = Some g ->
  exists s', setSpriteSize true w h s = Some (tt, s') /\
    s_spr s' = set_size w h (s_spr s) /\
    h_open (s_hist s') = Some (g ++ [UndoSetSize (spr_width (s_spr s)) (spr_height (s_spr s))]) /\
    replay [UndoSetSize (spr_width (s_spr s)) (spr_height (s_spr s))] (s_spr s') = Some (s_spr s).
Proof.
  intros Hw Hh Hg. unfold setSpriteSize, assert.
  replace (0 <? w) with true by (symmetry; apply Z.ltb_lt; exact Hw).
  replace (0 <? h) with true by (symmetry; apply Z.ltb_lt; exact Hh).
  rewrite (bind_some _ _ s tt s) by reflexivity.
  rewrite (bind_some _ _ s tt s) by reflexivity.
  rewrite get_sprite_bind. simpl (when _ _).
  rewrite (bind_some _ _ _ _ _ (record_some _ s g Hg)).
  unfold mutate. eexists. split; [reflexivity|]. simpl. split; [reflexivity|].
  split; [reflexivity|]. destruct (s_spr s); reflexivity.
Qed.

Lemma displaceLayers_moves_every_cel_witness :
  hist_ok true (mkSt ex_shared ex_hist_open []) /\
  exists s', displaceLayers true (spr_folder ex_shared) 3 (-1) (mkSt ex_shared ex_hist_open []) =
               Some (map_image_cels (map (displace_cel 3 (-1))) (spr_folder ex_shared), s') /\
             s_spr s' = ex_shared.
Proof.
  assert (H1 : hist_ok true (mkSt ex_shared ex_hist_open [])) by (intros _; vm_compute; discriminate).
  split; [exact H1|].
  exact (displaceLayers_moves_every_cel true (spr_folder ex_shared) 3 (-1)
           (mkSt ex_shared ex_hist_open []) H1).
Defined.

Lemma setMaskPosition_undo_witness :
  h_open (s_hist (mkSt ex_mask_corner ex_hist_open [])) = Some [] /\
  exists s', setMaskPosition true 4 5 (mkSt ex_mask_corner ex_hist_open []) = Some (tt, s') /\
    s_spr s' = set_mask (mkMask ""%string 4 5 1 1 (Some [[true]])) ex_mask_corner /\
    h_open (s_hist s') = Some ([] ++ [UndoMaskX 0; UndoMaskY 0]) /\
    replay [UndoMaskX 0; UndoMaskY 0] (s_spr s') = Some ex_mask_corner.
Proof.
  assert (H1 : h_open (s_hist (mkSt ex_mask_corner ex_hist_open [])) = Some []) by reflexivity.
  split; [exact H1|].
  exact (setMaskPosition_undo (mkSt ex_mask_corner ex_hist_open []) 4 5 [] H1).
Defined.

Lemma setSpriteSize_undo_witness :
  0 < 3 /\ 0 < 4 /\ h_open (s_hist (mkSt ex_one_layer ex_hist_open [])) = Some [] /\
  exists s', setSpriteSize true 3 4 (mkSt ex_one_layer ex_hist_open []) = Some (tt, s') /\
    s_spr s' = set_size 3 4 ex_one_layer /\
    h_open (s_hist s') = Some ([] ++ [UndoSetSize 2 2]) /\
    replay [UndoSetSize 2 2] (s_spr s') = Some ex_one_layer.
Proof.
  assert (H1 : 0 < 3) by lia. assert (H2 : 0 < 4) by lia.
  assert (H3 : h_open (s_hist (mkSt ex_one_layer ex_hist_open [])) = Some []) by reflexivity.
  split; [exact H1|]. split; [exact H2|]. split; [exact H3|].
  exact (setSpriteSize_undo (mkSt ex_one_layer ex_hist_open []) 3 4 [] H1 H2 H3).
Defined.

(** ** Further operations: cropping the sprite *)

Lemma displaceLayers_ok en l dx dy s :
  hist_ok en s ->
  exists s', displaceLayers en l dx dy s = Some (map_image_cels (map (displace_cel dx dy)) l, s') /\
             hist_ok en s' /\ s_spr s' = s_spr s.
Proof.
  intros Hok. unfold displaceLayers.
  assert (Hstep : forall lid cs s0, hist_ok en s0 -> exists s',
            displaceImage en dx dy lid cs s0 = Some (map (displace_cel dx dy) cs, s') /\
            hist_ok en s' /\ s_spr s' = s_spr s0).
  { intros lid cs s0 Hok0. unfold displaceImage.
    exact (displaceImage_loop en dx dy lid (List.length cs) 0 cs s0 Hok0 eq_refl). }
  exact (traverse_pure en (displaceImage en dx dy) (map (displace_cel dx dy)) Hstep l s Hok).
Qed.

Lemma setSpriteSize_ok en w h s :
  0 < w -> 0 < h -> hist_ok en s ->
  exists s', setSpriteSize en w h s = Some (tt, s') /\ hist_ok en s' /\
             s_spr s' = set_size w h (s_spr s).
Proof.
  intros Hw Hh Hok. unfold setSpriteSize, assert.
  replace (0 <? w) with true by (symmetry; apply Z.ltb_lt; exact Hw).
  replace (0 <? h) with true by (symmetry; apply Z.ltb_lt; exact Hh).
  rewrite (bind_some _ _ s tt s) by reflexivity.
  rewrite (bind_some _ _ s tt s) by reflexivity.
  rewrite get_sprite_bind.
  destruct (when_record en (UndoSetSize (spr_width (s_spr s)) (spr_height (s_spr s))) s Hok)
    as [s1 [H1 [Hs1 [Hok1 _]]]].
  rewrite (bind_some _ _ _ _ _ H1). unfold mutate.
  eexists. split; [reflexivity|]. split; [exact Hok1|]. simpl. rewrite Hs1. reflexivity.
Qed.

Lemma setMaskPosition_ok en x y s :
  hist_ok en s ->
  exists s', setMaskPosition en x y s = Some (tt, s') /\
    s_spr s' = set_mask (mkMask (mask_name (spr_mask (s_spr s))) x y (mask_w (spr_mask (s_spr s)))
                                (mask_h (spr_mask (s_spr s))) (mask_bitmap (spr_mask (s_spr s))))
                        (s_spr s).
Proof.
  intros Hok. unfold setMaskPosition. rewrite get_sprite_bind.
  destruct (when_record2 en (UndoMaskX (mask_x (spr_mask (s_spr s))))
                            (UndoMaskY (mask_y (spr_mask (s_spr s)))) s Hok) as [s1 [H1 [Hs1 _]]].
  rewrite (bind_some _ _ _ _ _ H1). unfold mutate.
  eexists. split; [reflexivity|]. simpl. rewrite Hs1. reflexivity.
Qed.

Lemma getBackgroundLayer_map_image_cels g sp sp' :
  spr_folder sp' = map_image_cels g (spr_folder sp) -> getBackgroundLayer sp' = getBackgroundLayer sp.
Proof.
  unfold getBackgroundLayer. intros ->. destruct (spr_folder sp) as [id bg cs|id ch]; simpl; [reflexivity|].
  generalize O. induction ch as [|c cs IH]; intros i; simpl; [reflexivity|].
  destruct c as [cid [|] ccs|cid cch]; simpl; auto.
Qed.

(** X17. [cropSprite(x, y, w, h, bgcolor)] with positive [w] and [h], on a
    sprite whose root folder holds no background layer: the sprite gets
    size [w x h], every cel of every image layer moves by [(-x, -y)], and
    a non-empty mask moves by [(-x, -y)] while an empty one stays as it
    is; nothing else of the sprite changes. *)
Theorem cropSprite_without_background {PS : PixelSurface} en x y w h bgcolor s :
  hist_ok en s -> 0 < w -> 0 < h -> getBackgroundLayer (s_spr s) = None ->
  exists s', cropSprite en x y w h bgcolor s = Some (tt, s') /\
    s_spr s' =
      set_mask (let m := spr_mask (s_spr s) in
                if mask_is_empty m then m
                else mkMask (mask_name m) (mask_x m - x) (mask_y m - y) (mask_w m) (mask_h m)
                            (mask_bitmap m))
        (set_folder (map_image_cels (map (displace_cel (-x) (-y))) (spr_folder (s_spr s)))
                    (set_size w h (s_spr s))).
Proof.
  intros Hok Hw Hh Hbg. unfold cropSprite.
  destruct (setSpriteSize_ok en w h s Hw Hh Hok) as [s1 [H1 [Hok1 Hs1]]].
  rewrite (bind_some _ _ _ _ _ H1). rewrite gets_bind.
  destruct (displaceLayers_ok en (spr_folder (s_spr s1)) (-x) (-y) s1 Hok1) as [s2 [H2 [Hok2 Hs2]]].
  rewrite (bind_some _ _ _ _ _ H2). unfold put_sprite at 1. rewrite (bind_some _ _ _ _ _ eq_refl).
  rewrite get_sprite_bind. simpl s_spr.
  rewrite Hs2, Hs1.
  rewrite (getBackgroundLayer_map_image_cels (map (displace_cel (-x) (-y))) (s_spr s)) by reflexivity.
  rewrite Hbg.
  rewrite (bind_some _ _ _ tt _) by reflexivity. rewrite get_sprite_bind. simpl s_spr.
  set (sp2 := set_folder _ _).
  assert (Hok3 : hist_ok en (mkSt sp2 (s_hist s2) (s_trace s2))) by exact Hok2.
  replace (spr_mask (s_spr (mkSt sp2 (s_hist s2) (s_trace s2)))) with (spr_mask (s_spr s))
    by (unfold sp2; destruct (s_spr s); reflexivity).
  destruct (mask_is_empty (spr_mask (s_spr s))) eqn:E.
  - simpl. eexists. split; [reflexivity|]. simpl. unfold sp2. destruct (s_spr s); reflexivity.
  - simpl.
    destruct (setMaskPosition_ok en (mask_x (spr_mask (s_spr s)) - x) (mask_y (spr_mask (s_spr s)) - y)
                _ Hok3) as [s4 [H4 Hs4]].
    exists s4. split; [exact H4|]. rewrite Hs4. simpl. unfold sp2. destruct (s_spr s); reflexivity.
Qed.

Lemma cropSprite_without_background_witness :
  hist_ok true (mkSt ex_mask_corner ex_hist_open []) /\ 0 < 3 /\ 0 < 4 /\
  getBackgroundLayer ex_mask_corner = None /\
  exists s', cropSprite true 1 1 3 4 0 (mkSt ex_mask_corner ex_hist_open []) = Some (tt, s') /\
    s_spr s' =
      set_mask (let m := spr_mask ex_mask_corner in
                if mask_is_empty m then m
                else mkMask (mask_name m) (mask_x m - 1) (mask_y m - 1) (mask_w m) (mask_h m)
                            (mask_bitmap m))
        (set_folder (map_image_cels (map (displace_cel (-1) (-1))) (spr_folder ex_mask_corner))
                    (set_size 3 4 ex_mask_corner)).
Proof.
  assert (H1 : hist_ok true (mkSt ex_mask_corner ex_hist_open [])) by (intros _; vm_compute; discriminate).
  assert (H2 : 0 < 3) by lia. assert (H3 : 0 < 4) by lia.
  assert (H4 : getBackgroundLayer (s_spr (mkSt ex_mask_corner ex_hist_open [])) = None) by reflexivity.
  split; [exact H1|]. split; [exact H2|]. split; [exact H3|]. split; [exact H4|].
  exact (cropSprite_without_background true 1 1 3 4 0 (mkSt ex_mask_corner ex_hist_open []) H1 H2 H3 H4).
Defined.

(** ** Rolling back a transaction *)

(** An operation that leaves the enabled flag and the committed groups of
    the journal as they are. *)
Definition keeps_stacks {A} (m : M A) : Prop :=
  forall s a s', m s = Some (a, s') ->
    h_enabled (s_hist s') = h_enabled (s_hist s) /\ h_undo (s_hist s') = h_undo (s_hist s).

Lemma ks_ret {A} (a : A) : keeps_stacks (ret a).
Proof. intros s b s' H. injection H as _ <-. auto. Qed.

Lemma ks_bind {A B} (m : M A) (k : A -> M B) :
  keeps_stacks m -> (forall a, keeps_stacks (k a)) -> keeps_stacks (bind m k).
Proof.
  intros Hm Hk s b s' H. unfold bind in H. destruct (m s) as [[a s1]|] eqn:E; [|discriminate].
  destruct (Hm _ _ _ E) as [E1 U1]. destruct (Hk a _ _ _ H) as [E2 U2]. split; congruence.
Qed.

Lemma ks_record r : keeps_stacks (record r).
Proof.
  intros s a s' H. unfold record in H. destruct (h_open (s_hist s)); [|discriminate].
  injection H as _ <-. auto.
Qed.

Lemma ks_mutate k f : keeps_stacks (mutate k f).
Proof. intros s a s' H. injection H as _ <-. auto. Qed.

Lemma ks_gets {A} (f : sprite -> A) : keeps_stacks (gets f).
Proof. intros s a s' H. injection H as _ <-. auto. Qed.

Lemma ks_when b m : keeps_stacks m -> keeps_stacks (when b m).
Proof. intros Hm. destruct b; [exact Hm|apply ks_ret]. Qed.

Lemma ks_for_up n from body : (forall c, keeps_stacks (body c)) -> keeps_stacks (for_up n from body).
Proof.
  intros Hb. revert from; induction n as [|n IH]; intros from; simpl.
  - apply ks_ret.
  - apply ks_bind; [apply Hb|intros _; apply IH].
Qed.

(** A transaction destroyed without [commit()] around an operation that
    journals every change it makes: the sprite is back as it was, no group
    is open, the committed groups are as before and the redo list is
    empty. *)
Lemma rollback_restores (op : bool -> M unit) s s1 g' :
  h_enabled (s_hist s) = true -> h_open (s_hist s) = None ->
  op true (mkSt (s_spr s) (mkHistory true (Some []) (h_undo (s_hist s)) (h_redo (s_hist s)))
                (s_trace s)) = Some (tt, s1) ->
  h_open (s_hist s1) = Some g' -> h_enabled (s_hist s1) = true ->
  h_undo (s_hist s1) = h_undo (s_hist s) ->
  replay g' (s_spr s1) = Some (s_spr s) ->
  exists s', transaction_run op s = Some (tt, s') /\ s_spr s' = s_spr s /\
    s_hist s' = mkHistory true None (h_undo (s_hist s)) [].
Proof.
  intros He Ho Hop Hg' He1 Hu1 Hr. unfold transaction_run.
  assert (Hopen : open_transaction s =
            Some (mkTransaction true false,
                  mkSt (s_spr s) (mkHistory true (Some []) (h_undo (s_hist s)) (h_redo (s_hist s)))
                       (s_trace s))).
  { unfold open_transaction, bind, when, undo_open. rewrite He, Ho.
    destruct s as [sp [e o u r] tr]; simpl in *; subst; reflexivity. }
  rewrite (bind_some _ _ _ _ _ Hopen). simpl m_enabledFlag.
  rewrite (bind_some _ _ _ _ _ Hop).
  unfold close_transaction. cbn [m_enabledFlag m_committed negb].
  assert (Hclose : undo_close s1 =
            Some (tt, mkSt (s_spr s1) (mkHistory (h_enabled (s_hist s1)) None
                                                 (g' :: h_undo (s_hist s1)) []) (s_trace s1)))
    by (unfold undo_close; rewrite Hg'; reflexivity).
  rewrite (bind_some _ _ _ _ _ Hclose).
  assert (Hundo : doUndo (mkSt (s_spr s1) (mkHistory (h_enabled (s_hist s1)) None
                                                     (g' :: h_undo (s_hist s1)) []) (s_trace s1)) =
            Some (tt, mkSt (s_spr s) (mkHistory (h_enabled (s_hist s1)) None (h_undo (s_hist s1)) [g'])
                           (s_trace s1)))
    by (unfold doUndo; simpl; rewrite Hr; reflexivity).
  rewrite (bind_some _ _ _ _ _ Hundo). unfold clearRedo.
  eexists. split; [reflexivity|]. simpl. split; [reflexivity|]. rewrite He1, Hu1. reflexivity.
Qed.

(** X18. A transaction over a sprite with one duration per frame, with
    the journal enabled and no group open, that runs
    [setConstantFrameRate(msecs)] and is destroyed without [commit()]:
    afterwards the sprite is as it was before (every frame has its old
    duration), the committed groups are as before, no group is open and
    the redo list is empty. *)
Theorem setConstantFrameRate_rollback s msecs :
  h_enabled (s_hist s) = true -> h_open (s_hist s) = None ->
  List.length (spr_frlens (s_spr s)) = Z.to_nat (spr_frames (s_spr s)) ->
  exists s', transaction_run (fun en => setConstantFrameRate en msecs) s = Some (tt, s') /\
    s_spr s' = s_spr s /\ s_hist s' = mkHistory true None (h_undo (s_hist s)) [].
Proof.
  intros He Ho Hlen.
  set (s0 := mkSt (s_spr s) (mkHistory true (Some []) (h_undo (s_hist s)) (h_redo (s_hist s)))
                  (s_trace s)).
  destruct (setConstantFrameRate_journal s0 msecs [] eq_refl Hlen) as [s1 [g' [H1 [Hg1 [_ Hr]]]]].
  assert (Hks : keeps_stacks (setConstantFrameRate true msecs)).
  { unfold setConstantFrameRate. apply ks_bind; [apply ks_gets|intros sp].
    apply ks_bind; [apply ks_when, ks_for_up; intros c; apply ks_bind; [apply ks_gets|intros; apply ks_record]|].
    intros _. apply ks_mutate. }
  destruct (Hks _ _ _ H1) as [He1 Hu1].
  exact (rollback_restores (fun en => setConstantFrameRate en msecs) s s1 g' He Ho H1 Hg1 He1 Hu1 Hr).
Qed.

Lemma setConstantFrameRate_rollback_witness :
  h_enabled (s_hist (mkSt ex_three ex_hist_idle [])) = true /\
  h_open (s_hist (mkSt ex_three ex_hist_idle [])) = None /\
  List.length (spr_frlens (s_spr (mkSt ex_three ex_hist_idle []))) =
    Z.to_nat (spr_frames (s_spr (mkSt ex_three ex_hist_idle []))) /\
  exists s', transaction_run (fun en => setConstantFrameRate en 40) (mkSt ex_three ex_hist_idle []) =
               Some (tt, s') /\
    s_spr s' = s_spr (mkSt ex_three ex_hist_idle []) /\
    s_hist s' = mkHistory true None (h_undo (s_hist (mkSt ex_three ex_hist_idle []))) [].
Proof.
  assert (H1 : h_enabled (s_hist (mkSt ex_three ex_hist_idle [])) = true) by reflexivity.
  assert (H2 : h_open (s_hist (mkSt ex_three ex_hist_idle [])) = None) by reflexivity.
  assert (H3 : List.length (spr_frlens (s_spr (mkSt ex_three ex_hist_idle []))) =
                 Z.to_nat (spr_frames (s_spr (mkSt ex_three ex_hist_idle [])))) by reflexivity.
  split; [exact H1|]. split; [exact H2|]. split; [exact H3|].
  exact (setConstantFrameRate_rollback (mkSt ex_three ex_hist_idle []) 40 H1 H2 H3).
Defined.
